(** * ufo2ft: instruction compiler and anchor propagation

    A shallow embedding of [Lib/ufo2ft/instructionCompiler.py] and of the
    anchor propagation filter exercised by
    [tests/filters/propagateAnchors_test.py], with the properties of the
    specification stated and proved about the embedded code; then of the
    filter loader of [Lib/ufo2ft/filters/__init__.py] and of the two
    helpers of [Lib/ufo2ft/__init__.py], with further properties of the
    code. *)

From Stdlib Require Import ZArith String Ascii Lia.
From stdpp Require Import gmap strings list fin_maps sorting pretty.

Set Warnings "-register-all".
Local Open Scope string_scope.
Local Open Scope nat_scope.
Local Open Scope list_scope.

(** ** Python values

    The [lib] stores of a UFO are property lists: a stored value is a
    boolean, an integer, a string, a list or a dictionary; [None] is never
    a stored value, it only appears as the default of [dict.get], which is
    why a lookup is an [option].  Reals, dates and binary data are not
    modelled. *)

Inductive value : Type :=
  | VBool (b : bool)
  | VInt (z : Z)
  | VStr (s : string)
  | VList (l : list value)
  | VDict (d : gmap string value).

Abbreviation dict := (gmap string value).

(** Python exceptions the compiler can raise, and the outcome of a call. *)
Inductive exn : Type :=
  | NotImplementedError
  | TypeError
  | ValueError
  | KeyError
  | IndexError
  | AttributeError.

Inductive outcome (A : Type) : Type :=
  | Ok (a : A)
  | Raise (e : exn).
Arguments Ok {A} a.
Arguments Raise {A} e.

(** Truth value of a dictionary ([if ttdata:]): false when empty. *)
Definition dict_bool (d : dict) : bool := negb (bool_decide (size d = 0)).

(** Truth value of a stored value (Python's [bool(v)]). *)
Definition py_bool (v : value) : bool :=
  match v with
  | VBool b => b
  | VInt z => negb (z =? 0)%Z
  | VStr s => negb (String.eqb s EmptyString)
  | VList l => match l with [] => false | _ :: _ => true end
  | VDict d => dict_bool d
  end.

(** [v == s] for a stored value [v] and a Python [str] [s]: values of
    another type never equal a string. *)
Definition value_eq_str (v : value) (s : string) : bool :=
  match v with
  | VStr s' => String.eqb s' s
  | _ => false
  end.

(** ** Source font (UFO) data model *)

Record Transform : Type := mkTransform {
  t_xx : Z; t_xy : Z; t_yx : Z; t_yy : Z; t_dx : Z; t_dy : Z }.

Record Anchor : Type := mkAnchor {
  anchor_name : string; anchor_x : Z; anchor_y : Z }.

Record Point : Type := mkPoint {
  pt_x : Z; pt_y : Z; pt_segmentType : option string }.

Record Component : Type := mkComponent {
  baseGlyph : string;
  transformation : Transform;
  identifier : option string }.

(** The entries of [glyph.lib] the instruction compiler reads, each with
    the shape the UFO format gives it:
    [lib.get(TRUETYPE_INSTRUCTIONS_KEY)], [lib[OBJECT_LIBS_KEY]] (a
    dictionary from component identifier to that component's lib) and
    [lib[TRUETYPE_OVERLAP_KEY]]; [None] is an absent key. *)
Record GlyphLib : Type := mkGlyphLib {
  glyph_instructions : option dict;
  glyph_objectLibs : option (gmap string dict);
  glyph_overlap : option value }.

Record Glyph : Type := mkGlyph {
  glyph_name : string;
  glyph_width : Z;
  glyph_contours : list (list Point);
  glyph_anchors : list Anchor;
  glyph_components : list Component;
  glyph_lib : GlyphLib }.

(** [ufo.lib.get(TRUETYPE_INSTRUCTIONS_KEY)] and the glyphs by name. *)
Record UFO : Type := mkUFO {
  ufo_instructions : option dict;
  ufo_glyphs : gmap string Glyph }.

(** ** External collaborators

    What the compiler uses and this repository does not define:
    fontTools' [ttProgram.Program] and [HashPointPen], Python's [int] on a
    string, and the two per-component key names of [ufo2ft.constants].
    The two calls that are handed data of the UFO can raise:
    [fromAssembly] on a value that is no assembly (a [TypeError]), and
    drawing the glyph into the hash pen on a component whose base glyph is
    missing (a [MissingComponentError], which is a [KeyError]). *)
Class Externals : Type := {
  Program : Type;
  (** [ttProgram.Program()] *)
  new_Program : Program;
  (** [program.fromAssembly(asm)]: the program afterwards, or the
      exception raised *)
  fromAssembly : Program → value → outcome Program;
  (** [program.getBytecode()] *)
  getBytecode : Program → list Byte.byte;
  (** [bool(program)] *)
  Program_bool : Program → bool;
  (** [HashPointPen(glyph.width, ufo)], [glyph.drawPoints(pen)], [pen.hash]:
      the hash, or the exception [drawPoints] raises *)
  HashPointPen_hash : UFO → Glyph → outcome string;
  (** [int(s)] for a string [s]; [None] stands for [ValueError] *)
  int_of_str : string → option Z;
  TRUETYPE_ROUND_KEY : string;
  TRUETYPE_METRICS_KEY : string }.

(** Component flags of the [glyf] table
    ([fontTools.ttLib.tables._g_l_y_f]). *)
Definition ROUND_XY_TO_GRID : Z := 0x0004.
Definition USE_MY_METRICS : Z := 0x0200.
Definition OVERLAP_COMPOUND : Z := 0x0400.

(** [flags & F] is non-zero. *)
Definition has_flag (flags F : Z) : bool := negb (Z.land flags F =? 0)%Z.

(** [sorted(font.keys())]: strings ordered by code point. *)
Definition str_le (a b : string) : Prop := String.leb a b = true.

#[global] Instance str_le_dec : RelDecision str_le.
Proof. intros a b. unfold str_le. apply _. Defined.

Definition sorted_keys {A : Type} (m : gmap string A) : list string :=
  merge_sort str_le (elements (dom m)).

(** ** Compiled font (TTFont) data model *)

Record TTComponent : Type := mkTTComponent {
  tt_glyphName : string;
  flags : Z }.

Inductive Level : Type := DEBUG | INFO | WARNING | ERROR.

Inductive table_tag : Type := tag_fpgm | tag_prep.

Section InstructionCompiler.
Context `{ext : Externals}.

(** [int(v)] where [v] is the result of [ttdata.get(key, None)]. *)
Definition py_int (v : option value) : outcome Z :=
  match v with
  | None => Raise TypeError
  | Some (VBool b) => Ok (if b then 1 else 0)%Z
  | Some (VInt z) => Ok z
  | Some (VStr s) =>
      match int_of_str s with
      | Some z => Ok z
      | None => Raise ValueError
      end
  | Some (VList _) => Raise TypeError
  | Some (VDict _) => Raise TypeError
  end.

(** A compiled glyph: the optional [program] attribute and, for a
    composite glyph, its components ([None]: [isComposite()] is false). *)
Record TTGlyph : Type := mkTTGlyph {
  program : option Program;
  tt_components : option (list TTComponent) }.

Definition isComposite (g : TTGlyph) : bool :=
  match tt_components g with Some _ => true | None => false end.

(** The tables the compiler touches: [fpgm] and [prep] hold a program
    when present, [glyf] maps glyph names to compiled glyphs, [maxp] is
    an object whose attributes are set by name. *)
Record TTFont : Type := mkTTFont {
  fpgm : option Program;
  prep : option Program;
  glyf : gmap string TTGlyph;
  maxp : gmap string value }.

(** The state the compiler mutates: the font and the records sent to the
    module's logger. *)
Record State : Type := mkState {
  font : TTFont;
  log : list (Level * string) }.

(** *** State and exception monad *)

Definition M (A : Type) : Type := State → outcome A * State.

Definition ret {A : Type} (a : A) : M A := λ s, (Ok a, s).

Definition bind {A B : Type} (c : M A) (k : A → M B) : M B :=
  λ s, match c s with
       | (Ok a, s') => k a s'
       | (Raise e, s') => (Raise e, s')
       end.

Definition raise {A : Type} (e : exn) : M A := λ s, (Raise e, s).

Definition lift {A : Type} (o : outcome A) : M A := λ s, (o, s).

Definition logger (lvl : Level) (msg : string) : M unit :=
  λ s, (Ok tt, mkState (font s) (log s ++ [(lvl, msg)])).

Definition get_font : M TTFont := λ s, (Ok (font s), s).

Definition put_font (f : TTFont) : M unit := λ s, (Ok tt, mkState f (log s)).

End InstructionCompiler.

Notation "x <~ c ;; k" := (bind c (λ x, k))
  (at level 100, c at next level, right associativity).
Notation "c ;;; k" := (bind c (λ _, k))
  (at level 100, right associativity).

Section InstructionCompilerCode.
Context `{ext : Externals}.

(** [self.font[table_tag] = table] with [table.program = p]. *)
Definition set_table (tag : table_tag) (p : Program) : M unit :=
  f <~ get_font ;;
  match tag with
  | tag_fpgm => put_font (mkTTFont (Some p) (prep f) (glyf f) (maxp f))
  | tag_prep => put_font (mkTTFont (fpgm f) (Some p) (glyf f) (maxp f))
  end.

(** In-place updates of the compiled glyph named [name]. *)
Definition update_ttglyph (name : string) (upd : TTGlyph → TTGlyph) : M unit :=
  f <~ get_font ;;
  put_font (mkTTFont (fpgm f) (prep f) (alter upd name (glyf f)) (maxp f)).

Definition set_program (p : option Program) (g : TTGlyph) : TTGlyph :=
  mkTTGlyph p (tt_components g).

Definition set_components (cs : list TTComponent) (g : TTGlyph) : TTGlyph :=
  mkTTGlyph (program g) (Some cs).

(** [self.font["glyf"][name]] *)
Definition get_ttglyph (name : string) : M TTGlyph :=
  f <~ get_font ;;
  match glyf f !! name with
  | Some g => ret g
  | None => raise KeyError
  end.

(** *** Log messages (the f-strings of the module) *)
Definition msg_hash_missing (glyph : string) : string :=
  "Glyph hash missing, glyph '" ++ glyph ++ "' will have no instructions in font.".

Definition msg_hash_mismatch (glyph : string) : string :=
  "Glyph hash mismatch, glyph '" ++ glyph ++ "' will have no instructions in font.".

Definition msg_assembly_missing (glyph : string) : string :=
  "Glyph assembly missing, glyph '" ++ glyph
  ++ "' will have no instructions in font.".

Definition msg_not_in_font (name : string) : string :=
  "Glyph '" ++ name ++ "' not found in font, "
  ++ "skipping compilation of TrueType instructions for this glyph.".

Definition msg_components_differ (glyph : string) (n_ufo n_ttf : nat) : string :=
  "Number of components differ between UFO and TTF in glyph '" ++ glyph
  ++ "' (" ++ pretty n_ufo ++ " vs. " ++ pretty n_ttf
  ++ ", not setting component flags fromUFO. "
  ++ "They may still be set heuristically.".

Definition msg_metrics_ignored (ignored retained glyph : string) : string :=
  "Ignoring USE_MY_METRICS flag on component '" ++ ignored
  ++ "' because it has been set on component '" ++ retained
  ++ "' already in glyph " ++ glyph ++ ".".

(** *** [_check_glyph_hash] *)
Definition _check_glyph_hash (ufo : UFO) (glyph : Glyph) (ttdata : dict) : M bool :=
  hash <~ lift (HashPointPen_hash ufo glyph) ;;
  match ttdata !! "id" with
  | None =>
      logger ERROR (msg_hash_missing (glyph_name glyph)) ;;;
      ret false
  | Some glyph_id =>
      if negb (value_eq_str glyph_id hash) then
        logger ERROR (msg_hash_mismatch (glyph_name glyph)) ;;;
        ret false
      else ret true
  end.

(** *** [_check_tt_data_format] *)
Definition _check_tt_data_format (ttdata : dict) : M unit :=
  formatVersion <~ lift (py_int (ttdata !! "formatVersion")) ;;
  if negb (formatVersion =? 1)%Z then raise NotImplementedError else ret tt.

(** *** [_compile_program] *)
Definition _compile_program (ufo : UFO) (key : string) (tag : table_tag) : M unit :=
  match ufo_instructions ufo with
  | Some ttdata =>
      if dict_bool ttdata then
        formatVersion <~ lift (py_int (ttdata !! "formatVersion")) ;;
        if negb (formatVersion =? 1)%Z then raise NotImplementedError
        else
          match ttdata !! key with
          | Some asm =>
              set_table tag new_Program ;;;
              p <~ lift (fromAssembly new_Program asm) ;;
              set_table tag p
          | None => ret tt
          end
      else ret tt
  | None => ret tt
  end.

(** *** [_compile_tt_glyph_program]

    [name] addresses the compiled glyph object [ttglyph] inside
    [font["glyf"]]. *)
Definition _compile_tt_glyph_program
    (ufo : UFO) (glyph : Glyph) (name : string) (ttdata : dict) : M unit :=
  _check_tt_data_format ttdata ;;;
  ok <~ _check_glyph_hash ufo glyph ttdata ;;
  if negb ok then ret tt
  else
    match ttdata !! "assembly" with
    | None =>
        logger ERROR (msg_assembly_missing (glyph_name glyph))
    | Some asm =>
        update_ttglyph name (set_program (Some new_Program)) ;;;
        p <~ lift (fromAssembly new_Program asm) ;;
        update_ttglyph name (set_program (Some p))
    end.

(** *** [_set_composite_flags] *)

(** The condition of the [if] in the loop: the component lib when the
    component has an identifier, the glyph has object libs, the identifier
    is among them and that lib has the rounding or the metrics key. *)
Definition component_lib_of (glyph : Glyph) (ufo_component_id : option string)
    : option dict :=
  match ufo_component_id with
  | None => None
  | Some id =>
      match glyph_objectLibs (glyph_lib glyph) with
      | None => None
      | Some object_libs =>
          match object_libs !! id with
          | None => None
          | Some component_lib =>
              if bool_decide (is_Some (component_lib !! TRUETYPE_ROUND_KEY))
                 || bool_decide (is_Some (component_lib !! TRUETYPE_METRICS_KEY))
              then Some component_lib
              else None
          end
      end
  end.

(** Truth value of [if use_my_metrics_comp:]. *)
Definition str_opt_bool (s : option string) : bool :=
  match s with
  | None => false
  | Some s => negb (String.eqb s EmptyString)
  end.

(** [component_lib.get(key, default)] as a truth value. *)
Definition lib_flag (component_lib : dict) (key : string) (default : bool) : bool :=
  match component_lib !! key with
  | Some v => py_bool v
  | None => default
  end.

Definition set_flag (f F : Z) : Z := Z.lor f F.
Definition clear_flag (f F : Z) : Z := Z.land f (Z.lnot F).

(** One iteration of the loop over [enumerate(ttglyph.components)]: the
    new flags of component [c] and the new [use_my_metrics_comp]. *)
Definition component_step (glyph : Glyph) (i : nat)
    (ufo_component_id : option string) (use_my_metrics_comp : option string)
    (c : TTComponent) : M (TTComponent * option string) :=
  r <~
    match component_lib_of glyph ufo_component_id with
    | Some component_lib =>
        let f :=
          if lib_flag component_lib TRUETYPE_ROUND_KEY true
          then set_flag (flags c) ROUND_XY_TO_GRID
          else clear_flag (flags c) ROUND_XY_TO_GRID in
        if lib_flag component_lib TRUETYPE_METRICS_KEY false then
          let f := clear_flag f USE_MY_METRICS in
          if str_opt_bool use_my_metrics_comp then
            logger WARNING
              (msg_metrics_ignored (default EmptyString ufo_component_id)
                 (default EmptyString use_my_metrics_comp) (glyph_name glyph)) ;;;
            ret (f, use_my_metrics_comp)
          else ret (set_flag f USE_MY_METRICS, ufo_component_id)
        else ret (f, use_my_metrics_comp)
    | None => ret (flags c, use_my_metrics_comp)
    end ;;
  let f :=
    match i, glyph_overlap (glyph_lib glyph) with
    | 0, Some v =>
        if py_bool v then set_flag (fst r) OVERLAP_COMPOUND
        else clear_flag (fst r) OVERLAP_COMPOUND
    | _, _ => fst r
    end in
  ret (mkTTComponent (tt_glyphName c) f, snd r).

(** [for i, c in enumerate(ttglyph.components)], from index [i] on. *)
Fixpoint flags_loop (glyph : Glyph) (i : nat) (cs : list TTComponent)
    (use_my_metrics_comp : option string) : M (list TTComponent) :=
  match cs with
  | [] => ret []
  | c :: cs' =>
      match glyph_components glyph !! i with
      | None => raise IndexError
      | Some ufo_component =>
          r <~ component_step glyph i (identifier ufo_component)
                              use_my_metrics_comp c ;;
          rest <~ flags_loop glyph (S i) cs' (snd r) ;;
          ret (fst r :: rest)
      end
  end.

Definition _set_composite_flags (glyph : Glyph) (name : string) : M unit :=
  ttglyph <~ get_ttglyph name ;;
  match program ttglyph with
  | Some p =>
      if negb (Program_bool p) then update_ttglyph name (set_program None)
      else ret tt
  | None => ret tt
  end ;;;
  match tt_components ttglyph with
  | None => raise AttributeError
  | Some cs =>
      if negb (Nat.eqb (List.length cs) (List.length (glyph_components glyph))) then
        logger ERROR
          (msg_components_differ (glyph_name glyph)
             (List.length (glyph_components glyph)) (List.length cs))
      else
        cs' <~ flags_loop glyph 0 cs None ;;
        update_ttglyph name (set_components cs')
  end.

(** *** [_compile_tt_glyph] *)
Definition _compile_tt_glyph (ufo : UFO) (name : string) : M unit :=
  match ufo_glyphs ufo !! name with
  | None => raise KeyError
  | Some glyph =>
      let ttdata := glyph_instructions (glyph_lib glyph) in
      f <~ get_font ;;
      match glyf f !! name with
      | None =>
          match ttdata with
          | Some _ =>
              logger DEBUG (msg_not_in_font name)
          | None => ret tt
          end
      | Some ttglyph =>
          match ttdata with
          | Some ttdata => _compile_tt_glyph_program ufo glyph name ttdata
          | None => ret tt
          end ;;;
          if isComposite ttglyph then _set_composite_flags glyph name
          else ret tt
      end
  end.

Fixpoint for_each {A : Type} (body : A → M unit) (l : list A) : M unit :=
  match l with
  | [] => ret tt
  | x :: l' => body x ;;; for_each body l'
  end.

(** *** [compile_fpgm], [compile_glyf], [compile_maxp], [compile_prep] *)
Definition compile_fpgm (ufo : UFO) : M unit :=
  _compile_program ufo "fontProgram" tag_fpgm.

Definition compile_glyf (ufo : UFO) : M unit :=
  for_each (_compile_tt_glyph ufo) (sorted_keys (ufo_glyphs ufo)).

Definition maxp_names : list string :=
  ["maxStorage"; "maxFunctionDefs"; "maxInstructionDefs";
   "maxStackElements"; "maxZones"; "maxTwilightPoints"].

(** [value = ttdata.get(name, None)], [setattr(maxp, name, value)] when
    it is not [None]. *)
Definition copy_limit (ttdata : dict) (maxp : gmap string value) (name : string)
    : gmap string value :=
  match ttdata !! name with
  | Some v => <[name := v]> maxp
  | None => maxp
  end.

(** The list [sizes] of [compile_maxp]. *)
Definition program_sizes (glyphs : gmap string TTGlyph) : list nat :=
  omap (λ entry, (λ p, List.length (getBytecode p)) <$> program (snd entry))
       (map_to_list glyphs).

Definition compile_maxp (ufo : UFO) : M unit :=
  f <~ get_font ;;
  let maxp1 :=
    match ufo_instructions ufo with
    | Some ttdata =>
        if dict_bool ttdata then foldl (copy_limit ttdata) (maxp f) maxp_names
        else maxp f
    | None => maxp f
    end in
  let sizes := program_sizes (glyf f) in
  put_font (mkTTFont (fpgm f) (prep f) (glyf f)
              (<["maxSizeOfInstructions" := VInt (Z.of_nat (max_list sizes))]> maxp1)).

Definition compile_prep (ufo : UFO) : M unit :=
  _compile_program ufo "controlValueProgram" tag_prep.

Definition compile (ufo : UFO) : M unit :=
  compile_fpgm ufo ;;;
  compile_prep ufo ;;;
  compile_glyf ufo ;;;
  compile_maxp ufo.

(** *** Notions used to state the properties *)

(** The component asks for USE_MY_METRICS: the test
    [component_lib.get(TRUETYPE_METRICS_KEY, False)] of the loop is
    reached and true. *)
Definition requests_metrics (glyph : Glyph) (c : Component) : bool :=
  match component_lib_of glyph (identifier c) with
  | Some component_lib => lib_flag component_lib TRUETYPE_METRICS_KEY false
  | None => false
  end.

(** The [program] attribute of a composite glyph after the first
    statement of [_set_composite_flags]: an empty program is deleted. *)
Definition without_empty_program (g : TTGlyph) : TTGlyph :=
  match program g with
  | Some p => if negb (Program_bool p) then set_program None g else g
  | None => g
  end.

(** The test of [_check_glyph_hash]: the hash of the glyph's current
    outline and width has been computed, the stored [id] is present and
    equals it. *)
Definition hash_matches (ufo : UFO) (glyph : Glyph) (ttdata : dict) : bool :=
  match HashPointPen_hash ufo glyph, ttdata !! "id" with
  | Ok hash, Some glyph_id => value_eq_str glyph_id hash
  | _, _ => false
  end.

(** The error [_check_glyph_hash] logs when the test fails. *)
Definition hash_error (glyph : Glyph) (ttdata : dict) : Level * string :=
  match ttdata !! "id" with
  | None => (ERROR, msg_hash_missing (glyph_name glyph))
  | Some _ => (ERROR, msg_hash_mismatch (glyph_name glyph))
  end.

(** What processing the glyph [name] may change: nothing of another
    glyph, not the presence of [name] in [glyf] nor whether it is a
    composite, no other table; the log only grows. *)
Definition glyph_step (name : string) (st st' : State) : Prop :=
  (∀ n, n ≠ name → glyf (font st') !! n = glyf (font st) !! n)
  ∧ (glyf (font st) !! name = None → glyf (font st') !! name = None)
  ∧ (∀ tg, glyf (font st) !! name = Some tg →
       ∃ tg', glyf (font st') !! name = Some tg'
              ∧ isComposite tg' = isComposite tg)
  ∧ (∃ lg, log st' = log st ++ lg)
  ∧ fpgm (font st') = fpgm (font st)
  ∧ prep (font st') = prep (font st)
  ∧ maxp (font st') = maxp (font st).

(** The state after [ttglyph.program = p] on the glyph [name]. *)
Definition with_program (name : string) (p : Program) (st : State) : State :=
  mkState (mkTTFont (fpgm (font st)) (prep (font st))
             (alter (set_program (Some p)) name (glyf (font st)))
             (maxp (font st)))
          (log st).

(** The state after [self.font[table_tag] = table] with
    [table.program = p]. *)
Definition with_table (tag : table_tag) (p : Program) (st : State) : State :=
  mkState
    match tag with
    | tag_fpgm =>
        mkTTFont (Some p) (prep (font st)) (glyf (font st)) (maxp (font st))
    | tag_prep =>
        mkTTFont (fpgm (font st)) (Some p) (glyf (font st)) (maxp (font st))
    end
    (log st).

(** The state after that first statement, run on the glyph [name]. *)
Definition after_program_cleanup (name : string) (st : State) : State :=
  match glyf (font st) !! name with
  | Some g =>
      match program g with
      | Some p =>
          if negb (Program_bool p) then
            mkState (mkTTFont (fpgm (font st)) (prep (font st))
                       (alter (set_program None) name (glyf (font st)))
                       (maxp (font st)))
                    (log st)
          else st
      | None => st
      end
  | None => st
  end.

End InstructionCompilerCode.

(** *** Further notions *)

Section InstructionCompilerNotions.
Context `{ext : Externals}.

(** The component asks for USE_MY_METRICS and its identifier is a
    non-empty string: the values of [use_my_metrics_comp] that pass the
    test [if use_my_metrics_comp:]. *)
Definition named_requester (glyph : Glyph) (c : Component) : bool :=
  requests_metrics glyph c && str_opt_bool (identifier c).

(** The identifier of the first named requester among [cs]. *)
Fixpoint first_named_requester (glyph : Glyph) (cs : list Component)
    : option string :=
  match cs with
  | [] => None
  | c :: cs' =>
      if named_requester glyph c then identifier c
      else first_named_requester glyph cs'
  end.

(** The same among the components before position [j]. *)
Definition retained_before (glyph : Glyph) (j : nat) : option string :=
  first_named_requester glyph (take j (glyph_components glyph)).

(** The glyph [name] of the UFO carries instruction metadata. *)
Definition has_instructions (ufo : UFO) (name : string) : bool :=
  match ufo_glyphs ufo !! name with
  | Some glyph =>
      match glyph_instructions (glyph_lib glyph) with
      | Some _ => true
      | None => false
      end
  | None => false
  end.

(** The metadata block [d] fails the format check with [e]. *)
Definition format_fails (d : dict) (e : exn) : Prop :=
  py_int (d !! "formatVersion") = Raise e
  ∨ (e = NotImplementedError
     ∧ ∃ z, py_int (d !! "formatVersion") = Ok z ∧ z ≠ 1%Z).

(** The program attribute of every compiled glyph is within [m] bytes. *)
Definition programs_within (glyphs : gmap string TTGlyph) (m : nat) : Prop :=
  ∀ name g p, glyphs !! name = Some g → program g = Some p →
              List.length (getBytecode p) ≤ m.

(** The variable [use_my_metrics_comp] at position [i]: when it passes
    the test [if use_my_metrics_comp:] it is the identifier of the first
    named requester before [i], and there is none when it does not. *)
Definition metrics_invariant (glyph : Glyph) (i : nat) (umm : option string)
    : Prop :=
  if str_opt_bool umm then retained_before glyph i = umm
  else retained_before glyph i = None.

(** [ufo.lib.get(TRUETYPE_INSTRUCTIONS_KEY)] when it passes the test
    [if ttdata:] of [_compile_program] and [compile_maxp]. *)
Definition font_ttdata (ufo : UFO) : option dict :=
  match ufo_instructions ufo with
  | Some ttdata => if dict_bool ttdata then Some ttdata else None
  | None => None
  end.

(** [ttdata.get(key, None)] on it. *)
Definition font_entry (ufo : UFO) (key : string) : option value :=
  match font_ttdata ufo with
  | Some ttdata => ttdata !! key
  | None => None
  end.

(** The debug record for a glyph that is not in the [glyf] table. *)
Definition not_in_font_record (name : string) : Level * string :=
  (DEBUG, msg_not_in_font name).

(** The three ways in which the step of the glyph [name], with the
    metadata [d], raises [e] from the state [s], and the state [s'] at the
    raise: the format check and the computation of the hash leave the
    state as it is; an assembly that is refused, the hash matching, leaves
    the fresh program on the glyph. *)
Definition glyph_raises (ufo : UFO) (glyph : Glyph) (name : string) (d : dict)
    (e : exn) (s s' : State) : Prop :=
  (format_fails d e ∧ s' = s)
  ∨ (py_int (d !! "formatVersion") = Ok 1%Z
     ∧ HashPointPen_hash ufo glyph = Raise e
     ∧ s' = s)
  ∨ (py_int (d !! "formatVersion") = Ok 1%Z
     ∧ hash_matches ufo glyph d = true
     ∧ ∃ asm, d !! "assembly" = Some asm
              ∧ fromAssembly new_Program asm = Raise e
              ∧ s' = with_program name new_Program s).

(** Nothing makes it raise: the format version is 1, the hash can be
    computed and, when it matches, the assembly is accepted. *)
Definition glyph_compiles (ufo : UFO) (glyph : Glyph) (d : dict) : Prop :=
  py_int (d !! "formatVersion") = Ok 1%Z
  ∧ (∃ hash, HashPointPen_hash ufo glyph = Ok hash)
  ∧ (hash_matches ufo glyph d = true →
     ∀ asm, d !! "assembly" = Some asm →
            ∃ p, fromAssembly new_Program asm = Ok p).

(** The same of every glyph of the UFO that carries metadata and is in
    the [glyf] table. *)
Definition glyphs_compile (ufo : UFO) (st : State) : Prop :=
  ∀ m g dm, ufo_glyphs ufo !! m = Some g →
    glyph_instructions (glyph_lib g) = Some dm →
    is_Some (glyf (font st) !! m) →
    glyph_compiles ufo g dm.

(** The stored value, if there is one, is accepted as an assembly. *)
Definition assembles (entry : option value) : Prop :=
  ∀ asm, entry = Some asm → ∃ p, fromAssembly new_Program asm = Ok p.

End InstructionCompilerNotions.


(** * Anchor propagation

    Of the anchor propagation filter only the test
    ([tests/filters/propagateAnchors_test.py]) is at hand, not the module
    [ufo2ft/filters/propagateAnchors.py] itself.  The definitions of this
    part follow section 4.1 of the specification, and where the
    specification leaves a choice, the expected values of the test. *)

(** Modelled from the spec: [filters/propagateAnchors.py] is missing; this
    is "apply the component's affine transform to each inherited
    anchor's coordinates", for the 2x3 matrix [(xx, xy, yx, yy, dx, dy)]
    of the test's components.  Coordinates are integers, as in the test. *)
Definition transform_anchor (t : Transform) (a : Anchor) : Anchor :=
  mkAnchor (anchor_name a)
    (t_xx t * anchor_x a + t_yx t * anchor_y a + t_dx t)
    (t_xy t * anchor_x a + t_yy t * anchor_y a + t_dy t).

(** Modelled from the spec: the translation "by the same offset" of the
    mark-anchor rule of the missing filter. *)
Definition translate_anchor (dx dy : Z) (a : Anchor) : Anchor :=
  mkAnchor (anchor_name a) (anchor_x a + dx) (anchor_y a + dy).

(** Modelled from the spec: "anchor names beginning with [_] are treated
    as attachment points"; [attachment_target "_top" = Some "top"]. *)
Definition attachment_target (n : string) : option string :=
  match n with
  | String c rest => if Ascii.eqb c "_"%char then Some rest else None
  | EmptyString => None
  end.

(** Modelled from the spec: the name test of the missing filter, "names
    beginning with [_]". *)
Definition is_attachment (n : string) : bool :=
  match attachment_target n with Some _ => true | None => false end.

(** Modelled from the spec: "name is already present" and the lookup of
    an anchor by name in the missing filter. *)
Definition has_anchor (n : string) (l : list Anchor) : bool :=
  bool_decide (n ∈ map anchor_name l).

(** Modelled from the spec: the first anchor of the given name, for the
    missing filter's alignment. *)
Definition find_anchor (n : string) (l : list Anchor) : option Anchor :=
  List.find (λ a, String.eqb (anchor_name a) n) l.

(** Modelled from the spec: the mark-anchor matching rule of the missing
    filter.  The first attachment anchor [_n] of the incoming list (in
    declaration order, first match wins) such that the component also
    carries [n] and the parent already has [n] from an earlier component
    ([added] holds the anchors propagated so far, never the glyph's own)
    gives the offset that lines [_n] up with the parent's [n]. *)
Fixpoint find_alignment (added inh cands : list Anchor) : option (string * Z * Z) :=
  match cands with
  | [] => None
  | m :: rest =>
      match attachment_target (anchor_name m) with
      | Some n =>
          if has_anchor n inh then
            match find_anchor n added with
            | Some p => Some (n, anchor_x p - anchor_x m, anchor_y p - anchor_y m)%Z
            | None => find_alignment added inh rest
            end
          else find_alignment added inh rest
      | None => find_alignment added inh rest
      end
  end.

(** Modelled from the spec: the anchors named like [a] give way to [a],
    in place.  This is the stacking step of [merge_component]; it follows
    the values the test expects, not the words of the merge rule. *)
Definition replace_anchor (a : Anchor) (l : list Anchor) : list Anchor :=
  map (λ b, if String.eqb (anchor_name b) (anchor_name a) then a else b) l.

(** Modelled from the spec: "add each of its transformed inherited anchors
    whose name is not already present in the accumulated set from an
    earlier-processed component or from the glyph's own anchors".
    Attachment anchors are used for the alignment only and are not exposed
    on the composite: the anchor lists the test expects hold none. *)
Definition add_new (own added : list Anchor) (a : Anchor) : list Anchor :=
  if is_attachment (anchor_name a)
     || has_anchor (anchor_name a) own
     || has_anchor (anchor_name a) added
  then added
  else added ++ [a].

(** Modelled from the spec: merging one component of the missing filter.
    When the alignment applies, the whole incoming list is translated by
    its offset.  The merge rule of the specification then adds only the
    names that are not present yet, which leaves the parent's [n] where
    it was; the values that [propagateAnchors_test.py] expects ([amacron]
    has its [top] at (175,480), not at (175,300)) need the component's
    translated [n] to take the place of the parent's [n], and that is
    what is done here, beyond the words of the rule.  Then the new names
    are added.  The glyph's own anchors are never overwritten. *)
Definition merge_component (own added inh : list Anchor) : list Anchor :=
  match find_alignment added inh inh with
  | Some (n, dx, dy) =>
      let inh' := map (translate_anchor dx dy) inh in
      let added' :=
        match find_anchor n inh' with
        | Some a => replace_anchor a added
        | None => added
        end in
      fold_left (add_new own) inh' added'
  | None => fold_left (add_new own) inh added
  end.

(** Modelled from the spec: the "name-ordered" of the missing filter's
    contract. *)
Definition anchor_le (a b : Anchor) : Prop :=
  str_le (anchor_name a) (anchor_name b).

#[global] Instance anchor_le_dec : RelDecision anchor_le.
Proof. intros a b. unfold anchor_le. apply _. Defined.

#[global] Instance Anchor_eq_dec : EqDecision Anchor.
Proof. solve_decision. Defined.

(** Modelled from the spec: the state of one pass of the missing filter,
    "a per-pass result cache keyed by glyph name" and the warnings
    logged. *)
Record PassState : Type := mkPassState {
  memo : gmap string (list Anchor);
  warnings : list (Level * string) }.

(** Modelled from the spec: the warning of the missing filter's cycle
    guard; the specification does not give its text. *)
Definition msg_cycle (name : string) : string :=
  "Anchors not propagated through the cyclic reference to " ++ name.

(** Modelled from the spec: one component of a composite in the missing
    filter: "recursively resolve each component's base glyph's effective
    anchors first", "apply the component's affine transform to each
    inherited anchor's coordinates; then merge".  [resolve] is the
    recursive resolution. *)
Definition resolve_component
    (resolve : string → PassState → list Anchor * PassState)
    (own : list Anchor) (acc : list Anchor * PassState) (c : Component)
    : list Anchor * PassState :=
  let '(inh, ps1) := resolve (baseGlyph c) (snd acc) in
  (merge_component own (fst acc)
     (map (transform_anchor (transformation c)) inh),
   ps1).

(** Modelled from the spec: the recursive, memoized resolution of a
    glyph's effective anchors of the missing filter.  [visiting] is the
    chain of glyphs being resolved: a glyph met again on it contributes
    nothing and a warning is logged; an absent base glyph contributes
    nothing.  The result is the glyph's own anchors, in their order,
    followed by the propagated ones ordered by name: the contract says
    "name-ordered", the algorithm "in the order first contributed", and
    the test expects [bottom; top] from a base with [top; bottom].  A
    glyph without components keeps exactly its own anchors.  [fuel]
    bounds the depth of the recursion; the number of glyphs is enough
    ([effective_anchors_fuel]). *)
Fixpoint effective_anchors (fuel : nat) (gs : gmap string Glyph)
    (visiting : list string) (name : string) (ps : PassState)
    : list Anchor * PassState :=
  match memo ps !! name with
  | Some r => (r, ps)
  | None =>
      if bool_decide (name ∈ visiting) then
        ([], mkPassState (memo ps) (warnings ps ++ [(WARNING, msg_cycle name)]))
      else
        match gs !! name with
        | None => ([], ps)
        | Some g =>
            match fuel with
            | 0 => ([], ps)
            | S fuel' =>
                let acc :=
                  fold_left
                    (resolve_component
                       (effective_anchors fuel' gs (name :: visiting))
                       (glyph_anchors g))
                    (glyph_components g) ([], ps) in
                let r := glyph_anchors g ++ merge_sort anchor_le (fst acc) in
                (r, mkPassState (<[name := r]> (memo (snd acc)))
                                (warnings (snd acc)))
            end
        end
  end.

(** Modelled from the spec: "overwrite the glyph's anchor list" in the
    missing filter. *)
Definition set_anchors (l : list Anchor) (g : Glyph) : Glyph :=
  mkGlyph (glyph_name g) (glyph_width g) (glyph_contours g) l
          (glyph_components g) (glyph_lib g).

(** Modelled from the spec: "has at least one component", the test of the
    missing filter. *)
Definition has_components (g : Glyph) : bool :=
  match glyph_components g with [] => false | _ :: _ => true end.

(** Modelled from the spec: the state of the missing filter's loop over
    the glyphs: the glyph set, mutated in place, the pass state and the
    names modified so far. *)
Record LoopState : Type := mkLoopState {
  ls_glyphs : gmap string Glyph;
  ls_pass : PassState;
  ls_modified : gset string }.

(** Modelled from the spec: one glyph of the pass of the missing filter.
    A glyph that the filter excludes or that has no component is skipped;
    otherwise its anchors are computed and, "if it differs from what was
    already stored", written back and the name recorded as modified. *)
Definition propagate_glyph (include : string → bool) (ls : LoopState)
    (name : string) : LoopState :=
  match ls_glyphs ls !! name with
  | None => ls
  | Some g =>
      if include name && has_components g then
        let '(r, ps') :=
          effective_anchors (size (ls_glyphs ls)) (ls_glyphs ls) [] name
                            (ls_pass ls) in
        if decide (r = glyph_anchors g) then
          mkLoopState (ls_glyphs ls) ps' (ls_modified ls)
        else
          mkLoopState (<[name := set_anchors r g]> (ls_glyphs ls)) ps'
                      ({[name]} ∪ ls_modified ls)
      else ls
  end.

(** Modelled from the spec: what a run of the missing filter leaves: the
    glyph set, the returned set of modified names and the log. *)
Record Propagation : Type := mkPropagation {
  pr_glyphs : gmap string Glyph;
  pr_modified : gset string;
  pr_log : list (Level * string) }.

(** Modelled from the spec: the pass of the missing filter over a glyph
    set, "in a deterministic order (sorted by name)", with a fresh memo,
    returning the set of modified names and emitting the summary line the
    test looks for. *)
Definition propagate_anchors (include : string → bool) (gs : gmap string Glyph)
    : Propagation :=
  let ls :=
    fold_left (propagate_glyph include) (sorted_keys gs)
              (mkLoopState gs (mkPassState ∅ []) ∅) in
  mkPropagation (ls_glyphs ls) (ls_modified ls)
    (warnings (ls_pass ls)
     ++ [(INFO, String.append "Glyphs with propagated anchors: "
                  (pretty (size (ls_modified ls))))]).

(** *** The font of [tests/filters/propagateAnchors_test.py] *)

Definition identity : Transform := mkTransform 1 0 0 1 0 0.
Definition offset (dx dy : Z) : Transform := mkTransform 1 0 0 1 dx dy.
Definition no_lib : GlyphLib := mkGlyphLib None None None.

Definition box (x0 y0 x1 y1 : Z) : list Point :=
  [mkPoint x0 y0 (Some "line"); mkPoint x1 y0 (Some "line");
   mkPoint x1 y1 (Some "line"); mkPoint x0 y1 (Some "line")].

Definition test_font : gmap string Glyph :=
  list_to_map
    [("space", mkGlyph "space" 500 [] [] [] no_lib);
     ("a", mkGlyph "a" 350 [box 0 0 300 300]
             [mkAnchor "top" 175 300; mkAnchor "bottom" 175 0] [] no_lib);
     ("dieresiscomb",
        mkGlyph "dieresiscomb" 0
          [box (-120) 320 (-60) 360; box 120 320 60 360]
          [mkAnchor "_top" 0 300; mkAnchor "top" 0 480] [] no_lib);
     ("macroncomb",
        mkGlyph "macroncomb" 0 [box (-120) 330 120 350]
          [mkAnchor "_top" 0 300; mkAnchor "top" 0 480] [] no_lib);
     ("a-cyr",
        mkGlyph "a-cyr" 350 [] [] [mkComponent "a" identity None] no_lib);
     ("amacron",
        mkGlyph "amacron" 350 [] []
          [mkComponent "a" identity None;
           mkComponent "macroncomb" (offset 175 0) None] no_lib);
     ("adieresis",
        mkGlyph "adieresis" 350 [] []
          [mkComponent "a" identity None;
           mkComponent "dieresiscomb" (offset 175 0) None] no_lib);
     ("amacrondieresis",
        mkGlyph "amacrondieresis" 350 [] []
          [mkComponent "amacron" identity None;
           mkComponent "dieresiscomb" (offset 175 180) None] no_lib);
     ("adieresismacron",
        mkGlyph "adieresismacron" 350 [] []
          [mkComponent "a" identity None;
           mkComponent "dieresiscomb" (offset 175 0) None;
           mkComponent "macroncomb" (offset 175 180) None] no_lib)].

(** [PropagateAnchorsFilter(include={name})] and the filter without
    [include]. *)
Definition only (name : string) : string → bool := String.eqb name.
Definition everything : string → bool := λ _, true.

Definition anchors_of (name : string) (gs : gmap string Glyph) : list Anchor :=
  match gs !! name with Some g => glyph_anchors g | None => [] end.

(** *** Notions used to state the properties of a pass *)

Abbreviation names l := (map anchor_name l).

(** A resolution only adds entries to the memo, and none for a glyph
    that is being resolved. *)
Definition memo_grows (visiting : list string) (ps ps' : PassState) : Prop :=
  (∀ v, v ∈ visiting → memo ps !! v = None) →
  memo ps ⊆ memo ps' ∧ (∀ v, v ∈ visiting → memo ps' !! v = None).

(** [gsB] is [gsA] where some glyphs had their anchors replaced by the
    result [M] of a pass; components are the same. *)
Definition rewritten (M : gmap string (list Anchor))
    (gsA gsB : gmap string Glyph) : Prop :=
  ∀ n, match gsA !! n, gsB !! n with
       | Some gA, Some gB =>
           glyph_components gB = glyph_components gA
           ∧ (glyph_anchors gB = glyph_anchors gA
              ∨ M !! n = Some (glyph_anchors gB))
       | None, None => True
       | _, _ => False
       end.

(** The memos of the two passes, side by side: the same glyphs are
    resolved, the second pass finds no name the first did not find, and
    where the stored anchors are the first pass's result the second pass
    finds exactly the stored anchors. *)
Definition memo_sim (M : gmap string (list Anchor)) (gsB : gmap string Glyph)
    (m1 m2 : gmap string (list Anchor)) : Prop :=
  ∀ n, match m1 !! n, m2 !! n with
       | Some r1, Some r2 =>
           (∀ x, x ∈ names r2 → x ∈ names r1)
           ∧ (∀ gB, gsB !! n = Some gB → M !! n = Some (glyph_anchors gB) →
                    r2 = glyph_anchors gB)
       | None, None => True
       | _, _ => False
       end.

(** A glyph reported as modified has components and its stored anchors
    are not those it had. *)
Definition anchors_changed (gs gs' : gmap string Glyph) (n : string) : Prop :=
  ∃ g g', gs !! n = Some g ∧ gs' !! n = Some g'
          ∧ has_components g = true
          ∧ glyph_anchors g' ≠ glyph_anchors g.

(** * Python strings

    A Python [str] is represented by the string of the bytes of its UTF-8
    encoding.  Searching for and removing an ASCII character, and testing
    for an ASCII prefix or suffix, are then the same on the bytes as on the
    characters. *)

Definition chars (s : string) : list ascii := list_ascii_of_string s.
Definition str (l : list ascii) : string := string_of_list_ascii l.

(** [s.replace] of every space by the empty string. *)
Fixpoint remove_spaces (s : string) : string :=
  match s with
  | EmptyString => EmptyString
  | String a s' =>
      if Ascii.eqb a " " then remove_spaces s' else String a (remove_spaces s')
  end.

(** The number of bytes of the character that starts with the byte [a]. *)
Definition utf8_width (a : ascii) : nat :=
  let n := nat_of_ascii a in
  if n <? 0xC0 then 1 else if n <? 0xE0 then 2 else if n <? 0xF0 then 3 else 4.

(** [s[0]], [None] for the [IndexError] of the empty string. *)
Definition str_first (s : string) : option string :=
  match s with
  | EmptyString => None
  | String a _ => Some (str (take (utf8_width a) (chars s)))
  end.

(** [s[1:]] *)
Definition str_rest (s : string) : string :=
  match s with
  | EmptyString => EmptyString
  | String a _ => str (drop (utf8_width a) (chars s))
  end.

(** [s.startswith(p)] and [s.endswith(p)] *)
Definition startswith (s p : string) : bool :=
  bool_decide (chars p `prefix_of` chars s).

Definition endswith (s p : string) : bool :=
  bool_decide (chars p `suffix_of` chars s).

(** [s[a:-b]] for [b] positive: from position [a] up to [b] characters
    before the end, empty when there is nothing between. *)
Definition slice (s : string) (a b : nat) : string :=
  str (take (List.length (chars s) - b - a) (drop a (chars s))).

(** * Loading the filters of a font ([Lib/ufo2ft/filters/__init__.py]) *)

Module Filters.

(** The exceptions of the module: those [loadFilters] catches, those its
    own code raises, and whatever else an import or a constructor
    raises. *)
Inductive error : Type :=
  | ImportError
  | AttributeError
  | KeyError
  | IndexError
  | TypeError
  | OtherError (cls : string).

Inductive result (A : Type) : Type :=
  | Return (a : A)
  | Throw (e : error).
Arguments Return {A} a.
Arguments Throw {A} e.

(** What the module uses and does not define: [importlib.import_module]
    (a [ModuleNotFoundError] is an [ImportError]), [getattr] on a module
    ([None]: [AttributeError]), the call of the filter class with the
    values of [include], [exclude], [args] and [kwargs], the case
    mappings of one character, and [pprint.pformat]. *)
Class Importer : Type := {
  PyModule : Type;
  FilterClass : Type;
  Filter : Type;
  import_module : string → result PyModule;
  module_getattr : PyModule → string → option FilterClass;
  instantiate : FilterClass → option value → option value →
                option value → option value → result Filter;
  str_lower : string → string;
  str_upper : string → string;
  pformat : dict → string }.

Section Code.
Context `{imp : Importer}.

(** [getFilterClass(filterName, pkg)]; both arguments are values read
    from the lib, so either may be something else than a string:
    [filterName.replace] is then an [AttributeError], [".".join] a
    [TypeError]. *)
Definition getFilterClass (filterName pkg : value) : result FilterClass :=
  match filterName with
  | VStr filterName =>
      let filterName := remove_spaces filterName in
      match str_first filterName with
      | None => Throw IndexError
      | Some first =>
          let moduleName := (str_lower first ++ str_rest filterName)%string in
          match pkg with
          | VStr pkg =>
              match import_module (pkg ++ "." ++ moduleName)%string with
              | Throw e => Throw e
              | Return module =>
                  let className :=
                    (str_upper first ++ str_rest filterName ++ "Filter")%string in
                  match module_getattr module className with
                  | Some filterClass => Return filterClass
                  | None => Throw AttributeError
                  end
              end
          | _ => Throw TypeError
          end
      end
  | _ => Throw AttributeError
  end.

(** [except (ImportError, AttributeError)] *)
Definition caught (e : error) : bool :=
  match e with
  | ImportError | AttributeError => true
  | _ => false
  end.

Definition msg_failed (filterDict : dict) : string :=
  "Failed to load filter: " ++ pformat filterDict.

(** [filterDict.get("pre")] as a truth value. *)
Definition is_pre (filterDict : dict) : bool :=
  match filterDict !! "pre" with
  | Some v => py_bool v
  | None => false
  end.

(** The loop of [loadFilters] over the entries that remain, with the two
    lists and the log as they are so far; the log is also what has been
    logged when the loop raises. *)
Fixpoint load_loop (entries : list value) (preFilters postFilters : list Filter)
    (log : list (Level * string))
    : result (list Filter * list Filter) * list (Level * string) :=
  match entries with
  | [] => (Return (preFilters, postFilters), log)
  | VDict filterDict :: entries' =>
      let namespace :=
        default (VStr "ufo2ft.filters") (filterDict !! "namespace") in
      match filterDict !! "name" with
      | None => (Throw KeyError, log)
      | Some name =>
          match getFilterClass name namespace with
          | Throw e =>
              if caught e then
                load_loop entries' preFilters postFilters
                  (log ++ [(ERROR, msg_failed filterDict)])
              else (Throw e, log)
          | Return filterClass =>
              match instantiate filterClass
                      (filterDict !! "include") (filterDict !! "exclude")
                      (filterDict !! "args") (filterDict !! "kwargs") with
              | Throw e => (Throw e, log)
              | Return filterObj =>
                  if is_pre filterDict then
                    load_loop entries' (preFilters ++ [filterObj]) postFilters log
                  else
                    load_loop entries' preFilters (postFilters ++ [filterObj]) log
              end
          end
      end
  | _ :: _ => (Throw AttributeError, log)
  end.

(** [loadFilters(ufo)], on [ufo.lib.get(UFO2FT_FILTERS_KEY, [])]: the
    list stored under the key, the empty list when the key is absent. *)
Definition loadFilters (filters : option (list value))
    : result (list Filter * list Filter) * list (Level * string) :=
  load_loop (default [] filters) [] [] [].

End Code.

End Filters.

(** * Feature compilation helpers ([Lib/ufo2ft/__init__.py]) *)

Module Features.

(** What the two helpers use and do not define: the contents of the
    UFO's data store with their decoding ([tounicode], [None] for a
    [UnicodeDecodeError]), and the feature writers with the collection
    [writer.features]. *)
Class Environment : Type := {
  Data : Type;
  tounicode : Data → option string;
  Writer : Type;
  features : Writer → list string }.

Inductive error : Type := UnicodeDecodeError.

Inductive result (A : Type) : Type :=
  | Return (a : A)
  | Throw (e : error).
Arguments Return {A} a.
Arguments Throw {A} e.

Section Code.
Context `{env : Environment}.

Definition prefix : string := "com.github.googlei18n.ufo2ft.mtiFeatures/".

(** The test of the loop of [_getMtiFeatures]. *)
Definition is_mti (fileName : string) : bool :=
  startswith fileName prefix && endswith fileName ".mti".

(** The name of the data file that holds the features called [name]. *)
Definition mti_file (name : string) : string := prefix ++ name ++ ".mti".

(** One iteration of that loop. *)
Definition mti_step (features : gmap string string) (entry : string * Data)
    : result (gmap string string) :=
  let fileName := fst entry in
  if is_mti fileName then
    match tounicode (snd entry) with
    | Some content =>
        Return (<[slice fileName (String.length prefix) 4 := content]> features)
    | None => Throw UnicodeDecodeError
    end
  else Return features.

Fixpoint mti_loop (features : gmap string string) (entries : list (string * Data))
    : result (gmap string string) :=
  match entries with
  | [] => Return features
  | entry :: entries' =>
      match mti_step features entry with
      | Return features' => mti_loop features' entries'
      | Throw e => Throw e
      end
  end.

(** [_getMtiFeatures(ufo)], on the data store [ufo.data] as a map from
    file names to contents. *)
Definition _getMtiFeatures (data : gmap string Data)
    : result (option (gmap string string)) :=
  match mti_loop ∅ (map_to_list data) with
  | Return features =>
      Return (if 0 <? size features then Some features else None)
  | Throw e => Throw e
  end.

(** [for i, writer in enumerate(featureWriters)] from position [i] on,
    at most [n] more iterations: [featureWriters[i] = cls] when [tag] is
    in [writer.features].  The iterator reads the list as the assignments
    have left it. *)
Fixpoint replace_loop (tag : string) (cls : Writer) (n i : nat)
    (featureWriters : list Writer) : list Writer :=
  match n with
  | 0 => featureWriters
  | S n' =>
      match featureWriters !! i with
      | None => featureWriters
      | Some writer =>
          replace_loop tag cls n' (S i)
            (if bool_decide (tag ∈ features writer)
             then <[i := cls]> featureWriters
             else featureWriters)
      end
  end.

(** One of the two blocks of [_replaceDeprecatedFeatureWriters]: the
    list after it and the deprecation warning it issues. *)
Definition replace_block (arg tag : string) (cls : option Writer)
    (featureWriters : list Writer) : list Writer * list (string * string) :=
  match cls with
  | Some cls =>
      (replace_loop tag cls (List.length featureWriters) 0 featureWriters,
       [(arg, "featureWriters")])
  | None => (featureWriters, [])
  end.

(** [_replaceDeprecatedFeatureWriters]: the list [featureWriters] as the
    call leaves it, and the warnings issued ([_deprecateArgument]'s
    [arg] and [repl]). *)
Definition _replaceDeprecatedFeatureWriters (featureWriters : list Writer)
    (kernWriterClass markWriterClass : option Writer)
    : list Writer * list (string * string) :=
  let r1 := replace_block "kernWriterClass" "kern" kernWriterClass featureWriters in
  let r2 := replace_block "markWriterClass" "mark" markWriterClass (fst r1) in
  (fst r2, snd r1 ++ snd r2).

(** What one block makes of one writer. *)
Definition replaced (tag : string) (cls : option Writer) (writer : Writer)
    : Writer :=
  match cls with
  | Some cls => if bool_decide (tag ∈ features writer) then cls else writer
  | None => writer
  end.

End Code.

End Features.

(** * Concrete fonts *)

(** A small instance of the external collaborators: a program is its
    assembly text, its bytecode the bytes of that text; only a string is
    an assembly; the hash is that of the advance width, and cannot be
    computed when the base glyph of a component is missing. *)
Definition demo_ext : Externals := {|
  Program := string;
  new_Program := EmptyString;
  fromAssembly := λ _ asm,
    match asm with VStr s => Ok s | _ => Raise TypeError end;
  getBytecode := list_byte_of_string;
  Program_bool := λ p, negb (String.eqb p EmptyString);
  HashPointPen_hash := λ ufo g,
    if forallb (λ c, bool_decide (is_Some (ufo_glyphs ufo !! baseGlyph c)))
               (glyph_components g)
    then Ok (String.append "w" (pretty (glyph_width g)))
    else Raise KeyError;
  int_of_str := λ s, if String.eqb s "1" then Some 1%Z
                     else if String.eqb s "2" then Some 2%Z else None;
  TRUETYPE_ROUND_KEY := "public.truetype.roundOffsetToGrid";
  TRUETYPE_METRICS_KEY := "public.truetype.useMyMetrics" |}.

Section Demo.
#[local] Existing Instance demo_ext.

Definition simple_glyph (p : option Program) : TTGlyph := mkTTGlyph p None.

Definition composite_glyph (fs : list Z) : TTGlyph :=
  mkTTGlyph None (Some (map (mkTTComponent "base") fs)).

Definition font_of (glyphs : gmap string TTGlyph) : State :=
  mkState (mkTTFont None None glyphs ∅) [].

Definition plain_glyph (name : string) (lib : GlyphLib) : Glyph :=
  mkGlyph name 350 [] [] [] lib.

(** Glyph [a] with format version 2 and no [id]. *)
Definition v2_ttdata : dict := {[ "formatVersion" := VInt 2 ]}.
Definition v2_glyph : Glyph :=
  plain_glyph "a" (mkGlyphLib (Some v2_ttdata) None None).
Definition v2_ufo : UFO := mkUFO (Some v2_ttdata) {[ "a" := v2_glyph ]}.
Definition v2_state : State := font_of {[ "a" := simple_glyph None ]}.

(** Glyph [a] with format version 1 and a stale [id]; the compiled glyph
    is simple and carries the empty program the glyph pen gave it. *)
Definition stale_ttdata : dict :=
  {[ "formatVersion" := VInt 1; "id" := VStr "w200";
     "assembly" := VStr "PUSHB[ ] 0" ]}.
Definition stale_glyph : Glyph :=
  plain_glyph "a" (mkGlyphLib (Some stale_ttdata) None None).
Definition stale_ufo : UFO := mkUFO None {[ "a" := stale_glyph ]}.
Definition stale_state : State := font_of {[ "a" := simple_glyph (Some EmptyString) ]}.
Definition bare_state : State := font_of {[ "a" := simple_glyph None ]}.

(** Glyph [a] with an empty instructions block, and a font-level empty
    block. *)
Definition empty_glyph : Glyph := plain_glyph "a" (mkGlyphLib (Some ∅) None None).
Definition empty_ufo : UFO := mkUFO (Some ∅) {[ "a" := empty_glyph ]}.
Definition no_glyf_state : State := font_of ∅.

(** A composite of three components: the first has no identifier and
    already carries USE_MY_METRICS (set heuristically by the outline
    compiler), the second and the third ask for it in their libs. *)
Definition metrics_lib : dict := {[ "public.truetype.useMyMetrics" := VBool true ]}.
Definition metrics_glyph : Glyph :=
  mkGlyph "g" 350 [] []
    [mkComponent "x" identity None;
     mkComponent "y" identity (Some "b");
     mkComponent "z" identity (Some "c")]
    (mkGlyphLib None (Some {[ "b" := metrics_lib; "c" := metrics_lib ]})
       (Some (VBool true))).
Definition metrics_state : State :=
  font_of {[ "g" := composite_glyph [0x0200; 0; 0]%Z ]}.

(** The same with an empty string as the identifier of the first asking
    component. *)
Definition unnamed_glyph : Glyph :=
  mkGlyph "g" 350 [] []
    [mkComponent "y" identity (Some EmptyString);
     mkComponent "z" identity (Some "c")]
    (mkGlyphLib None (Some {[ EmptyString := metrics_lib; "c" := metrics_lib ]}) None).
Definition unnamed_state : State := font_of {[ "g" := composite_glyph [0; 0]%Z ]}.

(** Two compiled components for one source component. *)
Definition short_glyph : Glyph :=
  mkGlyph "g" 350 [] [] [mkComponent "x" identity None] no_lib.
Definition short_state : State := font_of {[ "g" := composite_glyph [0; 0]%Z ]}.

(** Font-level limits. *)
Definition limits_ttdata : dict :=
  {[ "formatVersion" := VInt 1; "maxStorage" := VInt 5 ]}.
Definition limits_ufo : UFO := mkUFO (Some limits_ttdata) ∅.
Definition limits_state : State :=
  mkState (mkTTFont None None ∅
             {[ "maxStorage" := VInt 0; "maxZones" := VInt 2;
                "numGlyphs" := VInt 3 ]}) [].

(** A font whose metadata is all in order: the hash of [a] matches. *)
Definition good_ttdata : dict :=
  {[ "formatVersion" := VInt 1; "id" := VStr "w350";
     "assembly" := VStr "SVTCA[0]" ]}.
Definition good_ufo : UFO :=
  mkUFO (Some {[ "formatVersion" := VInt 1; "fontProgram" := VStr "FDEF[ ]";
                 "controlValueProgram" := VStr "PUSHB[ ] 0";
                 "maxStorage" := VInt 5 ]})
        {[ "a" := plain_glyph "a" (mkGlyphLib (Some good_ttdata) None None) ]}.

Definition component_flags (st : State) (name : string) : list Z :=
  match glyf (font st) !! name with
  | Some g => match tt_components g with
              | Some cs => map flags cs
              | None => []
              end
  | None => []
  end.

Definition program_of (st : State) (name : string) : option Program :=
  match glyf (font st) !! name with
  | Some g => program g
  | None => None
  end.

End Demo.

(** ** Further fonts *)

Section ExtraDemo.
#[local] Existing Instance demo_ext.

(** Glyph [a] with a matching [id] and no [assembly]. *)
Definition noasm_ttdata : dict :=
  {[ "formatVersion" := VInt 1; "id" := VStr "w350" ]}.
Definition noasm_glyph : Glyph :=
  plain_glyph "a" (mkGlyphLib (Some noasm_ttdata) None None).
Definition noasm_ufo : UFO := mkUFO None {[ "a" := noasm_glyph ]}.

(** Glyph [a] without instruction metadata. *)
Definition plain_ufo : UFO := mkUFO None {[ "a" := plain_glyph "a" no_lib ]}.

(** Glyph [a] in order, glyph [b] with format version 2. *)
Definition good_glyph : Glyph :=
  plain_glyph "a" (mkGlyphLib (Some good_ttdata) None None).
Definition v2_glyph_b : Glyph :=
  plain_glyph "b" (mkGlyphLib (Some v2_ttdata) None None).
Definition mixed_ufo : UFO :=
  mkUFO None {[ "a" := good_glyph; "b" := v2_glyph_b ]}.
Definition mixed_state : State :=
  font_of {[ "a" := simple_glyph None; "b" := simple_glyph None ]}.

(** Glyph [a] with format version 1 and no [id], and a component whose
    base glyph is not in the UFO. *)
Definition dangling_ttdata : dict := {[ "formatVersion" := VInt 1 ]}.
Definition dangling_glyph : Glyph :=
  mkGlyph "a" 350 [] [] [mkComponent "missing" identity None]
    (mkGlyphLib (Some dangling_ttdata) None None).
Definition dangling_ufo : UFO := mkUFO None {[ "a" := dangling_glyph ]}.

(** Glyph [a] with an empty instructions block, glyph [b] with format
    version 2. *)
Definition early_ufo : UFO :=
  mkUFO None {[ "a" := empty_glyph; "b" := v2_glyph_b ]}.

(** Glyph [a] whose format version is a list. *)
Definition listed_ttdata : dict := {[ "formatVersion" := VList [VInt 2] ]}.
Definition listed_glyph : Glyph :=
  plain_glyph "a" (mkGlyphLib (Some listed_ttdata) None None).
Definition listed_ufo : UFO := mkUFO None {[ "a" := listed_glyph ]}.

(** Glyph [a] with a matching [id] and a number as its assembly, and the
    same number as the font program. *)
Definition number_ttdata : dict :=
  {[ "formatVersion" := VInt 1; "id" := VStr "w350"; "assembly" := VInt 7 ]}.
Definition number_glyph : Glyph :=
  plain_glyph "a" (mkGlyphLib (Some number_ttdata) None None).
Definition number_font_ttdata : dict :=
  {[ "formatVersion" := VInt 1; "fontProgram" := VInt 7 ]}.
Definition number_ufo : UFO :=
  mkUFO (Some number_font_ttdata) {[ "a" := number_glyph ]}.

(** Font-level metadata with the six limits. *)
Definition six_limits_ttdata : dict :=
  {[ "formatVersion" := VInt 1; "maxStorage" := VInt 5;
     "maxFunctionDefs" := VInt 6; "maxInstructionDefs" := VInt 7;
     "maxStackElements" := VInt 8; "maxZones" := VInt 1;
     "maxTwilightPoints" := VInt 9 ]}.
Definition six_limits_ufo : UFO := mkUFO (Some six_limits_ttdata) ∅.

(** The font-level metadata of [good_ufo]. *)
Definition good_font_ttdata : dict :=
  {[ "formatVersion" := VInt 1; "fontProgram" := VStr "FDEF[ ]";
     "controlValueProgram" := VStr "PUSHB[ ] 0";
     "maxStorage" := VInt 5 ]}.

End ExtraDemo.

(** ** Concrete filters and data *)

Definition ascii_lower (a : ascii) : ascii :=
  let n := nat_of_ascii a in
  if (65 <=? n) && (n <=? 90) then ascii_of_nat (n + 32) else a.

Definition ascii_upper (a : ascii) : ascii :=
  let n := nat_of_ascii a in
  if (97 <=? n) && (n <=? 122) then ascii_of_nat (n - 32) else a.

(** A small instance of the importer: two filter modules are known, each
    with its class; a filter object is its class name with the [include]
    value it was made with; the case mappings are those of ASCII. *)
Definition demo_importer : Filters.Importer := {|
  Filters.PyModule := string;
  Filters.FilterClass := string;
  Filters.Filter := string * option value;
  Filters.import_module := λ name,
    if bool_decide (name ∈ ["ufo2ft.filters.removeOverlaps";
                            "ufo2ft.filters.propagateAnchors"])
    then Filters.Return name else Filters.Throw Filters.ImportError;
  Filters.module_getattr := λ module className,
    if bool_decide ((module, className)
                    ∈ [("ufo2ft.filters.removeOverlaps", "RemoveOverlapsFilter");
                       ("ufo2ft.filters.propagateAnchors",
                        "PropagateAnchorsFilter")])
    then Some className else None;
  Filters.instantiate := λ filterClass include _ _ _,
    Filters.Return (filterClass, include);
  Filters.str_lower := λ s, str (map ascii_lower (chars s));
  Filters.str_upper := λ s, str (map ascii_upper (chars s));
  Filters.pformat := λ _, "{...}" |}.

Definition overlaps_entry : dict :=
  {[ "name" := VStr "Remove Overlaps"; "pre" := VBool true ]}.
Definition anchors_entry : dict := {[ "name" := VStr "propagateAnchors" ]}.
Definition unknown_entry : dict := {[ "name" := VStr "noSuchFilter" ]}.
Definition blank_entry : dict := {[ "name" := VStr "  " ]}.

(** A small instance of the data store and the writers: contents are
    strings, all of which decode except one; a writer is a name with its
    features. *)
Definition demo_env : Features.Environment := {|
  Features.Data := string;
  Features.tounicode := λ content,
    if String.eqb content "invalid" then None else Some content;
  Features.Writer := string * list string;
  Features.features := snd |}.

Definition mti_data : gmap string (@Features.Data demo_env) :=
  {[ "com.github.googlei18n.ufo2ft.mtiFeatures/GSUB.mti" := "lookup";
     "notes.txt" := "invalid" ]}.

Definition bad_mti_data : gmap string (@Features.Data demo_env) :=
  {[ "com.github.googlei18n.ufo2ft.mtiFeatures/GPOS.mti" := "invalid" ]}.

(** * Properties of the instruction compiler *)

Section InstructionCompilerFacts.
Context `{ext : Externals}.

(** ** The monad and the loop over names *)

Lemma for_each_app {A : Type} (body : A → M unit) (l1 l2 : list A) (st : State) :
  for_each body (l1 ++ l2) st = (for_each body l1 ;;; for_each body l2) st.
Proof.
  revert st. induction l1 as [|x l1 IH]; intros st; simpl.
  - reflexivity.
  - unfold bind in *. destruct (body x st) as [[[]|e] st1]; [|reflexivity].
    apply IH.
Qed.

Lemma dict_bool_true_lookup (d : dict) (k : string) (v : value) :
  d !! k = Some v → dict_bool d = true.
Proof.
  intros Hk. unfold dict_bool. apply negb_true_iff, bool_decide_eq_false.
  intros Hsz. apply map_size_empty_inv in Hsz. subst d.
  rewrite lookup_empty in Hk. discriminate.
Qed.

Lemma dict_bool_empty : dict_bool ∅ = false.
Proof. unfold dict_bool. rewrite map_size_empty. reflexivity. Qed.

(** ** Format version *)

Lemma check_tt_data_format_bad (ttdata : dict) (v : value) (z : Z) (st : State) :
  ttdata !! "formatVersion" = Some v → py_int (Some v) = Ok z → z ≠ 1%Z →
  _check_tt_data_format ttdata st = (Raise NotImplementedError, st).
Proof.
  intros Hv Hz Hne. unfold _check_tt_data_format, bind, lift.
  rewrite Hv, Hz. apply Z.eqb_neq in Hne. rewrite Hne. reflexivity.
Qed.

Lemma check_tt_data_format_ok (ttdata : dict) (st : State) :
  py_int (ttdata !! "formatVersion") = Ok 1%Z →
  _check_tt_data_format ttdata st = (Ok tt, st).
Proof.
  intros Hz. unfold _check_tt_data_format, bind, lift. rewrite Hz. reflexivity.
Qed.

Lemma check_tt_data_format_missing (ttdata : dict) (st : State) :
  ttdata !! "formatVersion" = None →
  _check_tt_data_format ttdata st = (Raise TypeError, st).
Proof.
  intros Hv. unfold _check_tt_data_format, bind, lift. rewrite Hv. reflexivity.
Qed.

(** ** [compile_maxp] *)

Lemma lookup_copy_limits (ttdata : dict) (names : list string)
    (m : gmap string value) (k : string) :
  foldl (copy_limit ttdata) m names !! k
  = if decide (k ∈ names)
    then match ttdata !! k with Some v => Some v | None => m !! k end
    else m !! k.
Proof.
  revert m. induction names as [|n names IH]; intros m; cbn [foldl].
  - destruct (decide (k ∈ [])) as [Hin|_]; [|reflexivity].
    apply elem_of_nil in Hin. contradiction.
  - rewrite IH.
    assert (Hstep : match ttdata !! k with
                    | Some v => Some v
                    | None => copy_limit ttdata m n !! k
                    end
                    = match ttdata !! k with Some v => Some v | None => m !! k end).
    { destruct (ttdata !! k) as [v|] eqn:Hk; [reflexivity|].
      unfold copy_limit. destruct (ttdata !! n) as [w|] eqn:Hn; [|reflexivity].
      rewrite lookup_insert_ne; [reflexivity|]. intros ->. congruence. }
    destruct (decide (k ∈ names)) as [Hin|Hnin];
      destruct (decide (k ∈ n :: names)) as [Hin'|Hnin'].
    + exact Hstep.
    + exfalso. apply Hnin'. right. exact Hin.
    + apply elem_of_cons in Hin' as [->|?]; [|contradiction].
      unfold copy_limit.
      destruct (ttdata !! n) as [w|]; [apply lookup_insert_eq|reflexivity].
    + unfold copy_limit. destruct (ttdata !! n) as [w|]; [|reflexivity].
      apply lookup_insert_ne. intros ->. apply Hnin'. left.
Qed.

Lemma elem_of_program_sizes (glyphs : gmap string TTGlyph) (n : nat) :
  n ∈ program_sizes glyphs
  ↔ ∃ name g p, glyphs !! name = Some g ∧ program g = Some p
                ∧ List.length (getBytecode p) = n.
Proof.
  unfold program_sizes. rewrite list_elem_of_omap. split.
  - intros [[name g] [Hin Hf]]. apply elem_of_map_to_list in Hin. simpl in Hf.
    destruct (program g) as [p|] eqn:Hp; [|discriminate].
    simpl in Hf. injection Hf as <-. eauto 6.
  - intros (name & g & p & Hg & Hp & <-). exists (name, g). split.
    + apply elem_of_map_to_list. exact Hg.
    + simpl. rewrite Hp. reflexivity.
Qed.

(** C3. [compile_maxp] always returns, and afterwards
    [maxp.maxSizeOfInstructions] is an upper bound of the byte length of
    the program of every glyph of the [glyf] table that has one, it is
    attained by one of them, and it is 0 when no glyph has a program;
    whatever the font-level instruction metadata is, present or not. *)
Theorem C3_maxSizeOfInstructions (ufo : UFO) (st : State) :
  ∃ (st' : State) (m : nat),
    compile_maxp ufo st = (Ok tt, st')
    ∧ glyf (font st') = glyf (font st)
    ∧ maxp (font st') !! "maxSizeOfInstructions" = Some (VInt (Z.of_nat m))
    ∧ (∀ name g p, glyf (font st') !! name = Some g → program g = Some p →
         List.length (getBytecode p) ≤ m)
    ∧ ((∃ name g p, glyf (font st') !! name = Some g ∧ program g = Some p
                    ∧ List.length (getBytecode p) = m)
       ∨ (m = 0 ∧ ∀ name g, glyf (font st') !! name = Some g → program g = None)).
Proof.
  eexists. exists (max_list (program_sizes (glyf (font st)))).
  split; [cbv [compile_maxp bind get_font put_font]; reflexivity|].
  cbn [font maxp glyf fpgm prep].
  split; [reflexivity|]. split; [apply lookup_insert_eq|]. split.
  - intros name g p Hg Hp. apply max_list_elem_of_le.
    apply elem_of_program_sizes. eauto 6.
  - destruct (program_sizes (glyf (font st))) as [|n ns] eqn:Hsizes.
    + right. split; [reflexivity|]. intros name g Hg.
      destruct (program g) as [p|] eqn:Hp; [|reflexivity].
      assert (Hin : List.length (getBytecode p) ∈ program_sizes (glyf (font st))).
      { apply elem_of_program_sizes. eauto 6. }
      rewrite Hsizes in Hin. apply elem_of_nil in Hin. contradiction.
    + left. rewrite <- Hsizes. apply elem_of_program_sizes.
      apply max_list_elem_of. rewrite Hsizes. discriminate.
Qed.

(** C9. With font-level instruction metadata [ttdata], [compile_maxp]
    sets each of the six limits [maxStorage], [maxFunctionDefs],
    [maxInstructionDefs], [maxStackElements], [maxZones] and
    [maxTwilightPoints] to the metadata's value when the metadata has it
    and leaves the field as it was when it has not; every [maxp] field
    other than these six and [maxSizeOfInstructions] is unchanged, and so
    are the other tables. *)
Theorem C9_maxp_limits (ufo : UFO) (ttdata : dict) (st : State) :
  ufo_instructions ufo = Some ttdata →
  ∃ st' : State,
    compile_maxp ufo st = (Ok tt, st')
    ∧ (∀ name,
         name ∈ ["maxStorage"; "maxFunctionDefs"; "maxInstructionDefs";
                 "maxStackElements"; "maxZones"; "maxTwilightPoints"] →
         maxp (font st') !! name
         = match ttdata !! name with
           | Some v => Some v
           | None => maxp (font st) !! name
           end)
    ∧ (∀ field,
         field ∉ ["maxStorage"; "maxFunctionDefs"; "maxInstructionDefs";
                  "maxStackElements"; "maxZones"; "maxTwilightPoints"] →
         field ≠ "maxSizeOfInstructions" →
         maxp (font st') !! field = maxp (font st) !! field)
    ∧ fpgm (font st') = fpgm (font st)
    ∧ prep (font st') = prep (font st)
    ∧ glyf (font st') = glyf (font st).
Proof.
  intros Hufo.
  change ["maxStorage"; "maxFunctionDefs"; "maxInstructionDefs";
          "maxStackElements"; "maxZones"; "maxTwilightPoints"]
    with maxp_names.
  eexists.
  split; [cbv [compile_maxp bind get_font put_font]; reflexivity|].
  cbn [font maxp glyf fpgm prep]. rewrite Hufo.
  split; [|split; [|auto]].
  - intros name Hin.
    assert (Hne : "maxSizeOfInstructions" ≠ name).
    { intros <-. revert Hin. unfold maxp_names.
      rewrite !elem_of_cons, elem_of_nil. intros H.
      repeat (destruct H as [H|H]; [discriminate H|]). exact H. }
    rewrite lookup_insert_ne by exact Hne.
    destruct (dict_bool ttdata) eqn:Hb.
    + rewrite lookup_copy_limits. rewrite decide_True by exact Hin. reflexivity.
    + unfold dict_bool in Hb. apply negb_false_iff, bool_decide_eq_true in Hb.
      apply map_size_empty_inv in Hb. subst ttdata. rewrite lookup_empty.
      reflexivity.
  - intros field Hnin Hne. rewrite lookup_insert_ne by congruence.
    destruct (dict_bool ttdata); [|reflexivity].
    rewrite lookup_copy_limits. rewrite decide_False by exact Hnin. reflexivity.
Qed.


(** ** Component flags *)

Lemma has_flag_pow2 (f k : Z) :
  (0 ≤ k)%Z → has_flag f (2 ^ k) = Z.testbit f k.
Proof.
  intros Hk. unfold has_flag. destruct (Z.testbit f k) eqn:Hb.
  - apply negb_true_iff, Z.eqb_neq. intros H0.
    assert (H : Z.testbit (Z.land f (2 ^ k)) k = true).
    { rewrite Z.land_spec, Hb, Z.pow2_bits_eqb, Z.eqb_refl by lia. reflexivity. }
    rewrite H0, Z.bits_0 in H. discriminate.
  - apply negb_false_iff, Z.eqb_eq. apply Z.bits_inj'. intros n Hn.
    rewrite Z.land_spec, Z.bits_0, Z.pow2_bits_eqb by lia.
    destruct (Z.eqb_spec k n) as [<-|Hne].
    + rewrite Hb. reflexivity.
    + apply andb_false_r.
Qed.

Lemma testbit_set_flag (f a b : Z) :
  (0 ≤ a)%Z → (0 ≤ b)%Z →
  Z.testbit (set_flag f (2 ^ b)) a = Z.testbit f a || (b =? a)%Z.
Proof.
  intros Ha Hb. unfold set_flag.
  rewrite Z.lor_spec, Z.pow2_bits_eqb by lia. reflexivity.
Qed.

Lemma testbit_clear_flag (f a b : Z) :
  (0 ≤ a)%Z → (0 ≤ b)%Z →
  Z.testbit (clear_flag f (2 ^ b)) a = Z.testbit f a && negb (b =? a)%Z.
Proof.
  intros Ha Hb. unfold clear_flag.
  rewrite Z.land_spec, Z.lnot_spec, Z.pow2_bits_eqb by lia. reflexivity.
Qed.

(** Rewrites a goal about [has_flag] of the three flag constants into
    one about single bits and decides it. *)
Ltac flag_bits :=
  change ROUND_XY_TO_GRID with (2 ^ 2)%Z;
  change USE_MY_METRICS with (2 ^ 9)%Z;
  change OVERLAP_COMPOUND with (2 ^ 10)%Z;
  rewrite ?has_flag_pow2 by lia;
  repeat first [ rewrite testbit_set_flag by lia
               | rewrite testbit_clear_flag by lia ];
  cbn [Z.eqb Pos.eqb negb];
  rewrite ?orb_false_r, ?andb_true_r, ?orb_true_r, ?andb_false_r;
  try reflexivity.

(** The overlap part of one loop iteration. *)
Lemma component_step_overlap
    (glyph : Glyph) (i : nat) (id umm : option string) (c : TTComponent)
    (st : State) :
  ∃ c' umm' st' lg,
    component_step glyph i id umm c st = (Ok (c', umm'), st')
    ∧ font st' = font st ∧ log st' = log st ++ lg
    ∧ tt_glyphName c' = tt_glyphName c
    ∧ has_flag (flags c') OVERLAP_COMPOUND
      = match i, glyph_overlap (glyph_lib glyph) with
        | 0, Some v => py_bool v
        | _, _ => has_flag (flags c) OVERLAP_COMPOUND
        end.
Proof.
  unfold component_step, bind, ret, logger.
  destruct (component_lib_of glyph id) as [clib|];
    [destruct (lib_flag clib TRUETYPE_ROUND_KEY true),
              (lib_flag clib TRUETYPE_METRICS_KEY false),
              (str_opt_bool umm)|];
    (eexists _, _, _, _; split; [reflexivity|]; split; [reflexivity|];
     split; [first [reflexivity | symmetry; apply app_nil_r]|];
     split; [reflexivity|]);
    cbn [fst snd flags];
    (destruct i as [|i'], (glyph_overlap (glyph_lib glyph)) as [v|];
     [destruct (py_bool v)| | |]); flag_bits.
Qed.

(** The metrics part of one loop iteration. *)
Lemma component_step_metrics
    (glyph : Glyph) (i : nat) (uc : Component) (umm : option string)
    (c : TTComponent) (st : State) :
  ∃ c' umm' st' lg,
    component_step glyph i (identifier uc) umm c st = (Ok (c', umm'), st')
    ∧ font st' = font st ∧ log st' = log st ++ lg
    ∧ if requests_metrics glyph uc then
        if str_opt_bool umm then
          has_flag (flags c') USE_MY_METRICS = false ∧ umm' = umm
          ∧ lg = [(WARNING, msg_metrics_ignored (default EmptyString (identifier uc))
                              (default EmptyString umm) (glyph_name glyph))]
        else
          has_flag (flags c') USE_MY_METRICS = true ∧ umm' = identifier uc
          ∧ lg = []
      else
        has_flag (flags c') USE_MY_METRICS = has_flag (flags c) USE_MY_METRICS
        ∧ umm' = umm ∧ lg = [].
Proof.
  unfold component_step, requests_metrics, bind, ret, logger.
  destruct (component_lib_of glyph (identifier uc)) as [clib|];
    [destruct (lib_flag clib TRUETYPE_ROUND_KEY true),
              (lib_flag clib TRUETYPE_METRICS_KEY false),
              (str_opt_bool umm)|];
    (eexists _, _, _, _; split; [reflexivity|]; split; [reflexivity|];
     split; [first [reflexivity | symmetry; apply app_nil_r]|]);
    cbn [fst snd flags];
    (split; [|split; reflexivity]);
    (destruct i as [|i'], (glyph_overlap (glyph_lib glyph)) as [v|];
     [destruct (py_bool v)| | |]); flag_bits.
Qed.

Lemma after_program_cleanup_facts (name : string) (st : State) (tg : TTGlyph) :
  glyf (font st) !! name = Some tg →
  log (after_program_cleanup name st) = log st
  ∧ glyf (font (after_program_cleanup name st)) !! name
    = Some (without_empty_program tg)
  ∧ (∀ n, n ≠ name →
       glyf (font (after_program_cleanup name st)) !! n = glyf (font st) !! n)
  ∧ fpgm (font (after_program_cleanup name st)) = fpgm (font st)
  ∧ prep (font (after_program_cleanup name st)) = prep (font st)
  ∧ maxp (font (after_program_cleanup name st)) = maxp (font st).
Proof.
  intros Htg. unfold after_program_cleanup, without_empty_program. rewrite Htg.
  destruct (program tg) as [p|]; [destruct (negb (Program_bool p))|];
    cbn [font log glyf fpgm prep maxp];
    repeat split; auto.
  - rewrite lookup_alter_eq, Htg. reflexivity.
  - intros n Hn. apply lookup_alter_ne. congruence.
Qed.

(** [_set_composite_flags] is the clean-up of an empty program followed
    by the component-count test. *)
Lemma set_composite_flags_unfold (glyph : Glyph) (name : string) (st : State)
    (tg : TTGlyph) (cs : list TTComponent) :
  glyf (font st) !! name = Some tg →
  tt_components tg = Some cs →
  _set_composite_flags glyph name st
  = (if negb (Nat.eqb (List.length cs) (List.length (glyph_components glyph)))
     then logger ERROR
            (msg_components_differ (glyph_name glyph)
               (List.length (glyph_components glyph)) (List.length cs))
     else cs' <~ flags_loop glyph 0 cs None ;;
          update_ttglyph name (set_components cs'))
      (after_program_cleanup name st).
Proof.
  intros Htg Hcs.
  unfold _set_composite_flags, after_program_cleanup, get_ttglyph.
  unfold bind at 1 2. unfold get_font at 1. cbn [fst snd]. rewrite Htg.
  unfold ret at 1. unfold bind at 1. rewrite Hcs.
  destruct (program tg) as [p|]; [destruct (negb (Program_bool p))|];
    reflexivity.
Qed.

(** C7. When the compiled glyph and the source glyph differ in their
    number of components, [_set_composite_flags] returns normally, logs
    one error and leaves every component of the glyph, and every other
    glyph, as it was. *)
Theorem C7_component_count_mismatch
    (glyph : Glyph) (name : string) (st : State) (tg : TTGlyph)
    (cs : list TTComponent) :
  glyf (font st) !! name = Some tg →
  tt_components tg = Some cs →
  List.length cs ≠ List.length (glyph_components glyph) →
  ∃ (st' : State) (tg' : TTGlyph),
    _set_composite_flags glyph name st = (Ok tt, st')
    ∧ glyf (font st') !! name = Some tg'
    ∧ tt_components tg' = Some cs
    ∧ (∀ n, n ≠ name → glyf (font st') !! n = glyf (font st) !! n)
    ∧ log st' = log st ++
        [(ERROR, msg_components_differ (glyph_name glyph)
                   (List.length (glyph_components glyph)) (List.length cs))].
Proof.
  intros Htg Hcs Hlen.
  destruct (after_program_cleanup_facts name st tg Htg)
    as (Hlog & Hname & Hother & _).
  rewrite (set_composite_flags_unfold _ _ _ _ _ Htg Hcs).
  apply Nat.eqb_neq in Hlen. rewrite Hlen. cbn [negb].
  eexists. exists (without_empty_program tg).
  split; [reflexivity|]. cbn [font log].
  split; [exact Hname|]. split; [|split; [exact Hother|]].
  - unfold without_empty_program.
    destruct (program tg) as [p|]; [destruct (negb (Program_bool p))|];
      exact Hcs.
  - rewrite Hlog. reflexivity.
Qed.

(** The loop never raises, leaves the font alone and only adds to the
    log; each component's OVERLAP_COMPOUND bit is decided by its
    position. *)
Lemma flags_loop_overlap (glyph : Glyph) (cs : list TTComponent) :
  ∀ (i : nat) (umm : option string) (st : State),
    i + List.length cs ≤ List.length (glyph_components glyph) →
    ∃ cs' st' lg,
      flags_loop glyph i cs umm st = (Ok cs', st')
      ∧ font st' = font st ∧ log st' = log st ++ lg
      ∧ List.length cs' = List.length cs
      ∧ ∀ j c c', cs !! j = Some c → cs' !! j = Some c' →
          has_flag (flags c') OVERLAP_COMPOUND
          = match i + j, glyph_overlap (glyph_lib glyph) with
            | 0, Some v => py_bool v
            | _, _ => has_flag (flags c) OVERLAP_COMPOUND
            end.
Proof.
  induction cs as [|c cs IH]; intros i umm st Hlen.
  - exists [], st, []. cbn [flags_loop]. unfold ret.
    repeat split; auto using app_nil_r.
    intros j c c' Hj. rewrite lookup_nil in Hj. discriminate.
  - cbn [List.length] in Hlen.
    destruct (lookup_lt_is_Some_2 (glyph_components glyph) i) as [uc Huc];
      [lia|].
    destruct (component_step_overlap glyph i (identifier uc) umm c st)
      as (c1 & umm1 & st1 & lg1 & Hstep & Hf1 & Hl1 & _ & Hbit).
    destruct (IH (S i) umm1 st1) as (cs' & st2 & lg2 & Hloop & Hf2 & Hl2 & Hlen' & Hrest);
      [lia|].
    exists (c1 :: cs'), st2, (lg1 ++ lg2).
    cbn [flags_loop]. rewrite Huc. unfold bind at 1. rewrite Hstep.
    cbn [fst snd]. unfold bind at 1. rewrite Hloop. unfold ret.
    split; [reflexivity|]. split; [congruence|].
    split; [rewrite Hl2, Hl1, app_assoc; reflexivity|].
    split; [cbn [List.length]; congruence|].
    intros [|j] d d' Hd Hd'; cbn in Hd, Hd'.
    + injection Hd as <-. injection Hd' as <-. rewrite Nat.add_0_r. exact Hbit.
    + rewrite (Hrest j d d' Hd Hd'). rewrite Nat.add_succ_r. reflexivity.
Qed.

(** [_set_composite_flags] with matching component counts, reduced to
    the result of the loop. *)
Lemma set_composite_flags_matching (glyph : Glyph) (name : string) (st : State)
    (tg : TTGlyph) (cs cs' : list TTComponent) (st1 : State) :
  glyf (font st) !! name = Some tg →
  tt_components tg = Some cs →
  List.length cs = List.length (glyph_components glyph) →
  flags_loop glyph 0 cs None (after_program_cleanup name st) = (Ok cs', st1) →
  font st1 = font (after_program_cleanup name st) →
  ∃ st' : State,
    _set_composite_flags glyph name st = (Ok tt, st')
    ∧ log st' = log st1
    ∧ glyf (font st') !! name
      = Some (set_components cs' (without_empty_program tg))
    ∧ (∀ n, n ≠ name → glyf (font st') !! n = glyf (font st) !! n)
    ∧ fpgm (font st') = fpgm (font st)
    ∧ prep (font st') = prep (font st)
    ∧ maxp (font st') = maxp (font st).
Proof.
  intros Htg Hcs Hlen Hloop Hfont.
  destruct (after_program_cleanup_facts name st tg Htg)
    as (Hlog & Hname & Hother & Hfpgm & Hprep & Hmaxp).
  rewrite (set_composite_flags_unfold _ _ _ _ _ Htg Hcs).
  apply Nat.eqb_eq in Hlen. rewrite Hlen. cbn [negb].
  unfold bind. rewrite Hloop. unfold update_ttglyph, bind, get_font, put_font.
  eexists. split; [reflexivity|]. cbn [font log glyf fpgm prep maxp].
  rewrite Hfont. repeat split; auto.
  - rewrite lookup_alter_eq, Hname. reflexivity.
  - intros n Hn. rewrite lookup_alter_ne by congruence. auto.
Qed.

(** C8. With matching component counts, [_set_composite_flags] returns
    normally and the OVERLAP_COMPOUND bit of the component at position 0
    is the truth value of the glyph's overlap entry when the key is
    present (set for true, cleared for false) and is unchanged when the
    key is absent; the bit of every component at another position is
    unchanged. *)
Theorem C8_overlap_compound_first_only
    (glyph : Glyph) (name : string) (st : State) (tg : TTGlyph)
    (cs : list TTComponent) :
  glyf (font st) !! name = Some tg →
  tt_components tg = Some cs →
  List.length cs = List.length (glyph_components glyph) →
  ∃ (st' : State) (tg' : TTGlyph) (cs' : list TTComponent),
    _set_composite_flags glyph name st = (Ok tt, st')
    ∧ glyf (font st') !! name = Some tg'
    ∧ tt_components tg' = Some cs'
    ∧ List.length cs' = List.length cs
    ∧ ∀ i c c', cs !! i = Some c → cs' !! i = Some c' →
        has_flag (flags c') OVERLAP_COMPOUND
        = match i, glyph_overlap (glyph_lib glyph) with
          | 0, Some v => py_bool v
          | _, _ => has_flag (flags c) OVERLAP_COMPOUND
          end.
Proof.
  intros Htg Hcs Hlen.
  destruct (flags_loop_overlap glyph cs 0 None (after_program_cleanup name st))
    as (cs' & st1 & lg & Hloop & Hfont & _ & Hlen' & Hbits); [lia|].
  destruct (set_composite_flags_matching _ _ _ _ _ _ _ Htg Hcs Hlen Hloop Hfont)
    as (st' & Hrun & _ & Hname & _).
  exists st', (set_components cs' (without_empty_program tg)), cs'.
  repeat split; auto.
Qed.

(** The loop, seen from the first component that asks for
    USE_MY_METRICS: position [k], identifier [idk], not the empty
    string.  Up to [k] the variable [use_my_metrics_comp] is [None],
    after [k] it is [idk]. *)
Lemma flags_loop_metrics (glyph : Glyph) (k : nat) (idk : string)
    (cs : list TTComponent) :
  idk ≠ EmptyString →
  (∀ j uj, j < k → glyph_components glyph !! j = Some uj →
           requests_metrics glyph uj = false) →
  (∃ uk, glyph_components glyph !! k = Some uk
         ∧ requests_metrics glyph uk = true ∧ identifier uk = Some idk) →
  ∀ (i : nat) (umm : option string) (st : State),
    i + List.length cs ≤ List.length (glyph_components glyph) →
    (i ≤ k ∧ umm = None) ∨ (k < i ∧ umm = Some idk) →
    ∃ cs' st' lg,
      flags_loop glyph i cs umm st = (Ok cs', st')
      ∧ font st' = font st ∧ log st' = log st ++ lg
      ∧ List.length cs' = List.length cs
      ∧ ∀ j c c' uj, cs !! j = Some c → cs' !! j = Some c' →
          glyph_components glyph !! (i + j) = Some uj →
          if requests_metrics glyph uj then
            if decide (i + j = k) then
              has_flag (flags c') USE_MY_METRICS = true
            else
              k < i + j
              ∧ has_flag (flags c') USE_MY_METRICS = false
              ∧ (WARNING, msg_metrics_ignored (default EmptyString (identifier uj)) idk
                            (glyph_name glyph)) ∈ lg
          else
            has_flag (flags c') USE_MY_METRICS
            = has_flag (flags c) USE_MY_METRICS.
Proof.
  intros Hid Hfirst (uk & Huk & Hreq & Hidk).
  induction cs as [|c cs IH]; intros i umm st Hlen Hstate.
  - exists [], st, []. cbn [flags_loop]. unfold ret.
    repeat split; auto using app_nil_r.
    intros j c c' uj Hj. rewrite lookup_nil in Hj. discriminate.
  - cbn [List.length] in Hlen.
    destruct (lookup_lt_is_Some_2 (glyph_components glyph) i) as [uc Huc];
      [lia|].
    destruct (component_step_metrics glyph i uc umm c st)
      as (c1 & umm1 & st1 & lg1 & Hstep & Hf1 & Hl1 & Hprop).
    assert (Hnext : (S i ≤ k ∧ umm1 = None) ∨ (k < S i ∧ umm1 = Some idk)).
    { destruct (requests_metrics glyph uc) eqn:Hr.
      - destruct Hstate as [[Hle ->]|[Hlt ->]].
        + assert (i = k) as ->.
          { destruct (decide (i = k)) as [|Hne]; [assumption|].
            rewrite (Hfirst i uc) in Hr by (auto; lia). discriminate. }
          cbn [str_opt_bool] in Hprop. destruct Hprop as (_ & -> & _).
          right. split; [lia|]. congruence.
        + right. split; [lia|]. cbn [str_opt_bool] in Hprop.
          apply String.eqb_neq in Hid. rewrite Hid in Hprop.
          cbn [negb] in Hprop. tauto.
      - destruct Hprop as (_ & -> & _).
        destruct Hstate as [[Hle ->]|[Hlt ->]]; [left|right]; split; auto; try lia.
        destruct (decide (i = k)) as [->|Hne]; [|lia]. congruence. }
    destruct (IH (S i) umm1 st1) as (cs' & st2 & lg2 & Hloop & Hf2 & Hl2 & Hlen' & Hrest);
      [lia|exact Hnext|].
    exists (c1 :: cs'), st2, (lg1 ++ lg2).
    cbn [flags_loop]. rewrite Huc. unfold bind at 1. rewrite Hstep.
    cbn [fst snd]. unfold bind at 1. rewrite Hloop. unfold ret.
    split; [reflexivity|]. split; [congruence|].
    split; [rewrite Hl2, Hl1, app_assoc; reflexivity|].
    split; [cbn [List.length]; congruence|].
    intros [|j] d d' uj Hd Hd' Huj; cbn in Hd, Hd'.
    + injection Hd as <-. injection Hd' as <-. rewrite Nat.add_0_r in *.
      assert (uj = uc) as -> by congruence.
      destruct (requests_metrics glyph uc) eqn:Hr; [|tauto].
      destruct Hstate as [[Hle ->]|[Hlt ->]].
      * assert (i = k) as ->.
        { destruct (decide (i = k)) as [|Hne]; [assumption|].
          rewrite (Hfirst i uc) in Hr by (auto; lia). discriminate. }
        rewrite decide_True by reflexivity. cbn [str_opt_bool] in Hprop. tauto.
      * rewrite decide_False by lia. cbn [str_opt_bool] in Hprop.
        apply String.eqb_neq in Hid. rewrite Hid in Hprop.
        cbn [negb default] in Hprop. destruct Hprop as (Hbit & _ & ->).
        split; [lia|]. split; [exact Hbit|].
        apply elem_of_app. left. apply list_elem_of_singleton. reflexivity.
    + rewrite Nat.add_succ_r in Huj.
      specialize (Hrest j d d' uj Hd Hd' Huj).
      rewrite Nat.add_succ_r. change (S i + j) with (S (i + j)) in Hrest.
      destruct (requests_metrics glyph uj); [|exact Hrest].
      destruct (decide (S (i + j) = k)); [exact Hrest|].
      destruct Hrest as (? & ? & Hin). split; [assumption|].
      split; [assumption|]. apply elem_of_app. right. exact Hin.
Qed.

(** C4 (as amended). With matching component counts, let [k] be the
    position of the first component that asks for USE_MY_METRICS and let
    its identifier be a non-empty string.  Then [_set_composite_flags]
    returns normally; the component at [k] has USE_MY_METRICS set; every
    later component that asks for it has the bit cleared and a warning
    naming its identifier and the one at [k] is in the log; every
    component that does not ask keeps its USE_MY_METRICS bit. *)
Theorem C4_first_use_my_metrics_wins
    (glyph : Glyph) (name : string) (st : State) (tg : TTGlyph)
    (cs : list TTComponent) (k : nat) (uk : Component) (idk : string) :
  glyf (font st) !! name = Some tg →
  tt_components tg = Some cs →
  List.length cs = List.length (glyph_components glyph) →
  glyph_components glyph !! k = Some uk →
  requests_metrics glyph uk = true →
  identifier uk = Some idk →
  idk ≠ EmptyString →
  (∀ j uj, j < k → glyph_components glyph !! j = Some uj →
           requests_metrics glyph uj = false) →
  ∃ (st' : State) (tg' : TTGlyph) (cs' : list TTComponent),
    _set_composite_flags glyph name st = (Ok tt, st')
    ∧ glyf (font st') !! name = Some tg'
    ∧ tt_components tg' = Some cs'
    ∧ List.length cs' = List.length cs
    ∧ (∀ c', cs' !! k = Some c' → has_flag (flags c') USE_MY_METRICS = true)
    ∧ (∀ j uj idj c', k < j →
         glyph_components glyph !! j = Some uj →
         requests_metrics glyph uj = true →
         identifier uj = Some idj →
         cs' !! j = Some c' →
         has_flag (flags c') USE_MY_METRICS = false
         ∧ (WARNING, msg_metrics_ignored idj idk (glyph_name glyph)) ∈ log st')
    ∧ (∀ j uj c c',
         glyph_components glyph !! j = Some uj →
         requests_metrics glyph uj = false →
         cs !! j = Some c → cs' !! j = Some c' →
         has_flag (flags c') USE_MY_METRICS
         = has_flag (flags c) USE_MY_METRICS).
Proof.
  intros Htg Hcs Hlen Huk Hreq Hidk Hid Hfirst.
  destruct (flags_loop_metrics glyph k idk cs Hid Hfirst
              (ex_intro _ uk (conj Huk (conj Hreq Hidk)))
              0 None (after_program_cleanup name st))
    as (cs' & st1 & lg & Hloop & Hfont & Hlog & Hlen' & Hbits);
    [lia | left; split; [lia|reflexivity] |].
  destruct (set_composite_flags_matching _ _ _ _ _ _ _ Htg Hcs Hlen Hloop Hfont)
    as (st' & Hrun & Hlog' & Hname & _).
  exists st', (set_components cs' (without_empty_program tg)), cs'.
  split; [exact Hrun|]. split; [exact Hname|]. split; [reflexivity|].
  split; [exact Hlen'|]. split; [|split].
  - intros c' Hc'.
    destruct (lookup_lt_is_Some_2 cs k) as [c Hc].
    { rewrite <- Hlen'. eapply lookup_lt_Some. exact Hc'. }
    specialize (Hbits k c c' uk Hc Hc' Huk). rewrite Hreq in Hbits.
    rewrite decide_True in Hbits by reflexivity. exact Hbits.
  - intros j uj idj c' Hkj Huj Hrj Hidj Hc'.
    destruct (lookup_lt_is_Some_2 cs j) as [c Hc].
    { rewrite <- Hlen'. eapply lookup_lt_Some. exact Hc'. }
    specialize (Hbits j c c' uj Hc Hc' Huj). rewrite Hrj in Hbits.
    rewrite decide_False in Hbits by (cbn; lia).
    rewrite Hidj in Hbits. cbn [default] in Hbits.
    destruct Hbits as (_ & Hbit & Hin). split; [exact Hbit|].
    rewrite Hlog', Hlog. apply elem_of_app. right. exact Hin.
  - intros j uj c c' Huj Hrj Hc Hc'.
    specialize (Hbits j c c' uj Hc Hc' Huj). rewrite Hrj in Hbits. exact Hbits.
Qed.

(** ** Processing one glyph *)

Lemma glyph_step_refl (name : string) (st : State) : glyph_step name st st.
Proof.
  unfold glyph_step. repeat split; auto.
  - intros tg Htg. eauto.
  - exists []. symmetry. apply app_nil_r.
Qed.

Lemma glyph_step_trans (name : string) (st1 st2 st3 : State) :
  glyph_step name st1 st2 → glyph_step name st2 st3 → glyph_step name st1 st3.
Proof.
  intros (Ho1 & Hn1 & Hs1 & [lg1 Hl1] & Hf1 & Hp1 & Hm1)
         (Ho2 & Hn2 & Hs2 & [lg2 Hl2] & Hf2 & Hp2 & Hm2).
  unfold glyph_step. repeat split; try congruence.
  - intros n Hn. rewrite Ho2, Ho1 by assumption. reflexivity.
  - auto.
  - intros tg Htg. destruct (Hs1 tg Htg) as (tg2 & Htg2 & Hc2).
    destruct (Hs2 tg2 Htg2) as (tg3 & Htg3 & Hc3).
    exists tg3. split; [assumption|congruence].
  - exists (lg1 ++ lg2). rewrite Hl2, Hl1, app_assoc. reflexivity.
Qed.

Lemma glyph_step_log (name : string) (st : State) (r : Level * string) :
  glyph_step name st (mkState (font st) (log st ++ [r])).
Proof.
  unfold glyph_step. cbn [font log]. repeat split; eauto.
Qed.

Lemma glyph_step_update (name : string) (st : State) (upd : TTGlyph → TTGlyph) :
  (∀ g, isComposite (upd g) = isComposite g) →
  glyph_step name st
    (mkState (mkTTFont (fpgm (font st)) (prep (font st))
                (alter upd name (glyf (font st))) (maxp (font st)))
             (log st)).
Proof.
  intros Hupd. unfold glyph_step. cbn [font log glyf fpgm prep maxp].
  repeat split.
  - intros n Hn. apply lookup_alter_ne. congruence.
  - intros Hnone. rewrite lookup_alter_eq, Hnone. reflexivity.
  - intros tg Htg. exists (upd tg). rewrite lookup_alter_eq, Htg. auto.
  - exists []. symmetry. apply app_nil_r.
Qed.

Lemma glyph_step_other (name n : string) (st st' : State) :
  glyph_step name st st' → n ≠ name →
  glyf (font st') !! n = glyf (font st) !! n.
Proof. intros (Ho & _) Hn. auto. Qed.

Lemma glyph_step_is_Some (name n : string) (st st' : State) :
  glyph_step name st st' →
  is_Some (glyf (font st) !! n) → is_Some (glyf (font st') !! n).
Proof.
  intros (Ho & Hn & Hs & _) [tg Htg].
  destruct (decide (n = name)) as [->|Hne].
  - destruct (Hs tg Htg) as (tg' & Htg' & _). eauto.
  - rewrite Ho by assumption. eauto.
Qed.

Lemma glyph_step_mono_log (name : string) (st st' : State) (r : Level * string) :
  glyph_step name st st' → r ∈ log st → r ∈ log st'.
Proof.
  intros (_ & _ & _ & [lg Hl] & _) Hin. rewrite Hl. apply elem_of_app. auto.
Qed.

(** The result of [_check_glyph_hash]: the exception of the hash pen,
    or the test. *)
Lemma check_glyph_hash_run (ufo : UFO) (glyph : Glyph) (d : dict) (st : State) :
  _check_glyph_hash ufo glyph d st
  = match HashPointPen_hash ufo glyph with
    | Raise e => (Raise e, st)
    | Ok _ =>
        if hash_matches ufo glyph d then (Ok true, st)
        else (Ok false, mkState (font st) (log st ++ [hash_error glyph d]))
    end.
Proof.
  unfold _check_glyph_hash, hash_matches, hash_error, bind, lift, logger, ret.
  destruct (HashPointPen_hash ufo glyph) as [hash|e]; [|reflexivity].
  destruct (d !! "id") as [v|]; [|reflexivity].
  destruct (value_eq_str v hash); reflexivity.
Qed.

Lemma with_program_step (name : string) (p : Program) (st : State) :
  glyph_step name st (with_program name p st).
Proof. apply glyph_step_update. reflexivity. Qed.

Lemma with_program_twice (name : string) (p q : Program) (st : State) :
  with_program name q (with_program name p st) = with_program name q st.
Proof.
  unfold with_program. cbn [font log fpgm prep glyf maxp]. do 2 f_equal.
  rewrite alter_alter_eq. apply alter_ext. reflexivity.
Qed.

(** The last two statements of [_compile_tt_glyph_program]: the fresh
    program is attached, then assembled; an exception of the assembly
    leaves the fresh program on the glyph. *)
Lemma attach_program_run (name : string) (asm : value) (st : State) :
  (update_ttglyph name (set_program (Some new_Program)) ;;;
   p <~ lift (fromAssembly new_Program asm) ;;
   update_ttglyph name (set_program (Some p))) st
  = match fromAssembly new_Program asm with
    | Ok p => (Ok tt, with_program name p st)
    | Raise e => (Raise e, with_program name new_Program st)
    end.
Proof.
  unfold update_ttglyph, bind, lift, get_font, put_font.
  cbn [font log fpgm prep glyf maxp].
  destruct (fromAssembly new_Program asm) as [p|e]; [|reflexivity].
  f_equal. apply (with_program_twice name new_Program p st).
Qed.

Lemma hash_matches_computed (ufo : UFO) (glyph : Glyph) (d : dict) :
  hash_matches ufo glyph d = true →
  ∃ hash, HashPointPen_hash ufo glyph = Ok hash.
Proof.
  unfold hash_matches.
  destruct (HashPointPen_hash ufo glyph) as [hash|e]; [eauto|discriminate].
Qed.

(** [_compile_tt_glyph_program], run: the format check, the hash pen,
    the test of the hash, the assembly. *)
Lemma compile_tt_glyph_program_run (ufo : UFO) (glyph : Glyph) (name : string)
    (d : dict) (st : State) :
  _compile_tt_glyph_program ufo glyph name d st
  = match py_int (d !! "formatVersion") with
    | Raise e => (Raise e, st)
    | Ok z =>
        if negb (z =? 1)%Z then (Raise NotImplementedError, st)
        else
          match HashPointPen_hash ufo glyph with
          | Raise e => (Raise e, st)
          | Ok _ =>
              if hash_matches ufo glyph d then
                match d !! "assembly" with
                | Some asm =>
                    match fromAssembly new_Program asm with
                    | Ok p => (Ok tt, with_program name p st)
                    | Raise e => (Raise e, with_program name new_Program st)
                    end
                | None =>
                    (Ok tt,
                     mkState (font st)
                       (log st
                        ++ [(ERROR, msg_assembly_missing (glyph_name glyph))]))
                end
              else (Ok tt, mkState (font st) (log st ++ [hash_error glyph d]))
          end
    end.
Proof.
  unfold _compile_tt_glyph_program, _check_tt_data_format.
  unfold lift at 1. unfold bind at 1 2.
  destruct (py_int (d !! "formatVersion")) as [z|e]; [|reflexivity].
  destruct (negb (z =? 1)%Z); [reflexivity|]. unfold ret at 1.
  unfold bind at 1. rewrite check_glyph_hash_run.
  destruct (HashPointPen_hash ufo glyph) as [hash|e]; [|reflexivity].
  destruct (hash_matches ufo glyph d); cbn [negb]; [|reflexivity].
  destruct (d !! "assembly") as [asm|]; [|reflexivity].
  apply attach_program_run.
Qed.

(** Whatever its outcome, compiling the program of the glyph [name] is
    a [glyph_step]. *)
Lemma compile_tt_glyph_program_step (ufo : UFO) (glyph : Glyph) (name : string)
    (d : dict) (st : State) (o : outcome unit) (st' : State) :
  _compile_tt_glyph_program ufo glyph name d st = (o, st') →
  glyph_step name st st'.
Proof.
  unfold _compile_tt_glyph_program, _check_tt_data_format.
  unfold lift at 1. unfold bind at 1 2.
  destruct (py_int (d !! "formatVersion")) as [z|e];
    [|intros [= <- <-]; apply glyph_step_refl].
  destruct (negb (z =? 1)%Z); unfold raise, ret;
    [intros [= <- <-]; apply glyph_step_refl|].
  unfold bind at 1. rewrite check_glyph_hash_run.
  destruct (HashPointPen_hash ufo glyph) as [hash|e];
    [|intros [= <- <-]; apply glyph_step_refl].
  destruct (hash_matches ufo glyph d); cbn [negb].
  - destruct (d !! "assembly") as [asm|].
    + rewrite attach_program_run.
      destruct (fromAssembly new_Program asm) as [p|e];
        intros [= <- <-]; apply with_program_step.
    + unfold logger. intros [= <- <-]. apply glyph_step_log.
  - unfold ret. intros [= <- <-]. apply glyph_step_log.
Qed.

(** A failed hash test: no program is attached, one error is logged. *)
Lemma compile_tt_glyph_program_hash_fail (ufo : UFO) (glyph : Glyph)
    (name : string) (d : dict) (hash : string) (st : State) :
  py_int (d !! "formatVersion") = Ok 1%Z →
  HashPointPen_hash ufo glyph = Ok hash →
  hash_matches ufo glyph d = false →
  _compile_tt_glyph_program ufo glyph name d st
  = (Ok tt, mkState (font st) (log st ++ [hash_error glyph d])).
Proof.
  intros Hfmt Hpen Hhash. unfold _compile_tt_glyph_program. unfold bind at 1.
  rewrite (check_tt_data_format_ok _ _ Hfmt). unfold bind.
  rewrite check_glyph_hash_run, Hpen, Hhash. reflexivity.
Qed.

(** With a supported format, a hash that can be computed and an assembly
    that is accepted, compiling the program of a glyph returns. *)
Lemma compile_tt_glyph_program_ok (ufo : UFO) (glyph : Glyph) (name : string)
    (d : dict) (st : State) :
  glyph_compiles ufo glyph d →
  ∃ st', _compile_tt_glyph_program ufo glyph name d st = (Ok tt, st').
Proof.
  intros (Hfmt & [hash Hpen] & Hasm). unfold _compile_tt_glyph_program.
  unfold bind at 1.
  rewrite (check_tt_data_format_ok _ _ Hfmt). unfold bind at 1.
  rewrite check_glyph_hash_run, Hpen.
  destruct (hash_matches ufo glyph d); cbn [negb].
  - destruct (d !! "assembly") as [asm|] eqn:Hd.
    + rewrite attach_program_run.
      destruct (Hasm eq_refl asm eq_refl) as [p ->]. eexists; reflexivity.
    + eexists; reflexivity.
  - eexists; reflexivity.
Qed.

(** [_set_composite_flags] on a composite glyph always returns; it is a
    [glyph_step] and the program attribute is only cleaned up. *)
Lemma set_composite_flags_total (glyph : Glyph) (name : string) (st : State)
    (tg : TTGlyph) (cs : list TTComponent) :
  glyf (font st) !! name = Some tg →
  tt_components tg = Some cs →
  ∃ (st' : State) (tg' : TTGlyph),
    _set_composite_flags glyph name st = (Ok tt, st')
    ∧ glyph_step name st st'
    ∧ glyf (font st') !! name = Some tg'
    ∧ program tg' = program (without_empty_program tg).
Proof.
  intros Htg Hcs.
  destruct (after_program_cleanup_facts name st tg Htg)
    as (Hlog & Hname & Hother & Hfpgm & Hprep & Hmaxp).
  assert (Hcs0 : tt_components (without_empty_program tg) = Some cs).
  { unfold without_empty_program.
    destruct (program tg) as [p|]; [destruct (negb (Program_bool p))|];
      exact Hcs. }
  destruct (decide (List.length cs = List.length (glyph_components glyph)))
    as [Hlen|Hlen].
  - destruct (flags_loop_overlap glyph cs 0 None (after_program_cleanup name st))
      as (cs' & st1 & lg & Hloop & Hfont & Hlg & _); [lia|].
    destruct (set_composite_flags_matching _ _ _ _ _ _ _ Htg Hcs Hlen Hloop Hfont)
      as (st' & Hrun & Hlog' & Hname' & Hother' & Hfpgm' & Hprep' & Hmaxp').
    exists st', (set_components cs' (without_empty_program tg)).
    split; [exact Hrun|]. split; [|split; [exact Hname'|reflexivity]].
    unfold glyph_step. repeat split; auto.
    + intros Hnone. congruence.
    + intros tg0 Htg0. assert (tg0 = tg) as -> by congruence.
      eexists. split; [exact Hname'|]. unfold isComposite. cbn. rewrite Hcs.
      reflexivity.
    + exists lg. congruence.
  - rewrite (set_composite_flags_unfold _ _ _ _ _ Htg Hcs).
    apply Nat.eqb_neq in Hlen. rewrite Hlen. cbn [negb].
    eexists. exists (without_empty_program tg).
    split; [reflexivity|]. cbn [font log].
    split; [|split; [exact Hname|reflexivity]].
    unfold glyph_step. cbn [font log]. repeat split; auto.
    + intros Hnone. congruence.
    + intros tg0 Htg0. assert (tg0 = tg) as -> by congruence.
      eexists. split; [exact Hname|]. unfold isComposite.
      rewrite Hcs0, Hcs. reflexivity.
    + rewrite Hlog. eauto.
Qed.

(** Whatever its outcome, [_compile_tt_glyph] is a [glyph_step]. *)
Lemma compile_tt_glyph_step (ufo : UFO) (name : string) (st : State)
    (o : outcome unit) (st' : State) :
  _compile_tt_glyph ufo name st = (o, st') → glyph_step name st st'.
Proof.
  unfold _compile_tt_glyph.
  destruct (ufo_glyphs ufo !! name) as [glyph|];
    [|intros [= <- <-]; apply glyph_step_refl].
  unfold bind at 1. unfold get_font at 1.
  destruct (glyf (font st) !! name) as [tg|] eqn:Htg.
  - unfold bind at 1.
    destruct (match glyph_instructions (glyph_lib glyph) with
              | Some ttdata => _compile_tt_glyph_program ufo glyph name ttdata
              | None => ret ()
              end st) as [o1 st1] eqn:Hprog.
    assert (Hstep1 : glyph_step name st st1).
    { destruct (glyph_instructions (glyph_lib glyph)) as [d|].
      - eapply compile_tt_glyph_program_step. exact Hprog.
      - injection Hprog as <- <-. apply glyph_step_refl. }
    destruct o1 as [[]|e]; [|intros [= <- <-]; exact Hstep1].
    unfold isComposite. destruct (tt_components tg) as [cs|] eqn:Hcs.
    + pose proof Hstep1 as (_ & _ & Hs & _).
      destruct (Hs tg Htg) as (tg1 & Htg1 & Hcs1).
      unfold isComposite in Hcs1. rewrite Hcs in Hcs1.
      destruct (tt_components tg1) as [cs1|] eqn:Hcs1'; [|discriminate].
      destruct (set_composite_flags_total glyph name st1 tg1 cs1 Htg1 Hcs1')
        as (st2 & tg2 & Hrun & Hstep2 & _).
      rewrite Hrun. intros [= <- <-].
      eapply glyph_step_trans; [exact Hstep1|exact Hstep2].
    + unfold ret. intros [= <- <-]. exact Hstep1.
  - destruct (glyph_instructions (glyph_lib glyph)) as [d|].
    + unfold logger. intros [= <- <-]. apply glyph_step_log.
    + unfold ret. intros [= <- <-]. apply glyph_step_refl.
Qed.

Lemma glyph_step_is_Some_rev (name n : string) (st st' : State) :
  glyph_step name st st' →
  is_Some (glyf (font st') !! n) → is_Some (glyf (font st) !! n).
Proof.
  intros (Ho & Hn & _) Hsome.
  destruct (decide (n = name)) as [->|Hne].
  - destruct (glyf (font st) !! name) eqn:Hg; [eauto|].
    rewrite (Hn eq_refl) in Hsome. exact Hsome.
  - rewrite <- Ho by assumption. exact Hsome.
Qed.

(** When nothing makes its program phase raise (or without metadata, or
    without a compiled glyph), processing a glyph of the UFO returns. *)
Lemma compile_tt_glyph_ok (ufo : UFO) (name : string) (glyph : Glyph)
    (st : State) :
  ufo_glyphs ufo !! name = Some glyph →
  (∀ d, glyph_instructions (glyph_lib glyph) = Some d →
        is_Some (glyf (font st) !! name) →
        glyph_compiles ufo glyph d) →
  ∃ st', _compile_tt_glyph ufo name st = (Ok tt, st').
Proof.
  intros Hg Hfmt. unfold _compile_tt_glyph. rewrite Hg.
  unfold bind at 1. unfold get_font at 1.
  destruct (glyf (font st) !! name) as [tg|] eqn:Htg.
  - unfold bind at 1.
    assert (Hprog : ∃ st1,
              match glyph_instructions (glyph_lib glyph) with
              | Some ttdata => _compile_tt_glyph_program ufo glyph name ttdata
              | None => ret ()
              end st = (Ok tt, st1) ∧ glyph_step name st st1).
    { destruct (glyph_instructions (glyph_lib glyph)) as [d|].
      - destruct (compile_tt_glyph_program_ok ufo glyph name d st) as [st1 H1].
        { apply Hfmt; eauto. }
        exists st1. split; [exact H1|].
        eapply compile_tt_glyph_program_step. exact H1.
      - exists st. split; [reflexivity|apply glyph_step_refl]. }
    destruct Hprog as (st1 & -> & Hstep1).
    unfold isComposite. destruct (tt_components tg) as [cs|] eqn:Hcs.
    + pose proof Hstep1 as (_ & _ & Hs & _).
      destruct (Hs tg Htg) as (tg1 & Htg1 & Hcs1).
      unfold isComposite in Hcs1. rewrite Hcs in Hcs1.
      destruct (tt_components tg1) as [cs1|] eqn:Hcs1'; [|discriminate].
      destruct (set_composite_flags_total glyph name st1 tg1 cs1 Htg1 Hcs1')
        as (st2 & tg2 & Hrun & _).
      eauto.
    + eexists. reflexivity.
  - destruct (glyph_instructions (glyph_lib glyph)); eexists; reflexivity.
Qed.

(** ** The loop of [compile_glyf] *)

Lemma elem_of_sorted_keys {A : Type} (m : gmap string A) (k : string) :
  k ∈ sorted_keys m ↔ is_Some (m !! k).
Proof.
  unfold sorted_keys. rewrite merge_sort_Permutation.
  rewrite elem_of_elements. apply elem_of_dom.
Qed.

Lemma NoDup_sorted_keys {A : Type} (m : gmap string A) : NoDup (sorted_keys m).
Proof.
  unfold sorted_keys. rewrite merge_sort_Permutation.
  apply NoDup_elements.
Qed.

(** Whatever its outcome, the loop over a list of names touches the
    compiled glyphs of these names only and keeps the log's records. *)
Lemma compile_names_frame (ufo : UFO) (l : list string) :
  ∀ (st : State) (o : outcome unit) (st' : State),
    for_each (_compile_tt_glyph ufo) l st = (o, st') →
    (∀ n, n ∉ l → glyf (font st') !! n = glyf (font st) !! n)
    ∧ (∀ n, is_Some (glyf (font st') !! n) ↔ is_Some (glyf (font st) !! n))
    ∧ (∀ r, r ∈ log st → r ∈ log st').
Proof.
  induction l as [|m l IH]; intros st o st'; cbn [for_each].
  - unfold ret. intros [= <- <-]. repeat split; auto.
  - unfold bind.
    destruct (_compile_tt_glyph ufo m st) as [o1 st1] eqn:Hm.
    pose proof (compile_tt_glyph_step _ _ _ _ _ Hm) as Hstep.
    assert (Hone : (∀ n, n ∉ m :: l → glyf (font st1) !! n = glyf (font st) !! n)
                   ∧ (∀ n, is_Some (glyf (font st1) !! n)
                           ↔ is_Some (glyf (font st) !! n))
                   ∧ (∀ r, r ∈ log st → r ∈ log st1)).
    { split; [|split].
      - intros n Hn. eapply glyph_step_other; [exact Hstep|].
        intros ->. apply Hn. left.
      - intros n. split.
        + eapply glyph_step_is_Some_rev. exact Hstep.
        + eapply glyph_step_is_Some. exact Hstep.
      - intros r. eapply glyph_step_mono_log. exact Hstep. }
    destruct o1 as [[]|e]; [|intros [= <- <-]; exact Hone].
    intros Hrest. destruct (IH _ _ _ Hrest) as (Ho & Hs & Hl).
    destruct Hone as (Ho1 & Hs1 & Hl1). split; [|split].
    + intros n Hn. rewrite Ho, Ho1; [reflexivity|exact Hn|].
      intros Hin. apply Hn. right. exact Hin.
    + intros n. rewrite Hs, Hs1. reflexivity.
    + auto.
Qed.

(** The loop returns when nothing makes a glyph it meets raise. *)
Lemma compile_names_ok (ufo : UFO) (l : list string) :
  ∀ st : State,
    (∀ m, m ∈ l →
       ∃ g, ufo_glyphs ufo !! m = Some g
            ∧ ∀ d, glyph_instructions (glyph_lib g) = Some d →
                   is_Some (glyf (font st) !! m) →
                   glyph_compiles ufo g d) →
    ∃ st', for_each (_compile_tt_glyph ufo) l st = (Ok tt, st').
Proof.
  induction l as [|m l IH]; intros st Hall; cbn [for_each].
  - eexists. reflexivity.
  - destruct (Hall m) as (g & Hg & Hfmt); [left|].
    destruct (compile_tt_glyph_ok ufo m g st Hg Hfmt) as [st1 Hm].
    unfold bind. rewrite Hm.
    pose proof (compile_tt_glyph_step _ _ _ _ _ Hm) as Hstep.
    apply IH. intros m' Hm'.
    destruct (Hall m') as (g' & Hg' & Hfmt'); [right; exact Hm'|].
    exists g'. split; [exact Hg'|]. intros d Hd Hsome.
    apply Hfmt'; [exact Hd|].
    eapply glyph_step_is_Some_rev; eassumption.
Qed.

(** C1 (as amended). A glyph of the [glyf] table whose instruction
    metadata has format version 1, whose hash can be computed, and whose
    stored [id] is missing or differs from that hash: its step of
    [compile_glyf] returns normally, attaches no program (the [program]
    attribute is what it was, an empty program removed from a composite;
    a glyph without a program ends without one) and logs the hash error;
    and [compile_glyf] continues: once its loop has reached the glyph, it
    goes on with the glyphs after it, from the state this step leaves. *)
Theorem C1_hash_mismatch_no_program
    (ufo : UFO) (name : string) (glyph : Glyph) (d : dict) (hash : string)
    (st : State) (tg : TTGlyph) :
  ufo_glyphs ufo !! name = Some glyph →
  glyph_instructions (glyph_lib glyph) = Some d →
  py_int (d !! "formatVersion") = Ok 1%Z →
  glyf (font st) !! name = Some tg →
  HashPointPen_hash ufo glyph = Ok hash →
  hash_matches ufo glyph d = false →
  ∃ (st1 : State) (tg1 : TTGlyph),
    _compile_tt_glyph ufo name st = (Ok tt, st1)
    ∧ glyf (font st1) !! name = Some tg1
    ∧ program tg1
      = program (if isComposite tg then without_empty_program tg else tg)
    ∧ (program tg = None → program tg1 = None)
    ∧ hash_error glyph d ∈ log st1
    ∧ ∀ (st0 : State) (before after : list string),
        sorted_keys (ufo_glyphs ufo) = before ++ name :: after →
        for_each (_compile_tt_glyph ufo) before st0 = (Ok tt, st) →
        compile_glyf ufo st0 = for_each (_compile_tt_glyph ufo) after st1.
Proof.
  intros Hg Hd Hfmt Htg Hpen Hhash.
  assert (Hclean : program tg = None →
            program (if isComposite tg then without_empty_program tg else tg)
            = None).
  { intros Hp. unfold without_empty_program. rewrite Hp.
    destruct (isComposite tg); exact Hp. }
  assert (Hstep : ∃ s1 tg1,
            _compile_tt_glyph ufo name st = (Ok tt, s1)
            ∧ glyf (font s1) !! name = Some tg1
            ∧ program tg1
              = program (if isComposite tg then without_empty_program tg
                         else tg)
            ∧ hash_error glyph d ∈ log s1).
  { unfold _compile_tt_glyph. rewrite Hg, Hd.
    unfold bind at 1. unfold get_font at 1. rewrite Htg.
    unfold bind at 1.
    rewrite (compile_tt_glyph_program_hash_fail _ _ _ _ _ _ Hfmt Hpen Hhash).
    set (s0 := mkState (font st) (log st ++ [hash_error glyph d])).
    assert (Hin0 : hash_error glyph d ∈ log s0).
    { apply elem_of_app. right. apply list_elem_of_singleton. reflexivity. }
    unfold isComposite. destruct (tt_components tg) as [cs|] eqn:Hcs.
    - destruct (set_composite_flags_total glyph name s0 tg cs Htg Hcs)
        as (s1 & tg1 & Hrun & Hst & Htg1 & Hp1).
      exists s1, tg1. split; [exact Hrun|]. split; [exact Htg1|].
      split; [exact Hp1|]. eapply glyph_step_mono_log; eassumption.
    - exists s0, tg. split; [reflexivity|]. split; [exact Htg|].
      split; [reflexivity|exact Hin0]. }
  destruct Hstep as (st1 & tg1 & Hrun & Htg1 & Hp1 & Hin).
  exists st1, tg1. split; [exact Hrun|]. split; [exact Htg1|].
  split; [exact Hp1|]. split; [intros Hp; rewrite Hp1; auto|].
  split; [exact Hin|].
  intros st0 before after Hsplit Hbefore. unfold compile_glyf.
  rewrite Hsplit, for_each_app. unfold bind at 1. rewrite Hbefore.
  cbn [for_each]. unfold bind at 1. rewrite Hrun. reflexivity.
Qed.

(** C2 (as amended). Instruction metadata that is read and whose
    [formatVersion] converts to an integer other than 1: the compile
    operation raises [NotImplementedError] and has written nothing.  At
    the font level [_compile_program] (hence [compile_fpgm] and
    [compile_prep]) raises in the state of the call: no table is created.
    For a glyph of the [glyf] table, [_compile_tt_glyph_program] and the
    glyph's step raise in the state of the call, and [compile_glyf] raises
    when its loop, in sorted order, reaches the glyph, the compiled glyph
    being then what it was when [compile_glyf] was called. *)
Theorem C2_format_version_fatal
    (ufo : UFO) (glyph : Glyph) (name key : string) (tag : table_tag)
    (ttdata : dict) (v : value) (z : Z) (st : State) :
  ttdata !! "formatVersion" = Some v →
  py_int (Some v) = Ok z →
  z ≠ 1%Z →
  (ufo_instructions ufo = Some ttdata →
     _compile_program ufo key tag st = (Raise NotImplementedError, st)
     ∧ compile_fpgm ufo st = (Raise NotImplementedError, st)
     ∧ compile_prep ufo st = (Raise NotImplementedError, st))
  ∧ _compile_tt_glyph_program ufo glyph name ttdata st
    = (Raise NotImplementedError, st)
  ∧ (ufo_glyphs ufo !! name = Some glyph →
     glyph_instructions (glyph_lib glyph) = Some ttdata →
     is_Some (glyf (font st) !! name) →
     _compile_tt_glyph ufo name st = (Raise NotImplementedError, st)
     ∧ ∀ (before after : list string) (st1 : State),
         sorted_keys (ufo_glyphs ufo) = before ++ name :: after →
         for_each (_compile_tt_glyph ufo) before st = (Ok tt, st1) →
         compile_glyf ufo st = (Raise NotImplementedError, st1)
         ∧ glyf (font st1) !! name = glyf (font st) !! name).
Proof.
  intros Hv Hz Hne.
  assert (Hprog : ∀ k t, ufo_instructions ufo = Some ttdata →
            _compile_program ufo k t st = (Raise NotImplementedError, st)).
  { intros k t Hufo. unfold _compile_program. rewrite Hufo.
    rewrite (dict_bool_true_lookup _ _ _ Hv).
    unfold bind, lift. rewrite Hv, Hz.
    apply Z.eqb_neq in Hne. rewrite Hne. reflexivity. }
  assert (Hglyph : ∀ s, _compile_tt_glyph_program ufo glyph name ttdata s
                        = (Raise NotImplementedError, s)).
  { intros s. unfold _compile_tt_glyph_program, bind.
    rewrite (check_tt_data_format_bad _ _ _ _ Hv Hz Hne). reflexivity. }
  split; [|split].
  - intros Hufo. unfold compile_fpgm, compile_prep. auto.
  - apply Hglyph.
  - intros Hg Hlib Hsome.
    assert (Hstep : ∀ s, is_Some (glyf (font s) !! name) →
              _compile_tt_glyph ufo name s = (Raise NotImplementedError, s)).
    { intros s [ttglyph Htt]. unfold _compile_tt_glyph.
      rewrite Hg, Hlib. unfold bind at 1. unfold get_font. simpl.
      rewrite Htt. unfold bind at 1. rewrite Hglyph. reflexivity. }
    split; [apply Hstep; exact Hsome|].
    intros before after st1 Hsplit Hbefore.
    destruct (compile_names_frame _ _ _ _ _ Hbefore) as (Ho & Hs & _).
    split.
    + unfold compile_glyf.
      rewrite Hsplit, for_each_app. unfold bind at 1. rewrite Hbefore.
      cbn [for_each]. unfold bind at 1. rewrite Hstep; [reflexivity|].
      apply Hs. exact Hsome.
    + apply Ho. intros Hin.
      pose proof (NoDup_sorted_keys (ufo_glyphs ufo)) as Hnd.
      rewrite Hsplit in Hnd. apply NoDup_app in Hnd as (_ & Hnot & _).
      exact (Hnot name Hin (list_elem_of_here _ _)).
Qed.

(** C10 (as amended). A glyph of the [glyf] table whose instruction
    metadata (an empty block included) has no [formatVersion] key: its
    step of [compile_glyf] raises [TypeError] ([int(None)]) and changes
    nothing, so [compile_glyf] raises [TypeError] once its loop, in sorted
    order, reaches the glyph.  At the font level an empty metadata block
    is falsy: [compile_fpgm] and [compile_prep] return without a format
    check and change nothing. *)
Theorem C10_missing_format_version :
  (∀ (ufo : UFO) (name : string) (glyph : Glyph) (d : dict) (st : State),
     ufo_glyphs ufo !! name = Some glyph →
     glyph_instructions (glyph_lib glyph) = Some d →
     d !! "formatVersion" = None →
     is_Some (glyf (font st) !! name) →
     _compile_tt_glyph ufo name st = (Raise TypeError, st)
     ∧ ∀ before after st1,
         sorted_keys (ufo_glyphs ufo) = before ++ name :: after →
         for_each (_compile_tt_glyph ufo) before st = (Ok tt, st1) →
         compile_glyf ufo st = (Raise TypeError, st1))
  ∧ (∀ (ufo : UFO) (st : State),
       ufo_instructions ufo = Some ∅ →
       compile_fpgm ufo st = (Ok tt, st) ∧ compile_prep ufo st = (Ok tt, st)).
Proof.
  split.
  - intros ufo name glyph d st Hg Hd Hfv Hsome.
    assert (Hstep : ∀ s, is_Some (glyf (font s) !! name) →
              _compile_tt_glyph ufo name s = (Raise TypeError, s)).
    { intros s [tg Htg]. unfold _compile_tt_glyph. rewrite Hg, Hd.
      unfold bind at 1. unfold get_font at 1. rewrite Htg. unfold bind at 1.
      unfold _compile_tt_glyph_program. unfold bind at 1.
      rewrite (check_tt_data_format_missing _ _ Hfv). reflexivity. }
    split; [apply Hstep; exact Hsome|].
    intros before after st1 Hsplit Hbefore. unfold compile_glyf.
    rewrite Hsplit, for_each_app. unfold bind at 1. rewrite Hbefore.
    cbn [for_each]. unfold bind at 1. rewrite Hstep; [reflexivity|].
    destruct (compile_names_frame _ _ _ _ _ Hbefore) as (_ & Hs & _).
    apply Hs. exact Hsome.
  - intros ufo st Hufo. unfold compile_fpgm, compile_prep, _compile_program.
    rewrite Hufo, dict_bool_empty. split; reflexivity.
Qed.

End InstructionCompilerFacts.

(** * Properties of anchor propagation *)

Section PropagationFacts.

(** ** Names contributed by a merge *)


Lemma names_translate (dx dy : Z) (l : list Anchor) :
  names (map (translate_anchor dx dy) l) = names l.
Proof. rewrite map_map. reflexivity. Qed.

Lemma names_transform (t : Transform) (l : list Anchor) :
  names (map (transform_anchor t) l) = names l.
Proof. rewrite map_map. reflexivity. Qed.

Lemma names_replace (a : Anchor) (l : list Anchor) :
  names (replace_anchor a l) = names l.
Proof.
  unfold replace_anchor. rewrite map_map. apply map_ext. intros b.
  destruct (String.eqb_spec (anchor_name b) (anchor_name a)); congruence.
Qed.

Lemma names_sorted (l : list Anchor) (x : string) :
  x ∈ names (merge_sort anchor_le l) ↔ x ∈ names l.
Proof. rewrite (merge_sort_Permutation anchor_le l). reflexivity. Qed.

Lemma has_anchor_true (n : string) (l : list Anchor) :
  has_anchor n l = true ↔ n ∈ names l.
Proof. unfold has_anchor. apply bool_decide_eq_true. Qed.

Lemma has_anchor_false (n : string) (l : list Anchor) :
  has_anchor n l = false ↔ n ∉ names l.
Proof. unfold has_anchor. apply bool_decide_eq_false. Qed.

(** What folding [add_new] over an incoming list does to the names. *)
Lemma add_new_names (own : list Anchor) (inh : list Anchor) :
  ∀ added : list Anchor,
    (∀ x, x ∈ names added → x ∈ names (fold_left (add_new own) inh added))
    ∧ (∀ x, x ∈ names inh → is_attachment x = false →
            x ∈ names own ∨ x ∈ names (fold_left (add_new own) inh added))
    ∧ (∀ x, x ∈ names (fold_left (add_new own) inh added) →
            x ∈ names added ∨ (x ∈ names inh ∧ is_attachment x = false))
    ∧ ((∀ x, x ∈ names inh → is_attachment x = false → x ∈ names own) →
       added = [] → fold_left (add_new own) inh added = []).
Proof.
  induction inh as [|a inh IH]; intros added; cbn [fold_left].
  - repeat split; auto. intros x Hx. cbn in Hx. apply elem_of_nil in Hx.
    contradiction.
  - destruct (IH (add_new own added a)) as (H1 & H2 & H3 & H4).
    assert (Hstep : ∀ x, x ∈ names added → x ∈ names (add_new own added a)).
    { intros x Hx. unfold add_new.
      destruct (is_attachment (anchor_name a) || has_anchor (anchor_name a) own
                || has_anchor (anchor_name a) added); [exact Hx|].
      rewrite map_app. apply elem_of_app. left. exact Hx. }
    split; [|split; [|split]].
    + auto.
    + intros x Hx Hatt. cbn in Hx. apply elem_of_cons in Hx as [->|Hx]; [|auto].
      destruct (has_anchor (anchor_name a) own) eqn:Hown.
      { left. apply has_anchor_true. exact Hown. }
      right. apply H1. unfold add_new. rewrite Hatt, Hown. cbn [orb].
      destruct (has_anchor (anchor_name a) added) eqn:Hadd.
      * apply has_anchor_true. exact Hadd.
      * rewrite map_app. apply elem_of_app. right. cbn. left.
    + intros x Hx. apply H3 in Hx as [Hx|[Hx Hatt]].
      * unfold add_new in Hx.
        destruct (is_attachment (anchor_name a)) eqn:Hatt;
          [left; exact Hx|].
        destruct (has_anchor (anchor_name a) own); [left; exact Hx|].
        destruct (has_anchor (anchor_name a) added); [left; exact Hx|].
        cbn [orb] in Hx. rewrite map_app in Hx.
        apply elem_of_app in Hx as [Hx|Hx]; [left; exact Hx|].
        cbn in Hx. apply list_elem_of_singleton in Hx as ->.
        right. split; [cbn; left|exact Hatt].
      * right. split; [cbn; right; exact Hx|exact Hatt].
    + intros Hall ->. apply H4.
      * intros x Hx. apply Hall. cbn. right. exact Hx.
      * unfold add_new. destruct (is_attachment (anchor_name a)) eqn:Hatt;
          [reflexivity|].
        assert (Hown : has_anchor (anchor_name a) own = true).
        { apply has_anchor_true. apply Hall; [cbn; left|exact Hatt]. }
        rewrite Hown. reflexivity.
Qed.

Lemma find_alignment_nil (inh cands : list Anchor) :
  find_alignment [] inh cands = None.
Proof.
  induction cands as [|m cands IH]; cbn; [reflexivity|].
  destruct (attachment_target (anchor_name m)); [|exact IH].
  destruct (has_anchor s inh); exact IH.
Qed.

(** What merging one component does to the names. *)
Lemma merge_component_names (own added inh : list Anchor) :
  (∀ x, x ∈ names added → x ∈ names (merge_component own added inh))
  ∧ (∀ x, x ∈ names inh → is_attachment x = false →
          x ∈ names own ∨ x ∈ names (merge_component own added inh))
  ∧ (∀ x, x ∈ names (merge_component own added inh) →
          x ∈ names added ∨ (x ∈ names inh ∧ is_attachment x = false))
  ∧ ((∀ x, x ∈ names inh → is_attachment x = false → x ∈ names own) →
     added = [] → merge_component own added inh = []).
Proof.
  unfold merge_component.
  destruct (find_alignment added inh inh) as [[[n dx] dy]|] eqn:Halign.
  - set (inh' := map (translate_anchor dx dy) inh).
    set (added' := match find_anchor n inh' with
                   | Some a => replace_anchor a added
                   | None => added
                   end).
    assert (Hn : names inh' = names inh) by apply names_translate.
    assert (Ha : names added' = names added).
    { unfold added'. destruct (find_anchor n inh'); [apply names_replace|reflexivity]. }
    destruct (add_new_names own inh' added') as (H1 & H2 & H3 & H4).
    rewrite Hn, Ha in *. repeat split; auto.
    intros _ ->. rewrite find_alignment_nil in Halign. discriminate.
  - apply add_new_names.
Qed.

(** ** The memo of a pass *)

Lemma effective_anchors_eq (fuel : nat) (gs : gmap string Glyph)
    (visiting : list string) (name : string) (ps : PassState) :
  effective_anchors fuel gs visiting name ps
  = match memo ps !! name with
    | Some r => (r, ps)
    | None =>
        if bool_decide (name ∈ visiting) then
          ([], mkPassState (memo ps)
                 (warnings ps ++ [(WARNING, msg_cycle name)]))
        else
          match gs !! name with
          | None => ([], ps)
          | Some g =>
              match fuel with
              | 0 => ([], ps)
              | S fuel' =>
                  let acc :=
                    fold_left
                      (resolve_component
                         (effective_anchors fuel' gs (name :: visiting))
                         (glyph_anchors g))
                      (glyph_components g) ([], ps) in
                  let r := glyph_anchors g ++ merge_sort anchor_le (fst acc) in
                  (r, mkPassState (<[name := r]> (memo (snd acc)))
                                  (warnings (snd acc)))
              end
          end
    end.
Proof. destruct fuel; reflexivity. Qed.

(** Folding over the components keeps whatever a resolution keeps. *)
Lemma fold_resolve_invariant
    (resolve : string → PassState → list Anchor * PassState)
    (own : list Anchor) (Q : PassState → PassState → Prop) :
  (∀ ps, Q ps ps) →
  (∀ ps1 ps2 ps3, Q ps1 ps2 → Q ps2 ps3 → Q ps1 ps3) →
  (∀ b ps, Q ps (snd (resolve b ps))) →
  ∀ (comps : list Component) (acc : list Anchor * PassState),
    Q (snd acc) (snd (fold_left (resolve_component resolve own) comps acc)).
Proof.
  intros Hrefl Htrans Hres. induction comps as [|c comps IH]; intros acc;
    cbn [fold_left].
  - apply Hrefl.
  - eapply Htrans; [|apply IH]. unfold resolve_component.
    specialize (Hres (baseGlyph c) (snd acc)).
    destruct (resolve (baseGlyph c) (snd acc)) as [inh ps1]. exact Hres.
Qed.

Lemma memo_grows_refl (visiting : list string) (ps : PassState) :
  memo_grows visiting ps ps.
Proof. intros H. split; [reflexivity|exact H]. Qed.

Lemma memo_grows_trans (visiting : list string) (ps1 ps2 ps3 : PassState) :
  memo_grows visiting ps1 ps2 → memo_grows visiting ps2 ps3 →
  memo_grows visiting ps1 ps3.
Proof.
  intros H12 H23 H. destruct (H12 H) as [Hsub Hvis].
  destruct (H23 Hvis) as [Hsub' Hvis']. split; [|exact Hvis'].
  etransitivity; eassumption.
Qed.

Lemma effective_anchors_memo (gs : gmap string Glyph) (fuel : nat) :
  ∀ (visiting : list string) (name : string) (ps : PassState),
    memo_grows visiting ps (snd (effective_anchors fuel gs visiting name ps)).
Proof.
  induction fuel as [|fuel IH]; intros visiting name ps;
    rewrite effective_anchors_eq;
    destruct (memo ps !! name) as [r|] eqn:Hmemo; cbn [snd];
      try apply memo_grows_refl;
    destruct (bool_decide (name ∈ visiting)) eqn:Hvis; cbn [snd];
      try (intros H; split; [reflexivity|exact H]);
    destruct (gs !! name) as [g|]; cbn [snd];
      try apply memo_grows_refl.
  intros Hnone.
  apply bool_decide_eq_false in Hvis.
  pose proof (fold_resolve_invariant
                (effective_anchors fuel gs (name :: visiting))
                (glyph_anchors g) (memo_grows (name :: visiting))
                (memo_grows_refl _) (memo_grows_trans _)
                (λ b p, IH (name :: visiting) b p)
                (glyph_components g) ([], ps)) as Hfold.
  cbn [snd] in Hfold. destruct Hfold as [Hsub Hvis'].
  { intros v Hv. apply elem_of_cons in Hv as [->|Hv]; auto. }
  cbn [memo]. split.
  - etransitivity; [exact Hsub|]. apply insert_subseteq.
    apply Hvis'. left.
  - intros v Hv. rewrite lookup_insert_ne.
    + apply Hvis'. right. exact Hv.
    + intros ->. contradiction.
Qed.

(** The result of resolving a glyph of the set from outside is in the
    memo afterwards. *)
Lemma effective_anchors_memoized (gs : gmap string Glyph) (fuel : nat)
    (name : string) (ps : PassState) (g : Glyph) :
  gs !! name = Some g → fuel ≠ 0 →
  memo (snd (effective_anchors fuel gs [] name ps)) !! name
  = Some (fst (effective_anchors fuel gs [] name ps)).
Proof.
  intros Hg Hfuel. rewrite effective_anchors_eq.
  destruct (memo ps !! name) as [r|] eqn:Hmemo; [exact Hmemo|].
  rewrite bool_decide_eq_false_2 by apply not_elem_of_nil.
  rewrite Hg. destruct fuel as [|fuel]; [contradiction|].
  cbn [fst snd memo]. apply lookup_insert_eq.
Qed.

Lemma fold_resolve_cons
    (resolve : string → PassState → list Anchor * PassState)
    (own : list Anchor) (c : Component) (comps : list Component)
    (acc : list Anchor * PassState) :
  fold_left (resolve_component resolve own) (c :: comps) acc
  = fold_left (resolve_component resolve own) comps
      (merge_component own (fst acc)
         (map (transform_anchor (transformation c))
              (fst (resolve (baseGlyph c) (snd acc)))),
       snd (resolve (baseGlyph c) (snd acc))).
Proof.
  cbn [fold_left]. f_equal. unfold resolve_component.
  destruct (resolve (baseGlyph c) (snd acc)); reflexivity.
Qed.

(** The anchors propagated so far only gain names along the components. *)
Lemma fold_resolve_names
    (resolve : string → PassState → list Anchor * PassState)
    (own : list Anchor) (comps : list Component) :
  ∀ (acc : list Anchor * PassState) (x : string),
    x ∈ names (fst acc) →
    x ∈ names (fst (fold_left (resolve_component resolve own) comps acc)).
Proof.
  induction comps as [|c comps IH]; intros acc x Hx; cbn [fold_left].
  - exact Hx.
  - apply IH. unfold resolve_component.
    destruct (resolve (baseGlyph c) (snd acc)) as [inh ps1]. cbn [fst].
    apply merge_component_names. exact Hx.
Qed.

(** ** A pass over a glyph set whose anchors were already propagated *)

Lemma lockstep (M : gmap string (list Anchor)) (gsA gsB : gmap string Glyph) :
  rewritten M gsA gsB →
  ∀ (fuel : nat) (visiting : list string) (name : string) (ps1 ps2 : PassState),
    (∀ v, v ∈ visiting → memo ps1 !! v = None) →
    memo (snd (effective_anchors fuel gsA visiting name ps1)) ⊆ M →
    memo_sim M gsB (memo ps1) (memo ps2) →
    memo_sim M gsB (memo (snd (effective_anchors fuel gsA visiting name ps1)))
                   (memo (snd (effective_anchors fuel gsB visiting name ps2)))
    ∧ (∀ x, x ∈ names (fst (effective_anchors fuel gsB visiting name ps2)) →
            x ∈ names (fst (effective_anchors fuel gsA visiting name ps1)))
    ∧ (∀ gB, gsB !! name = Some gB → M !! name = Some (glyph_anchors gB) →
             name ∉ visiting → fuel ≠ 0 →
             fst (effective_anchors fuel gsB visiting name ps2)
             = glyph_anchors gB).
Proof.
  intros HRel. induction fuel as [|fuel IH];
    intros visiting name ps1 ps2 Hvis HM Hsim;
    rewrite !effective_anchors_eq; rewrite effective_anchors_eq in HM;
    pose proof (Hsim name) as Hname;
    destruct (memo ps1 !! name) as [r1|] eqn:Hm1,
             (memo ps2 !! name) as [r2|] eqn:Hm2; try contradiction;
    cbn [fst snd];
    try (solve [split; [exact Hsim|]; split; [apply Hname|];
                intros gB HgB HMn _ _; apply Hname; assumption]);
    (destruct (bool_decide (name ∈ visiting)) eqn:Hin;
     [ cbn [fst snd memo]; split; [exact Hsim|]; split; [auto|];
       intros gB _ _ Hnin; apply bool_decide_eq_true in Hin; contradiction |]);
    pose proof (HRel name) as Hrel;
    destruct (gsA !! name) as [gA|] eqn:HgA, (gsB !! name) as [gB|] eqn:HgB;
      try contradiction; cbn [fst snd];
    try (solve [split; [exact Hsim|]; split; [auto|]; intros gB' [=]]).
  - split; [exact Hsim|]. split; [auto|]. intros ? _ _ _ Hf. contradiction.
  - destruct Hrel as [Hcomps Hanch]. rewrite Hcomps.
    apply bool_decide_eq_false in Hin.
    set (own1 := glyph_anchors gA) in *. set (own2 := glyph_anchors gB) in *.
    set (res1 := effective_anchors fuel gsA (name :: visiting)) in *.
    set (res2 := effective_anchors fuel gsB (name :: visiting)) in *.
    cbn [fst snd memo] in HM |- *.
    set (f1 := fold_left (resolve_component res1 own1) (glyph_components gA)
                 ([], ps1)) in *.
    set (f2 := fold_left (resolve_component res2 own2) (glyph_components gA)
                 ([], ps2)).
    assert (Hvis' : ∀ v, v ∈ name :: visiting → memo ps1 !! v = None).
    { intros v Hv. apply elem_of_cons in Hv as [->|Hv]; auto. }
    assert (Hgrow : ∀ comps acc,
              memo_grows (name :: visiting) (snd acc)
                (snd (fold_left (resolve_component res1 own1) comps acc))).
    { intros comps acc. apply fold_resolve_invariant.
      - apply memo_grows_refl.
      - apply memo_grows_trans.
      - intros b p. apply effective_anchors_memo. }
    destruct (Hgrow (glyph_components gA) ([], ps1) Hvis') as [_ Hnone1].
    fold f1 in Hnone1.
    assert (HMf : memo (snd f1) ⊆ M).
    { etransitivity; [|exact HM]. apply insert_subseteq. apply Hnone1. left. }
    assert (HMn : M !! name = Some (own1 ++ merge_sort anchor_le (fst f1))).
    { eapply lookup_weaken; [|exact HM]. apply lookup_insert_eq. }
    assert (Hfold : ∀ comps a1 p1 a2 p2,
              (∀ v, v ∈ name :: visiting → memo p1 !! v = None) →
              memo (snd (fold_left (resolve_component res1 own1) comps (a1, p1)))
                ⊆ M →
              memo_sim M gsB (memo p1) (memo p2) →
              (∀ x, x ∈ names a2 → x ∈ names own1 ∨ x ∈ names a1) →
              memo_sim M gsB
                (memo (snd (fold_left (resolve_component res1 own1) comps (a1, p1))))
                (memo (snd (fold_left (resolve_component res2 own2) comps (a2, p2))))
              ∧ (∀ x, x ∈ names (fst (fold_left (resolve_component res2 own2)
                                        comps (a2, p2))) →
                      x ∈ names own1
                      ∨ x ∈ names (fst (fold_left (resolve_component res1 own1)
                                          comps (a1, p1))))
              ∧ ((∀ x, x ∈ names own1
                       ∨ x ∈ names (fst (fold_left (resolve_component res1 own1)
                                           comps (a1, p1))) →
                       x ∈ names own2) →
                 a2 = [] →
                 fst (fold_left (resolve_component res2 own2) comps (a2, p2)) = [])).
    { induction comps as [|c comps IHc]; intros a1 p1 a2 p2 Hv1 HMc Hs Ha.
      - cbn [fold_left fst snd]. auto.
      - rewrite !fold_resolve_cons. rewrite fold_resolve_cons in HMc.
        cbn [fst snd] in HMc |- *.
        pose proof (effective_anchors_memo gsA fuel (name :: visiting)
                      (baseGlyph c) p1 Hv1) as [Hsub1 Hv1'].
        fold res1 in Hsub1, Hv1'.
        pose proof (IH (name :: visiting) (baseGlyph c) p1 p2 Hv1) as Hcall.
        fold res1 res2 in Hcall.
        destruct (res1 (baseGlyph c) p1) as [inh1 pm1] eqn:Hr1.
        destruct (res2 (baseGlyph c) p2) as [inh2 pm2] eqn:Hr2.
        cbn [fst snd] in *.
        set (t := transformation c) in *.
        set (m1 := merge_component own1 a1 (map (transform_anchor t) inh1)) in *.
        set (m2 := merge_component own2 a2 (map (transform_anchor t) inh2)).
        destruct Hcall as (Hs' & Hnames & _); [|exact Hs|].
        { etransitivity; [|exact HMc].
          apply (Hgrow comps (m1, pm1)). exact Hv1'. }
        destruct (merge_component_names own1 a1 (map (transform_anchor t) inh1))
          as (M1 & M2 & _ & _). fold m1 in M1, M2.
        destruct (merge_component_names own2 a2 (map (transform_anchor t) inh2))
          as (_ & _ & N3 & N4). fold m2 in N3, N4.
        assert (Hinh : ∀ x, x ∈ names (map (transform_anchor t) inh2) →
                            is_attachment x = false →
                            x ∈ names own1 ∨ x ∈ names m1).
        { intros x Hx Hatt. apply M2; [|exact Hatt].
          rewrite names_transform in *. auto. }
        destruct (IHc m1 pm1 m2 pm2 Hv1' HMc Hs') as (Hs'' & Hn'' & Hnil'').
        { intros x Hx. apply N3 in Hx as [Hx|[Hx Hatt]]; [|auto].
          destruct (Ha x Hx); auto. }
        split; [exact Hs''|]. split; [exact Hn''|].
        intros Hsub ->. apply Hnil''; [exact Hsub|].
        apply N4; [|reflexivity]. intros x Hx Hatt. apply Hsub.
        destruct (Hinh x Hx Hatt) as [?|Hx1]; [left; assumption|].
        right. apply (fold_resolve_names res1 own1 comps (m1, pm1)). exact Hx1. }
    destruct (Hfold (glyph_components gA) [] ps1 [] ps2 Hvis' HMf Hsim)
      as (Hs & Hn & Hnil).
    { intros x Hx. cbn in Hx. apply elem_of_nil in Hx. contradiction. }
    fold f1 f2 in Hs, Hn, Hnil.
    assert (Hr1 : ∀ x, x ∈ names own1 ∨ x ∈ names (fst f1) →
                       x ∈ names (own1 ++ merge_sort anchor_le (fst f1))).
    { intros x Hx. rewrite map_app. apply elem_of_app.
      destruct Hx; [left; assumption|right; apply names_sorted; assumption]. }
    assert (Hown2 : ∀ x, x ∈ names own2 →
                         x ∈ names (own1 ++ merge_sort anchor_le (fst f1))).
    { intros x Hx. destruct Hanch as [Heq|HMB].
      - apply Hr1. left. rewrite Heq in Hx. exact Hx.
      - assert (own2 = own1 ++ merge_sort anchor_le (fst f1)) as <- by
          congruence. exact Hx. }
    assert (Hexact : M !! name = Some own2 →
                     own2 ++ merge_sort anchor_le (fst f2) = own2).
    { intros HMB.
      assert (Heq : own2 = own1 ++ merge_sort anchor_le (fst f1)) by congruence.
      rewrite Hnil; [apply app_nil_r| |reflexivity].
      intros x Hx. rewrite Heq. apply Hr1. exact Hx. }
    assert (Hnames2 : ∀ x, x ∈ names (own2 ++ merge_sort anchor_le (fst f2)) →
                           x ∈ names (own1 ++ merge_sort anchor_le (fst f1))).
    { intros x Hx. rewrite map_app in Hx. apply elem_of_app in Hx as [Hx|Hx].
      - apply Hown2. exact Hx.
      - apply Hr1. apply Hn. apply names_sorted. exact Hx. }
    split; [|split].
    + intros n. destruct (decide (n = name)) as [->|Hne].
      * rewrite !lookup_insert_eq. split; [exact Hnames2|].
        intros gB' HgB' HMB. assert (gB' = gB) as -> by congruence.
        apply Hexact. exact HMB.
      * rewrite !lookup_insert_ne by congruence. apply Hs.
    + exact Hnames2.
    + intros gB' [= <-] HMB _ _. apply Hexact. exact HMB.
Qed.

Lemma rewritten_dom (M : gmap string (list Anchor)) (gsA gsB : gmap string Glyph) :
  rewritten M gsA gsB → dom gsB = dom gsA.
Proof.
  intros HRel. apply set_eq. intros n. rewrite !elem_of_dom.
  specialize (HRel n).
  destruct (gsA !! n), (gsB !! n); try contradiction;
    split; intros [? ?]; eauto; discriminate.
Qed.

Lemma rewritten_size (M : gmap string (list Anchor)) (gsA gsB : gmap string Glyph) :
  rewritten M gsA gsB → size gsB = size gsA.
Proof.
  intros HRel. rewrite <- !size_dom. rewrite (rewritten_dom _ _ _ HRel).
  reflexivity.
Qed.

(** ** One step and the whole loop of the first pass *)

Lemma propagate_glyph_step (include : string → bool) (ls : LoopState)
    (name : string) :
  memo (ls_pass ls) ⊆ memo (ls_pass (propagate_glyph include ls name))
  ∧ (∀ n, n ≠ name →
       ls_glyphs (propagate_glyph include ls name) !! n = ls_glyphs ls !! n)
  ∧ (ls_glyphs (propagate_glyph include ls name) !! name
     = ls_glyphs ls !! name
     ∧ ls_modified (propagate_glyph include ls name) = ls_modified ls
     ∨ ∃ g r, ls_glyphs ls !! name = Some g
              ∧ ls_glyphs (propagate_glyph include ls name) !! name
                = Some (set_anchors r g)
              ∧ memo (ls_pass (propagate_glyph include ls name)) !! name
                = Some r
              ∧ r ≠ glyph_anchors g
              ∧ has_components g = true
              ∧ ls_modified (propagate_glyph include ls name)
                = {[name]} ∪ ls_modified ls).
Proof.
  unfold propagate_glyph.
  destruct (ls_glyphs ls !! name) as [g|] eqn:Hg; [|auto 6].
  destruct (include name && has_components g) eqn:Hinc; [|auto 6].
  apply andb_true_iff in Hinc as [_ Hcomp].
  assert (Hfuel : size (ls_glyphs ls) ≠ 0).
  { intros Hz. apply map_size_empty_inv in Hz. rewrite Hz in Hg.
    rewrite lookup_empty in Hg. discriminate. }
  pose proof (effective_anchors_memo (ls_glyphs ls) (size (ls_glyphs ls)) []
                name (ls_pass ls)) as Hgrow.
  pose proof (effective_anchors_memoized (ls_glyphs ls) (size (ls_glyphs ls))
                name (ls_pass ls) g Hg Hfuel) as Hmemo.
  destruct (effective_anchors (size (ls_glyphs ls)) (ls_glyphs ls) [] name
              (ls_pass ls)) as [r ps'].
  cbn [fst snd] in Hgrow, Hmemo.
  destruct Hgrow as [Hsub _].
  { intros v Hv. apply elem_of_nil in Hv. contradiction. }
  destruct (decide (r = glyph_anchors g)) as [Heq|Hne];
    cbn [ls_glyphs ls_pass ls_modified].
  - auto 6.
  - split; [exact Hsub|]. split.
    + intros n Hn. apply lookup_insert_ne. congruence.
    + right. exists g, r. rewrite lookup_insert_eq. auto 7.
Qed.

Lemma first_pass_rewritten (include : string → bool) (l : list string) :
  ∀ ls : LoopState,
    NoDup l →
    memo (ls_pass ls)
      ⊆ memo (ls_pass (fold_left (propagate_glyph include) l ls))
    ∧ rewritten (memo (ls_pass (fold_left (propagate_glyph include) l ls)))
        (ls_glyphs ls)
        (ls_glyphs (fold_left (propagate_glyph include) l ls))
    ∧ (∀ n, n ∉ l →
         ls_glyphs (fold_left (propagate_glyph include) l ls) !! n
         = ls_glyphs ls !! n).
Proof.
  induction l as [|name l IH]; intros ls Hnd; cbn [fold_left].
  - split; [reflexivity|]. split; [|auto].
    intros n. destruct (ls_glyphs ls !! n); auto.
  - apply NoDup_cons in Hnd as [Hnotin Hnd].
    destruct (IH (propagate_glyph include ls name) Hnd) as (Hsub & HRel & Hframe).
    destruct (propagate_glyph_step include ls name)
      as (Hsub1 & Hother & Hname).
    set (ls1 := propagate_glyph include ls name) in *.
    set (lsF := fold_left (propagate_glyph include) l ls1) in *.
    split; [etransitivity; eassumption|]. split.
    + intros n. destruct (decide (n = name)) as [->|Hne].
      * rewrite (Hframe name Hnotin).
        destruct Hname as [[-> _]|(g & r & Hg & Hg1 & Hm & _)].
        -- destruct (ls_glyphs ls !! name); auto.
        -- rewrite Hg, Hg1. split; [reflexivity|]. right. cbn.
           eapply lookup_weaken; eassumption.
      * specialize (HRel n). rewrite (Hother n Hne) in HRel. exact HRel.
    + intros n Hn. rewrite Hframe.
      * apply Hother. intros ->. apply Hn. left.
      * intros Hin. apply Hn. right. exact Hin.
Qed.

(** ** The second pass *)

Lemma second_pass (include : string → bool) (l : list string) :
  ∀ (ls1 : LoopState) (ps2 : PassState),
    NoDup l →
    memo_sim (memo (ls_pass (fold_left (propagate_glyph include) l ls1)))
             (ls_glyphs (fold_left (propagate_glyph include) l ls1))
             (memo (ls_pass ls1)) (memo ps2) →
    ∃ ps2',
      fold_left (propagate_glyph include) l
        (mkLoopState (ls_glyphs (fold_left (propagate_glyph include) l ls1))
                     ps2 ∅)
      = mkLoopState (ls_glyphs (fold_left (propagate_glyph include) l ls1))
                    ps2' ∅.
Proof.
  induction l as [|name l IH]; intros ls1 ps2 Hnd Hsim.
  - eexists. reflexivity.
  - destruct (first_pass_rewritten include (name :: l) ls1 Hnd)
      as (_ & HRel & _).
    apply NoDup_cons in Hnd as [Hnotin Hnd].
    cbn [fold_left] in *.
    destruct (first_pass_rewritten include l (propagate_glyph include ls1 name)
                Hnd) as (Hsub & _ & Hframe).
    set (ls1' := propagate_glyph include ls1 name) in *.
    set (lsF := fold_left (propagate_glyph include) l ls1') in *.
    set (M := memo (ls_pass lsF)) in *. set (gsF := ls_glyphs lsF) in *.
    assert (Hstep : ∃ ps2',
              propagate_glyph include (mkLoopState gsF ps2 ∅) name
              = mkLoopState gsF ps2' ∅
              ∧ memo_sim M gsF (memo (ls_pass ls1')) (memo ps2')).
    { pose proof (HRel name) as Hn. pose proof (Hframe name Hnotin) as Hfr.
      pose proof Hsub as Hsub'.
      unfold ls1' in Hfr, Hsub' |- *.
      unfold propagate_glyph in Hfr, Hsub' |- *.
      cbn [ls_glyphs ls_pass ls_modified]. revert Hfr Hsub'.
      destruct (ls_glyphs ls1 !! name) as [g|] eqn:Hg,
               (gsF !! name) as [gF|] eqn:HgF; try contradiction;
        [|intros _ _; exists ps2; split; [reflexivity|exact Hsim]].
      destruct Hn as [Hcomps _].
      assert (Hhas : has_components gF = has_components g).
      { unfold has_components. rewrite Hcomps. reflexivity. }
      rewrite Hhas.
      destruct (include name && has_components g) eqn:Hinc;
        [|intros _ _; exists ps2; split; [reflexivity|exact Hsim]].
      rewrite (rewritten_size _ _ _ HRel).
      assert (Hfuel : size (ls_glyphs ls1) ≠ 0).
      { intros Hz. apply map_size_empty_inv in Hz. rewrite Hz in Hg.
        rewrite lookup_empty in Hg. discriminate. }
      pose proof (effective_anchors_memoized (ls_glyphs ls1)
                    (size (ls_glyphs ls1)) name (ls_pass ls1) g Hg Hfuel)
        as Hmemo.
      pose proof (lockstep M (ls_glyphs ls1) gsF HRel (size (ls_glyphs ls1)) []
                    name (ls_pass ls1) ps2) as Hlock.
      destruct (effective_anchors (size (ls_glyphs ls1)) (ls_glyphs ls1) []
                  name (ls_pass ls1)) as [r1 ps1'] eqn:He1.
      destruct (effective_anchors (size (ls_glyphs ls1)) gsF [] name ps2)
        as [r2 ps2'] eqn:He2.
      cbn [fst snd] in Hmemo, Hlock.
      assert (Hpass : ls_pass
                (if decide (r1 = glyph_anchors g)
                 then mkLoopState (ls_glyphs ls1) ps1' (ls_modified ls1)
                 else mkLoopState (<[name := set_anchors r1 g]> (ls_glyphs ls1))
                        ps1' ({[name]} ∪ ls_modified ls1)) = ps1').
      { destruct (decide (r1 = glyph_anchors g)); reflexivity. }
      rewrite Hpass. intros Hfr Hsub'.
      assert (HgF' : glyph_anchors gF = r1).
      { destruct (decide (r1 = glyph_anchors g)) as [Heq|Hne];
          cbn [ls_glyphs] in Hfr.
        - rewrite Hg in Hfr. injection Hfr as ->. congruence.
        - rewrite lookup_insert_eq in Hfr. injection Hfr as ->. reflexivity. }
      destruct Hlock as (Hsim' & _ & Hexact); [| |exact Hsim|].
      { intros v Hv. apply elem_of_nil in Hv. contradiction. }
      { exact Hsub'. }
      assert (Hr2 : r2 = glyph_anchors gF).
      { apply Hexact; [exact HgF| |apply not_elem_of_nil|exact Hfuel].
        rewrite HgF'. eapply lookup_weaken; eassumption. }
      exists ps2'. rewrite decide_True by exact Hr2. split; [reflexivity|].
      exact Hsim'. }
    destruct Hstep as (ps2' & -> & Hsim').
    apply (IH ls1' ps2' Hnd Hsim').
Qed.

Lemma first_pass_modified (include : string → bool) (gs : gmap string Glyph)
    (l : list string) :
  ∀ ls : LoopState,
    NoDup l →
    (∀ n, n ∈ l → ls_glyphs ls !! n = gs !! n) →
    (∀ n, n ∈ ls_modified ls → anchors_changed gs (ls_glyphs ls) n) →
    ∀ n, n ∈ ls_modified (fold_left (propagate_glyph include) l ls) →
         anchors_changed gs
           (ls_glyphs (fold_left (propagate_glyph include) l ls)) n.
Proof.
  induction l as [|name l IH]; intros ls Hnd Hfresh Hmod; cbn [fold_left].
  - exact Hmod.
  - apply NoDup_cons in Hnd as [Hnotin Hnd].
    destruct (propagate_glyph_step include ls name) as (_ & Hother & Hname).
    apply IH; [exact Hnd| |].
    + intros n Hn. rewrite Hother; [apply Hfresh; right; exact Hn|].
      intros ->. contradiction.
    + assert (Hold : ∀ n, n ∈ ls_modified ls → n ≠ name).
      { intros n Hn ->. destruct (Hmod name Hn) as (g & g' & Hg & Hg' & _ & Hne).
        rewrite (Hfresh name) in Hg' by left. congruence. }
      intros n Hn. destruct Hname as [[Hsame Hm]|(g & r & Hg & Hg1 & _ & Hr & Hc & Hm)];
        rewrite Hm in Hn.
      * destruct (Hmod n Hn) as (g & g' & Hg & Hg' & Hc & Hne).
        exists g, g'. rewrite Hother by (apply Hold; exact Hn). auto.
      * apply elem_of_union in Hn as [Hn|Hn].
        -- apply elem_of_singleton in Hn as ->.
           exists g, (set_anchors r g). rewrite <- (Hfresh name) by left. auto.
        -- destruct (Hmod n Hn) as (g0 & g' & Hg0 & Hg' & Hc0 & Hne).
           exists g0, g'. rewrite Hother by (apply Hold; exact Hn). auto.
Qed.

(** C6. A second pass over the result of a first pass, with the same
    filter, reports no glyph as modified; and the glyphs a pass reports
    have components and their stored anchors differ from those they had:
    a glyph without components (empty or contours only) and a glyph whose
    computed anchors are the stored ones are never reported. *)
Theorem C6_propagation_idempotent
    (include : string → bool) (gs : gmap string Glyph) :
  pr_modified
    (propagate_anchors include (pr_glyphs (propagate_anchors include gs)))
  = ∅
  ∧ ∀ n, n ∈ pr_modified (propagate_anchors include gs) →
      ∃ g g', gs !! n = Some g
              ∧ pr_glyphs (propagate_anchors include gs) !! n = Some g'
              ∧ has_components g = true
              ∧ glyph_anchors g' ≠ glyph_anchors g.
Proof.
  unfold propagate_anchors. cbn [pr_glyphs pr_modified].
  set (ls0 := mkLoopState gs (mkPassState ∅ []) ∅).
  pose proof (NoDup_sorted_keys gs) as Hnd.
  destruct (first_pass_rewritten include (sorted_keys gs) ls0 Hnd)
    as (_ & HRel & _).
  split.
  - assert (Hkeys : sorted_keys
              (ls_glyphs (fold_left (propagate_glyph include) (sorted_keys gs) ls0))
            = sorted_keys gs).
    { unfold sorted_keys at 1 3. rewrite (rewritten_dom _ _ _ HRel).
      reflexivity. }
    rewrite Hkeys.
    destruct (second_pass include (sorted_keys gs) ls0 (mkPassState ∅ []) Hnd)
      as [ps2' Hrun].
    { intros n. cbn. rewrite lookup_empty. exact I. }
    rewrite Hrun. reflexivity.
  - apply (first_pass_modified include gs (sorted_keys gs) ls0 Hnd).
    + reflexivity.
    + intros n Hn. cbn in Hn. apply elem_of_empty in Hn. contradiction.
Qed.

(** ** Enough fuel *)

Lemma fold_resolve_ext
    (r1 r2 : string → PassState → list Anchor * PassState) (own : list Anchor) :
  (∀ b ps, r1 b ps = r2 b ps) →
  ∀ (comps : list Component) (acc : list Anchor * PassState),
    fold_left (resolve_component r1 own) comps acc
    = fold_left (resolve_component r2 own) comps acc.
Proof.
  intros Hext. induction comps as [|c comps IH]; intros acc; cbn [fold_left].
  - reflexivity.
  - unfold resolve_component at 2 4. rewrite Hext. apply IH.
Qed.

Lemma visiting_bound (gs : gmap string Glyph) (l : list string) :
  NoDup l → (∀ v, v ∈ l → is_Some (gs !! v)) → List.length l ≤ size gs.
Proof.
  intros Hnd Hsub. rewrite <- size_dom.
  change (size (dom gs)) with (List.length (elements (dom gs))).
  apply submseteq_length, NoDup_submseteq; [exact Hnd|].
  intros v Hv. apply elem_of_elements, elem_of_dom. auto.
Qed.

(** The recursion never runs out of fuel: one more unit of fuel than the
    glyphs that are not being visited changes nothing. *)
Lemma effective_anchors_fuel (gs : gmap string Glyph) (fuel : nat) :
  ∀ (visiting : list string) (name : string) (ps : PassState),
    NoDup visiting →
    (∀ v, v ∈ visiting → is_Some (gs !! v)) →
    size gs ≤ fuel + List.length visiting →
    effective_anchors (S fuel) gs visiting name ps
    = effective_anchors fuel gs visiting name ps.
Proof.
  induction fuel as [|fuel IH]; intros visiting name ps Hnd Hsub Hsize;
    [ rewrite (effective_anchors_eq 1), (effective_anchors_eq 0)
    | rewrite (effective_anchors_eq (S (S fuel))),
              (effective_anchors_eq (S fuel)) ];
    destruct (memo ps !! name); try reflexivity;
    destruct (bool_decide (name ∈ visiting)) eqn:Hin; try reflexivity;
    destruct (gs !! name) as [g|] eqn:Hg; try reflexivity;
    apply bool_decide_eq_false in Hin;
    assert (Hnd' : NoDup (name :: visiting)) by (apply NoDup_cons; auto);
    assert (Hsub' : ∀ v, v ∈ name :: visiting → is_Some (gs !! v))
      by (intros v Hv; apply elem_of_cons in Hv as [->|Hv]; eauto).
  - pose proof (visiting_bound gs (name :: visiting) Hnd' Hsub') as Hb.
    cbn [List.length] in Hb. lia.
  - cbv zeta.
    rewrite (fold_resolve_ext
               (effective_anchors (S fuel) gs (name :: visiting))
               (effective_anchors fuel gs (name :: visiting))).
    + reflexivity.
    + intros b p. apply IH; auto. cbn [List.length]. lia.
Qed.

(** From outside, any fuel from the number of glyphs on gives the result
    [propagate_glyph] uses. *)
Lemma effective_anchors_enough_fuel (gs : gmap string Glyph) (k : nat)
    (name : string) (ps : PassState) :
  effective_anchors (size gs + k) gs [] name ps
  = effective_anchors (size gs) gs [] name ps.
Proof.
  induction k as [|k IH].
  - rewrite Nat.add_0_r. reflexivity.
  - rewrite Nat.add_succ_r, <- IH. apply effective_anchors_fuel.
    + apply NoDup_nil_2.
    + intros v Hv. apply elem_of_nil in Hv. contradiction.
    + cbn [List.length]. lia.
Qed.

End PropagationFacts.

(** * Properties on concrete fonts *)

Section ConcreteFacts.
#[local] Existing Instance demo_ext.

(** Splits a conjunction of closed equations and evaluates each. *)
Ltac evaluate :=
  repeat match goal with |- _ ∧ _ => split end; vm_compute; reflexivity.

(** ** The instruction compiler on concrete fonts *)

Lemma C2_counterexample :
  (ufo_glyphs v2_ufo !! "a" = Some v2_glyph
   ∧ glyph_instructions (glyph_lib v2_glyph) = Some v2_ttdata
   ∧ v2_ttdata !! "formatVersion" = Some (VInt 2)
   ∧ compile_glyf v2_ufo no_glyf_state
     = (Ok tt, mkState (font no_glyf_state) [(DEBUG, msg_not_in_font "a")]))
  ∧ (ufo_glyphs listed_ufo !! "a" = Some listed_glyph
     ∧ glyph_instructions (glyph_lib listed_glyph) = Some listed_ttdata
     ∧ listed_ttdata !! "formatVersion" = Some (VList [VInt 2])
     ∧ compile_glyf listed_ufo bare_state = (Raise TypeError, bare_state))
  ∧ (ufo_glyphs early_ufo !! "b" = Some v2_glyph_b
     ∧ glyph_instructions (glyph_lib v2_glyph_b) = Some v2_ttdata
     ∧ v2_ttdata !! "formatVersion" = Some (VInt 2)
     ∧ glyf (font mixed_state) !! "b" = Some (simple_glyph None)
     ∧ compile_glyf early_ufo mixed_state = (Raise TypeError, mixed_state)).
Proof. evaluate. Qed.

Lemma C2_witness :
  v2_ttdata !! "formatVersion" = Some (VInt 2)
  ∧ py_int (Some (VInt 2)) = Ok 2%Z
  ∧ 2%Z ≠ 1%Z
  ∧ (_compile_program v2_ufo "fontProgram" tag_fpgm v2_state
       = (Raise NotImplementedError, v2_state)
     ∧ compile_fpgm v2_ufo v2_state = (Raise NotImplementedError, v2_state)
     ∧ compile_prep v2_ufo v2_state = (Raise NotImplementedError, v2_state))
  ∧ _compile_tt_glyph_program v2_ufo v2_glyph "a" v2_ttdata v2_state
    = (Raise NotImplementedError, v2_state)
  ∧ _compile_tt_glyph v2_ufo "a" v2_state = (Raise NotImplementedError, v2_state)
  ∧ compile_glyf v2_ufo v2_state = (Raise NotImplementedError, v2_state)
  ∧ glyf (font v2_state) !! "a" = Some (simple_glyph None).
Proof.
  assert (H1 : v2_ttdata !! "formatVersion" = Some (VInt 2)) by reflexivity.
  assert (H2 : py_int (Some (VInt 2)) = Ok 2%Z) by reflexivity.
  assert (H3 : 2%Z ≠ 1%Z) by lia.
  destruct (C2_format_version_fatal v2_ufo v2_glyph "a" "fontProgram" tag_fpgm
              v2_ttdata (VInt 2) 2%Z v2_state H1 H2 H3) as (Hfont & Hprog & Hglyph).
  destruct Hglyph as [Hstep Hloop]; [reflexivity|reflexivity| |].
  { exists (simple_glyph None). reflexivity. }
  destruct (Hloop [] [] v2_state) as [Hraise Hsame];
    [reflexivity|reflexivity|].
  split; [exact H1|]. split; [exact H2|]. split; [exact H3|].
  split; [apply Hfont; reflexivity|]. split; [exact Hprog|].
  split; [exact Hstep|]. split; [exact Hraise|reflexivity].
Defined.

Lemma C1_counterexample :
  (ufo_glyphs v2_ufo !! "a" = Some v2_glyph
   ∧ glyph_instructions (glyph_lib v2_glyph) = Some v2_ttdata
   ∧ v2_ttdata !! "id" = None
   ∧ compile_glyf v2_ufo v2_state = (Raise NotImplementedError, v2_state))
  ∧ (ufo_glyphs stale_ufo !! "a" = Some stale_glyph
     ∧ glyph_instructions (glyph_lib stale_glyph) = Some stale_ttdata
     ∧ hash_matches stale_ufo stale_glyph stale_ttdata = false
     ∧ fst (compile_glyf stale_ufo stale_state) = Ok tt
     ∧ program_of (snd (compile_glyf stale_ufo stale_state)) "a" = Some EmptyString)
  ∧ (ufo_glyphs dangling_ufo !! "a" = Some dangling_glyph
     ∧ glyph_instructions (glyph_lib dangling_glyph) = Some dangling_ttdata
     ∧ dangling_ttdata !! "id" = None
     ∧ HashPointPen_hash dangling_ufo dangling_glyph = Raise KeyError
     ∧ compile_glyf dangling_ufo bare_state = (Raise KeyError, bare_state))
  ∧ (ufo_glyphs v2_ufo !! "a" = Some v2_glyph
     ∧ glyph_instructions (glyph_lib v2_glyph) = Some v2_ttdata
     ∧ v2_ttdata !! "id" = None
     ∧ compile_glyf v2_ufo no_glyf_state
       = (Ok tt, mkState (font no_glyf_state) [(DEBUG, msg_not_in_font "a")])).
Proof. evaluate. Qed.

Lemma C1_witness :
  ufo_glyphs stale_ufo !! "a" = Some stale_glyph
  ∧ glyph_instructions (glyph_lib stale_glyph) = Some stale_ttdata
  ∧ py_int (stale_ttdata !! "formatVersion") = Ok 1%Z
  ∧ glyf (font bare_state) !! "a" = Some (simple_glyph None)
  ∧ HashPointPen_hash stale_ufo stale_glyph = Ok "w350"
  ∧ hash_matches stale_ufo stale_glyph stale_ttdata = false
  ∧ ∃ (st1 : State) (tg1 : TTGlyph),
      _compile_tt_glyph stale_ufo "a" bare_state = (Ok tt, st1)
      ∧ glyf (font st1) !! "a" = Some tg1
      ∧ program tg1 = None
      ∧ hash_error stale_glyph stale_ttdata ∈ log st1
      ∧ compile_glyf stale_ufo bare_state = (Ok tt, st1).
Proof.
  assert (H1 : ufo_glyphs stale_ufo !! "a" = Some stale_glyph) by reflexivity.
  assert (H2 : glyph_instructions (glyph_lib stale_glyph) = Some stale_ttdata)
    by reflexivity.
  assert (H3 : py_int (stale_ttdata !! "formatVersion") = Ok 1%Z)
    by reflexivity.
  assert (H4 : glyf (font bare_state) !! "a" = Some (simple_glyph None))
    by reflexivity.
  assert (H5 : HashPointPen_hash stale_ufo stale_glyph = Ok "w350")
    by reflexivity.
  assert (H6 : hash_matches stale_ufo stale_glyph stale_ttdata = false)
    by reflexivity.
  destruct (C1_hash_mismatch_no_program stale_ufo "a" stale_glyph stale_ttdata
              "w350" bare_state (simple_glyph None) H1 H2 H3 H4 H5 H6)
    as (st1 & tg1 & Hrun & Htg & _ & Hnone & Hlog & Hloop).
  split; [exact H1|]. split; [exact H2|]. split; [exact H3|].
  split; [exact H4|]. split; [exact H5|]. split; [exact H6|].
  exists st1, tg1. split; [exact Hrun|]. split; [exact Htg|].
  split; [apply Hnone; reflexivity|]. split; [exact Hlog|].
  apply (Hloop bare_state [] []); reflexivity.
Defined.

Lemma C4_counterexample :
  requests_metrics metrics_glyph (mkComponent "y" identity (Some "b")) = true
  ∧ requests_metrics metrics_glyph (mkComponent "z" identity (Some "c")) = true
  ∧ fst (_set_composite_flags metrics_glyph "g" metrics_state) = Ok tt
  ∧ component_flags (snd (_set_composite_flags metrics_glyph "g" metrics_state))
      "g" = [0x0600; 0x0204; 0x0004]%Z
  ∧ map (λ f, has_flag f USE_MY_METRICS) [0x0600; 0x0204; 0x0004]%Z
    = [true; true; false].
Proof. evaluate. Qed.

Lemma C4_witness :
  glyf (font metrics_state) !! "g" = Some (composite_glyph [0x0200; 0; 0]%Z)
  ∧ List.length (map (mkTTComponent "base") [0x0200; 0; 0]%Z)
    = List.length (glyph_components metrics_glyph)
  ∧ glyph_components metrics_glyph !! 1
    = Some (mkComponent "y" identity (Some "b"))
  ∧ requests_metrics metrics_glyph (mkComponent "y" identity (Some "b")) = true
  ∧ "b" ≠ EmptyString
  ∧ (∀ j uj, j < 1 → glyph_components metrics_glyph !! j = Some uj →
             requests_metrics metrics_glyph uj = false)
  ∧ ∃ (st' : State) (tg' : TTGlyph) (cs' : list TTComponent),
      _set_composite_flags metrics_glyph "g" metrics_state = (Ok tt, st')
      ∧ glyf (font st') !! "g" = Some tg'
      ∧ tt_components tg' = Some cs'
      ∧ (∀ c', cs' !! 1 = Some c' → has_flag (flags c') USE_MY_METRICS = true)
      ∧ (∀ c', cs' !! 2 = Some c' →
           has_flag (flags c') USE_MY_METRICS = false
           ∧ (WARNING, msg_metrics_ignored "c" "b" "g") ∈ log st')
      ∧ (∀ c', cs' !! 0 = Some c' → has_flag (flags c') USE_MY_METRICS = true).
Proof.
  assert (H1 : glyf (font metrics_state) !! "g"
               = Some (composite_glyph [0x0200; 0; 0]%Z)) by reflexivity.
  assert (H2 : tt_components (composite_glyph [0x0200; 0; 0]%Z)
               = Some (map (mkTTComponent "base") [0x0200; 0; 0]%Z))
    by reflexivity.
  assert (H3 : List.length (map (mkTTComponent "base") [0x0200; 0; 0]%Z)
               = List.length (glyph_components metrics_glyph)) by reflexivity.
  assert (H4 : glyph_components metrics_glyph !! 1
               = Some (mkComponent "y" identity (Some "b"))) by reflexivity.
  assert (H5 : requests_metrics metrics_glyph
                 (mkComponent "y" identity (Some "b")) = true) by reflexivity.
  assert (H6 : identifier (mkComponent "y" identity (Some "b")) = Some "b")
    by reflexivity.
  assert (H7 : "b" ≠ EmptyString) by discriminate.
  assert (H8 : ∀ j uj, j < 1 → glyph_components metrics_glyph !! j = Some uj →
                       requests_metrics metrics_glyph uj = false).
  { intros j uj Hj Huj. assert (j = 0) as -> by lia.
    injection Huj as <-. reflexivity. }
  destruct (C4_first_use_my_metrics_wins metrics_glyph "g" metrics_state
              (composite_glyph [0x0200; 0; 0]%Z)
              (map (mkTTComponent "base") [0x0200; 0; 0]%Z) 1
              (mkComponent "y" identity (Some "b")) "b"
              H1 H2 H3 H4 H5 H6 H7 H8)
    as (st' & tg' & cs' & Hrun & Htg & Hcs & _ & Hk & Hlater & Hkeep).
  split; [exact H1|]. split; [exact H3|]. split; [exact H4|].
  split; [exact H5|]. split; [exact H7|]. split; [exact H8|].
  exists st', tg', cs'. split; [exact Hrun|]. split; [exact Htg|].
  split; [exact Hcs|]. split; [exact Hk|]. split.
  - intros c' Hc'.
    apply (Hlater 2 (mkComponent "z" identity (Some "c")) "c" c');
      [lia|reflexivity|reflexivity|reflexivity|exact Hc'].
  - intros c' Hc'.
    rewrite (Hkeep 0 (mkComponent "x" identity None)
               (mkTTComponent "base" 0x0200%Z) c');
      [reflexivity|reflexivity|reflexivity|reflexivity|exact Hc'].
Defined.

(** The whole of [compile] on a font in order: both tables are created,
    the glyph gets its program, the limits follow. *)
Example compile_good_font :
  fst (compile good_ufo bare_state) = Ok tt
  ∧ fpgm (font (snd (compile good_ufo bare_state))) = Some "FDEF[ ]"
  ∧ prep (font (snd (compile good_ufo bare_state))) = Some "PUSHB[ ] 0"
  ∧ program_of (snd (compile good_ufo bare_state)) "a" = Some "SVTCA[0]"
  ∧ maxp (font (snd (compile good_ufo bare_state))) !! "maxStorage"
    = Some (VInt 5)
  ∧ maxp (font (snd (compile good_ufo bare_state))) !! "maxSizeOfInstructions"
    = Some (VInt 8)
  ∧ log (snd (compile good_ufo bare_state)) = [].
Proof. evaluate. Qed.

(** The test [if use_my_metrics_comp:] takes the empty identifier for
    "no component yet": both asking components end with the flag. *)
Example use_my_metrics_empty_identifier :
  fst (_set_composite_flags unnamed_glyph "g" unnamed_state) = Ok tt
  ∧ component_flags (snd (_set_composite_flags unnamed_glyph "g" unnamed_state))
      "g" = [0x0204; 0x0204]%Z
  ∧ log (snd (_set_composite_flags unnamed_glyph "g" unnamed_state)) = [].
Proof. evaluate. Qed.

Lemma C7_witness :
  glyf (font short_state) !! "g" = Some (composite_glyph [0; 0]%Z)
  ∧ List.length (map (mkTTComponent "base") [0; 0]%Z)
    ≠ List.length (glyph_components short_glyph)
  ∧ ∃ (st' : State) (tg' : TTGlyph),
      _set_composite_flags short_glyph "g" short_state = (Ok tt, st')
      ∧ glyf (font st') !! "g" = Some tg'
      ∧ tt_components tg' = Some (map (mkTTComponent "base") [0; 0]%Z)
      ∧ (∀ n, n ≠ "g" → glyf (font st') !! n = glyf (font short_state) !! n)
      ∧ log st' = log short_state ++ [(ERROR, msg_components_differ "g" 1 2)].
Proof.
  assert (H1 : glyf (font short_state) !! "g" = Some (composite_glyph [0; 0]%Z))
    by reflexivity.
  assert (H2 : tt_components (composite_glyph [0; 0]%Z)
               = Some (map (mkTTComponent "base") [0; 0]%Z)) by reflexivity.
  assert (H3 : List.length (map (mkTTComponent "base") [0; 0]%Z)
               ≠ List.length (glyph_components short_glyph))
    by (cbn; lia).
  split; [exact H1|]. split; [exact H3|].
  exact (C7_component_count_mismatch short_glyph "g" short_state
           (composite_glyph [0; 0]%Z) (map (mkTTComponent "base") [0; 0]%Z)
           H1 H2 H3).
Defined.

Lemma C8_witness :
  glyf (font metrics_state) !! "g" = Some (composite_glyph [0x0200; 0; 0]%Z)
  ∧ List.length (map (mkTTComponent "base") [0x0200; 0; 0]%Z)
    = List.length (glyph_components metrics_glyph)
  ∧ glyph_overlap (glyph_lib metrics_glyph) = Some (VBool true)
  ∧ ∃ (st' : State) (tg' : TTGlyph) (cs' : list TTComponent),
      _set_composite_flags metrics_glyph "g" metrics_state = (Ok tt, st')
      ∧ glyf (font st') !! "g" = Some tg'
      ∧ tt_components tg' = Some cs'
      ∧ List.length cs' = 3
      ∧ ∀ i c c',
          map (mkTTComponent "base") [0x0200; 0; 0]%Z !! i = Some c →
          cs' !! i = Some c' →
          has_flag (flags c') OVERLAP_COMPOUND
          = match i with
            | 0 => true
            | _ => has_flag (flags c) OVERLAP_COMPOUND
            end.
Proof.
  assert (H1 : glyf (font metrics_state) !! "g"
               = Some (composite_glyph [0x0200; 0; 0]%Z)) by reflexivity.
  assert (H2 : tt_components (composite_glyph [0x0200; 0; 0]%Z)
               = Some (map (mkTTComponent "base") [0x0200; 0; 0]%Z))
    by reflexivity.
  assert (H3 : List.length (map (mkTTComponent "base") [0x0200; 0; 0]%Z)
               = List.length (glyph_components metrics_glyph)) by reflexivity.
  split; [exact H1|]. split; [exact H3|]. split; [reflexivity|].
  exact (C8_overlap_compound_first_only metrics_glyph "g" metrics_state
           (composite_glyph [0x0200; 0; 0]%Z)
           (map (mkTTComponent "base") [0x0200; 0; 0]%Z) H1 H2 H3).
Defined.

Lemma C9_witness :
  (ufo_instructions six_limits_ufo = Some six_limits_ttdata
   ∧ ∃ st' : State,
       compile_maxp six_limits_ufo limits_state = (Ok tt, st')
       ∧ maxp (font st') !! "maxStorage" = Some (VInt 5)
       ∧ maxp (font st') !! "maxFunctionDefs" = Some (VInt 6)
       ∧ maxp (font st') !! "maxInstructionDefs" = Some (VInt 7)
       ∧ maxp (font st') !! "maxStackElements" = Some (VInt 8)
       ∧ maxp (font st') !! "maxZones" = Some (VInt 1)
       ∧ maxp (font st') !! "maxTwilightPoints" = Some (VInt 9)
       ∧ maxp (font st') !! "numGlyphs" = Some (VInt 3))
  ∧ (ufo_instructions limits_ufo = Some limits_ttdata
     ∧ ∃ st' : State,
         compile_maxp limits_ufo limits_state = (Ok tt, st')
         ∧ maxp (font st') !! "maxStorage" = Some (VInt 5)
         ∧ maxp (font st') !! "maxFunctionDefs" = None
         ∧ maxp (font st') !! "maxInstructionDefs" = None
         ∧ maxp (font st') !! "maxStackElements" = None
         ∧ maxp (font st') !! "maxZones" = Some (VInt 2)
         ∧ maxp (font st') !! "maxTwilightPoints" = None
         ∧ maxp (font st') !! "numGlyphs" = Some (VInt 3)).
Proof.
  assert (H1 : ufo_instructions six_limits_ufo = Some six_limits_ttdata)
    by reflexivity.
  assert (H2 : ufo_instructions limits_ufo = Some limits_ttdata)
    by reflexivity.
  assert (Hnum : "numGlyphs" ∉ ["maxStorage"; "maxFunctionDefs";
                                 "maxInstructionDefs"; "maxStackElements";
                                 "maxZones"; "maxTwilightPoints"]).
  { rewrite !elem_of_cons, elem_of_nil.
    intros H. repeat (destruct H as [H|H]; [discriminate H|]). exact H. }
  split.
  - destruct (C9_maxp_limits six_limits_ufo six_limits_ttdata limits_state H1)
      as (st' & Hrun & Hsix & Hother & _).
    split; [exact H1|]. exists st'. split; [exact Hrun|].
    split; [rewrite (Hsix "maxStorage"); [reflexivity|repeat constructor]|].
    split; [rewrite (Hsix "maxFunctionDefs"); [reflexivity|repeat constructor]|].
    split; [rewrite (Hsix "maxInstructionDefs"); [reflexivity|repeat constructor]|].
    split; [rewrite (Hsix "maxStackElements"); [reflexivity|repeat constructor]|].
    split; [rewrite (Hsix "maxZones"); [reflexivity|repeat constructor]|].
    split; [rewrite (Hsix "maxTwilightPoints"); [reflexivity|repeat constructor]|].
    rewrite (Hother "numGlyphs"); [reflexivity|exact Hnum|discriminate].
  - destruct (C9_maxp_limits limits_ufo limits_ttdata limits_state H2)
      as (st' & Hrun & Hsix & Hother & _).
    split; [exact H2|]. exists st'. split; [exact Hrun|].
    split; [rewrite (Hsix "maxStorage"); [reflexivity|repeat constructor]|].
    split; [rewrite (Hsix "maxFunctionDefs"); [reflexivity|repeat constructor]|].
    split; [rewrite (Hsix "maxInstructionDefs"); [reflexivity|repeat constructor]|].
    split; [rewrite (Hsix "maxStackElements"); [reflexivity|repeat constructor]|].
    split; [rewrite (Hsix "maxZones"); [reflexivity|repeat constructor]|].
    split; [rewrite (Hsix "maxTwilightPoints"); [reflexivity|repeat constructor]|].
    rewrite (Hother "numGlyphs"); [reflexivity|exact Hnum|discriminate].
Defined.

Lemma C10_counterexample :
  ufo_glyphs empty_ufo !! "a" = Some empty_glyph
  ∧ glyph_instructions (glyph_lib empty_glyph) = Some ∅
  ∧ (∅ : dict) !! "formatVersion" = None
  ∧ compile_glyf empty_ufo no_glyf_state
    = (Ok tt, mkState (font no_glyf_state) [(DEBUG, msg_not_in_font "a")]).
Proof. evaluate. Qed.

Lemma C10_witness :
  ufo_glyphs empty_ufo !! "a" = Some empty_glyph
  ∧ glyph_instructions (glyph_lib empty_glyph) = Some ∅
  ∧ (∅ : dict) !! "formatVersion" = None
  ∧ is_Some (glyf (font bare_state) !! "a")
  ∧ ufo_instructions empty_ufo = Some ∅
  ∧ _compile_tt_glyph empty_ufo "a" bare_state = (Raise TypeError, bare_state)
  ∧ compile_glyf empty_ufo bare_state = (Raise TypeError, bare_state)
  ∧ compile_fpgm empty_ufo bare_state = (Ok tt, bare_state)
  ∧ compile_prep empty_ufo bare_state = (Ok tt, bare_state).
Proof.
  assert (H1 : ufo_glyphs empty_ufo !! "a" = Some empty_glyph) by reflexivity.
  assert (H2 : glyph_instructions (glyph_lib empty_glyph) = Some ∅)
    by reflexivity.
  assert (H3 : (∅ : dict) !! "formatVersion" = None) by reflexivity.
  assert (H4 : is_Some (glyf (font bare_state) !! "a"))
    by (exists (simple_glyph None); reflexivity).
  assert (H5 : ufo_instructions empty_ufo = Some ∅) by reflexivity.
  destruct C10_missing_format_version as [Hglyph Hfont].
  destruct (Hglyph empty_ufo "a" empty_glyph ∅ bare_state H1 H2 H3 H4)
    as [Hstep Hloop].
  destruct (Hfont empty_ufo bare_state H5) as [Hfpgm Hprep].
  split; [exact H1|]. split; [exact H2|]. split; [exact H3|].
  split; [exact H4|]. split; [exact H5|]. split; [exact Hstep|].
  split; [|split; [exact Hfpgm|exact Hprep]].
  apply (Hloop [] [] bare_state); reflexivity.
Defined.

(** ** Anchor propagation on the test font *)

(** Assertions of [propagateAnchors_test.py] on its font. *)
Example test_empty_glyph :
  pr_modified (propagate_anchors (only "space") test_font) = ∅.
Proof. evaluate. Qed.

Example test_contour_glyph :
  pr_modified (propagate_anchors (only "a") test_font) = ∅.
Proof. evaluate. Qed.

Example test_single_component_glyph :
  pr_modified (propagate_anchors (only "a-cyr") test_font) = {["a-cyr"]}
  ∧ anchors_of "a-cyr" (pr_glyphs (propagate_anchors (only "a-cyr") test_font))
    = [mkAnchor "bottom" 175 0; mkAnchor "top" 175 300].
Proof. evaluate. Qed.

Example test_two_component_glyph :
  pr_modified (propagate_anchors (only "amacron") test_font) = {["amacron"]}
  ∧ anchors_of "amacron"
      (pr_glyphs (propagate_anchors (only "amacron") test_font))
    = [mkAnchor "bottom" 175 0; mkAnchor "top" 175 480].
Proof. evaluate. Qed.

Example test_three_component_glyph :
  pr_modified (propagate_anchors (only "adieresismacron") test_font)
  = {["adieresismacron"]}
  ∧ anchors_of "adieresismacron"
      (pr_glyphs (propagate_anchors (only "adieresismacron") test_font))
    = [mkAnchor "bottom" 175 0; mkAnchor "top" 175 660].
Proof. evaluate. Qed.

Example test_whole_font :
  pr_modified (propagate_anchors everything test_font)
  = {["a-cyr"; "amacron"; "adieresis"; "adieresismacron"; "amacrondieresis"]}.
Proof. evaluate. Qed.

Example test_logger :
  pr_log (propagate_anchors everything test_font)
  = [(INFO, "Glyphs with propagated anchors: 5")].
Proof. evaluate. Qed.

Example test_whole_font_twice :
  pr_modified
    (propagate_anchors everything
       (pr_glyphs (propagate_anchors everything test_font)))
  = ∅.
Proof. evaluate. Qed.

End ConcreteFacts.

(** * Further properties of the instruction compiler *)

Section ComponentFlagFacts.
Context `{ext : Externals}.

(** ** The loop over the components, position by position *)

(** A property [P i uc c c'] of one iteration (position, source
    component, compiled component before and after) that holds whatever
    [use_my_metrics_comp] is, holds at every position after the loop. *)
Lemma flags_loop_pointwise (glyph : Glyph)
    (P : nat → Component → TTComponent → TTComponent → Prop) :
  (∀ i uc umm c st,
     ∃ c' umm' st' lg,
       component_step glyph i (identifier uc) umm c st = (Ok (c', umm'), st')
       ∧ font st' = font st ∧ log st' = log st ++ lg ∧ P i uc c c') →
  ∀ (cs : list TTComponent) (i : nat) (umm : option string) (st : State),
    i + List.length cs ≤ List.length (glyph_components glyph) →
    ∃ cs' st' lg,
      flags_loop glyph i cs umm st = (Ok cs', st')
      ∧ font st' = font st ∧ log st' = log st ++ lg
      ∧ List.length cs' = List.length cs
      ∧ ∀ j c c' uj, cs !! j = Some c → cs' !! j = Some c' →
          glyph_components glyph !! (i + j) = Some uj → P (i + j) uj c c'.
Proof.
  intros Hone. induction cs as [|c cs IH]; intros i umm st Hlen.
  - exists [], st, []. cbn [flags_loop]. unfold ret.
    repeat split; auto using app_nil_r.
    intros j c c' uj Hj. rewrite lookup_nil in Hj. discriminate.
  - cbn [List.length] in Hlen.
    destruct (lookup_lt_is_Some_2 (glyph_components glyph) i) as [uc Huc];
      [lia|].
    destruct (Hone i uc umm c st)
      as (c1 & umm1 & st1 & lg1 & Hstep & Hf1 & Hl1 & HP).
    destruct (IH (S i) umm1 st1)
      as (cs' & st2 & lg2 & Hloop & Hf2 & Hl2 & Hlen' & Hrest); [lia|].
    exists (c1 :: cs'), st2, (lg1 ++ lg2).
    cbn [flags_loop]. rewrite Huc. unfold bind at 1. rewrite Hstep.
    cbn [fst snd]. unfold bind at 1. rewrite Hloop. unfold ret.
    split; [reflexivity|]. split; [congruence|].
    split; [rewrite Hl2, Hl1, app_assoc; reflexivity|].
    split; [cbn [List.length]; congruence|].
    intros [|j] d d' uj Hd Hd' Huj; cbn in Hd, Hd'.
    + injection Hd as <-. injection Hd' as <-. rewrite Nat.add_0_r in *.
      assert (uj = uc) as -> by congruence. exact HP.
    + rewrite Nat.add_succ_r in *. apply (Hrest j d d' uj Hd Hd' Huj).
Qed.

Ltac flag_bits :=
  change ROUND_XY_TO_GRID with (2 ^ 2)%Z;
  change USE_MY_METRICS with (2 ^ 9)%Z;
  change OVERLAP_COMPOUND with (2 ^ 10)%Z;
  rewrite ?has_flag_pow2 by lia;
  repeat first [ rewrite testbit_set_flag by lia
               | rewrite testbit_clear_flag by lia ];
  cbn [Z.eqb Pos.eqb negb];
  rewrite ?orb_false_r, ?andb_true_r, ?orb_true_r, ?andb_false_r;
  try reflexivity.

(** The rounding part of one loop iteration. *)
Lemma component_step_round
    (glyph : Glyph) (i : nat) (uc : Component) (umm : option string)
    (c : TTComponent) (st : State) :
  ∃ c' umm' st' lg,
    component_step glyph i (identifier uc) umm c st = (Ok (c', umm'), st')
    ∧ font st' = font st ∧ log st' = log st ++ lg
    ∧ has_flag (flags c') ROUND_XY_TO_GRID
      = match component_lib_of glyph (identifier uc) with
        | Some component_lib => lib_flag component_lib TRUETYPE_ROUND_KEY true
        | None => has_flag (flags c) ROUND_XY_TO_GRID
        end.
Proof.
  unfold component_step, bind, ret, logger.
  destruct (component_lib_of glyph (identifier uc)) as [clib|];
    [destruct (lib_flag clib TRUETYPE_ROUND_KEY true),
              (lib_flag clib TRUETYPE_METRICS_KEY false),
              (str_opt_bool umm)|];
    (eexists _, _, _, _; split; [reflexivity|]; split; [reflexivity|];
     split; [first [reflexivity | symmetry; apply app_nil_r]|]);
    cbn [fst snd flags];
    (destruct i as [|i'], (glyph_overlap (glyph_lib glyph)) as [v|];
     [destruct (py_bool v)| | |]); flag_bits.
Qed.

(** One loop iteration keeps the component's glyph name and every bit of
    its flags other than bits 2, 9 and 10. *)
Lemma component_step_frame
    (glyph : Glyph) (i : nat) (uc : Component) (umm : option string)
    (c : TTComponent) (st : State) :
  ∃ c' umm' st' lg,
    component_step glyph i (identifier uc) umm c st = (Ok (c', umm'), st')
    ∧ font st' = font st ∧ log st' = log st ++ lg
    ∧ (tt_glyphName c' = tt_glyphName c
       ∧ ∀ b : Z, b ≠ 2%Z → b ≠ 9%Z → b ≠ 10%Z →
           Z.testbit (flags c') b = Z.testbit (flags c) b).
Proof.
  unfold component_step, bind, ret, logger.
  destruct (component_lib_of glyph (identifier uc)) as [clib|];
    [destruct (lib_flag clib TRUETYPE_ROUND_KEY true),
              (lib_flag clib TRUETYPE_METRICS_KEY false),
              (str_opt_bool umm)|];
    (eexists _, _, _, _; split; [reflexivity|]; split; [reflexivity|];
     split; [first [reflexivity | symmetry; apply app_nil_r]|]);
    cbn [fst snd flags tt_glyphName];
    (split; [reflexivity|]);
    intros b H2 H9 H10;
    (destruct (Z.neg_nonneg_cases b) as [Hneg|Hpos];
     [rewrite !Z.testbit_neg_r by exact Hneg; reflexivity|]);
    (destruct i as [|i'], (glyph_overlap (glyph_lib glyph)) as [v|];
     [destruct (py_bool v)| | |]);
    change ROUND_XY_TO_GRID with (2 ^ 2)%Z;
    change USE_MY_METRICS with (2 ^ 9)%Z;
    change OVERLAP_COMPOUND with (2 ^ 10)%Z;
    repeat first [ rewrite testbit_set_flag by lia
                 | rewrite testbit_clear_flag by lia ];
    repeat match goal with
           | |- context [(?k =? b)%Z] =>
               let E := fresh in
               destruct (Z.eqb_spec k b) as [E|E]; [congruence|]
           end;
    cbn [negb]; rewrite ?orb_false_r, ?andb_true_r; reflexivity.
Qed.

(** X1. ROUND_XY_TO_GRID: with matching component counts, a component
    whose source component has a lib entry with the rounding or the
    metrics key ends with ROUND_XY_TO_GRID set, unless that entry has a
    falsy rounding value, in which case the bit is cleared; a component
    without such an entry keeps its bit. *)
Theorem round_xy_to_grid_default_on
    (glyph : Glyph) (name : string) (st : State) (tg : TTGlyph)
    (cs : list TTComponent) :
  glyf (font st) !! name = Some tg →
  tt_components tg = Some cs →
  List.length cs = List.length (glyph_components glyph) →
  ∃ (st' : State) (tg' : TTGlyph) (cs' : list TTComponent),
    _set_composite_flags glyph name st = (Ok tt, st')
    ∧ glyf (font st') !! name = Some tg'
    ∧ tt_components tg' = Some cs'
    ∧ List.length cs' = List.length cs
    ∧ ∀ i uc c c', glyph_components glyph !! i = Some uc →
        cs !! i = Some c → cs' !! i = Some c' →
        has_flag (flags c') ROUND_XY_TO_GRID
        = match component_lib_of glyph (identifier uc) with
          | Some component_lib =>
              match component_lib !! TRUETYPE_ROUND_KEY with
              | Some v => py_bool v
              | None => true
              end
          | None => has_flag (flags c) ROUND_XY_TO_GRID
          end.
Proof.
  intros Htg Hcs Hlen.
  destruct (flags_loop_pointwise glyph
              (λ _ uc c c',
                 has_flag (flags c') ROUND_XY_TO_GRID
                 = match component_lib_of glyph (identifier uc) with
                   | Some component_lib =>
                       lib_flag component_lib TRUETYPE_ROUND_KEY true
                   | None => has_flag (flags c) ROUND_XY_TO_GRID
                   end)
              (λ i uc umm c s, component_step_round glyph i uc umm c s)
              cs 0 None (after_program_cleanup name st))
    as (cs' & st1 & lg & Hloop & Hfont & _ & Hlen' & Hbits); [lia|].
  destruct (set_composite_flags_matching _ _ _ _ _ _ _ Htg Hcs Hlen Hloop Hfont)
    as (st' & Hrun & _ & Hname & _).
  exists st', (set_components cs' (without_empty_program tg)), cs'.
  split; [exact Hrun|]. split; [exact Hname|]. split; [reflexivity|].
  split; [exact Hlen'|].
  intros i uc c c' Huc Hc Hc'. exact (Hbits i c c' uc Hc Hc' Huc).
Qed.

(** X2. With matching component counts [_set_composite_flags] changes
    nothing of a component but the three flags it manages: the number of
    components, each component's glyph name and every bit of its flags
    other than ROUND_XY_TO_GRID (bit 2), USE_MY_METRICS (bit 9) and
    OVERLAP_COMPOUND (bit 10) are as before. *)
Theorem set_composite_flags_other_bits
    (glyph : Glyph) (name : string) (st : State) (tg : TTGlyph)
    (cs : list TTComponent) :
  glyf (font st) !! name = Some tg →
  tt_components tg = Some cs →
  List.length cs = List.length (glyph_components glyph) →
  ∃ (st' : State) (tg' : TTGlyph) (cs' : list TTComponent),
    _set_composite_flags glyph name st = (Ok tt, st')
    ∧ glyf (font st') !! name = Some tg'
    ∧ tt_components tg' = Some cs'
    ∧ List.length cs' = List.length cs
    ∧ ∀ i c c', cs !! i = Some c → cs' !! i = Some c' →
        tt_glyphName c' = tt_glyphName c
        ∧ ∀ b : Z, b ≠ 2%Z → b ≠ 9%Z → b ≠ 10%Z →
            Z.testbit (flags c') b = Z.testbit (flags c) b.
Proof.
  intros Htg Hcs Hlen.
  destruct (flags_loop_pointwise glyph
              (λ _ _ c c',
                 tt_glyphName c' = tt_glyphName c
                 ∧ ∀ b : Z, b ≠ 2%Z → b ≠ 9%Z → b ≠ 10%Z →
                     Z.testbit (flags c') b = Z.testbit (flags c) b)
              (λ i uc umm c s, component_step_frame glyph i uc umm c s)
              cs 0 None (after_program_cleanup name st))
    as (cs' & st1 & lg & Hloop & Hfont & _ & Hlen' & Hbits); [lia|].
  destruct (set_composite_flags_matching _ _ _ _ _ _ _ Htg Hcs Hlen Hloop Hfont)
    as (st' & Hrun & _ & Hname & _).
  exists st', (set_components cs' (without_empty_program tg)), cs'.
  split; [exact Hrun|]. split; [exact Hname|]. split; [reflexivity|].
  split; [exact Hlen'|].
  intros i c c' Hc Hc'.
  destruct (lookup_lt_is_Some_2 (glyph_components glyph) i) as [uc Huc].
  { rewrite <- Hlen. eapply lookup_lt_Some. exact Hc. }
  exact (Hbits i c c' uc Hc Hc' Huc).
Qed.

(** ** USE_MY_METRICS, position by position *)

Lemma named_requester_identifier (glyph : Glyph) (c : Component) :
  named_requester glyph c = true →
  ∃ id, identifier c = Some id ∧ id ≠ EmptyString.
Proof.
  unfold named_requester. intros [_ H]%andb_true_iff.
  destruct (identifier c) as [id|]; [|discriminate].
  exists id. split; [reflexivity|]. cbn in H.
  apply negb_true_iff, String.eqb_neq in H. exact H.
Qed.

Lemma first_named_requester_snoc (glyph : Glyph) (l : list Component)
    (c : Component) :
  first_named_requester glyph (l ++ [c])
  = match first_named_requester glyph l with
    | Some id => Some id
    | None => if named_requester glyph c then identifier c else None
    end.
Proof.
  induction l as [|a l IH]; cbn [first_named_requester app].
  - reflexivity.
  - destruct (named_requester glyph a) eqn:Ha; [|exact IH].
    destruct (named_requester_identifier _ _ Ha) as (id & -> & _). reflexivity.
Qed.

Lemma retained_before_S (glyph : Glyph) (i : nat) (uc : Component) :
  glyph_components glyph !! i = Some uc →
  retained_before glyph (S i)
  = match retained_before glyph i with
    | Some id => Some id
    | None => if named_requester glyph uc then identifier uc else None
    end.
Proof.
  intros Huc. unfold retained_before.
  rewrite (take_S_r _ _ _ Huc). apply first_named_requester_snoc.
Qed.

Lemma retained_before_nonempty (glyph : Glyph) (j : nat) (id : string) :
  retained_before glyph j = Some id → id ≠ EmptyString.
Proof.
  unfold retained_before.
  induction (take j (glyph_components glyph)) as [|a l IH];
    cbn [first_named_requester]; [discriminate|].
  destruct (named_requester glyph a) eqn:Ha; [|exact IH].
  destruct (named_requester_identifier _ _ Ha) as (id' & -> & Hne).
  intros [= <-]. exact Hne.
Qed.

(** No named requester before [j]: every component before [j] that asks
    for the flag has the empty string as its identifier. *)
Lemma retained_before_None (glyph : Glyph) (j : nat) :
  retained_before glyph j = None
  ↔ ∀ i ui, i < j → glyph_components glyph !! i = Some ui →
            requests_metrics glyph ui = true →
            identifier ui = Some EmptyString.
Proof.
  unfold retained_before.
  assert (Hlist : ∀ l, first_named_requester glyph l = None
                       ↔ Forall (λ c, named_requester glyph c = false) l).
  { induction l as [|a l IH]; cbn [first_named_requester].
    - split; [constructor|reflexivity].
    - rewrite Forall_cons, <- IH.
      destruct (named_requester glyph a) eqn:Ha.
      + destruct (named_requester_identifier _ _ Ha) as (id & -> & _).
        split; [discriminate|]. intros [? _]. discriminate.
      + tauto. }
  rewrite Hlist, Forall_lookup. split.
  - intros H i ui Hi Hui Hreq.
    assert (Hn : named_requester glyph ui = false).
    { apply (H i). rewrite lookup_take_lt by exact Hi. exact Hui. }
    unfold named_requester in Hn. rewrite Hreq in Hn. cbn [andb] in Hn.
    unfold requests_metrics, component_lib_of in Hreq.
    destruct (identifier ui) as [id|]; [|discriminate].
    cbn [str_opt_bool] in Hn. apply negb_false_iff, String.eqb_eq in Hn.
    congruence.
  - intros H i ui [Hui Hi]%lookup_take_Some. unfold named_requester.
    destruct (requests_metrics glyph ui) eqn:Hreq; [|reflexivity].
    rewrite (H i ui Hi Hui Hreq). reflexivity.
Qed.

Lemma flags_loop_retained (glyph : Glyph) (cs : list TTComponent) :
  ∀ (i : nat) (umm : option string) (st : State),
    i + List.length cs ≤ List.length (glyph_components glyph) →
    metrics_invariant glyph i umm →
    ∃ cs' st' lg,
      flags_loop glyph i cs umm st = (Ok cs', st')
      ∧ font st' = font st ∧ log st' = log st ++ lg
      ∧ List.length cs' = List.length cs
      ∧ ∀ j c' uj, cs' !! j = Some c' →
          glyph_components glyph !! (i + j) = Some uj →
          requests_metrics glyph uj = true →
          match retained_before glyph (i + j) with
          | Some idk =>
              has_flag (flags c') USE_MY_METRICS = false
              ∧ (WARNING, msg_metrics_ignored (default EmptyString (identifier uj))
                            idk (glyph_name glyph)) ∈ lg
          | None => has_flag (flags c') USE_MY_METRICS = true
          end.
Proof.
  induction cs as [|c cs IH]; intros i umm st Hlen Hinv.
  - exists [], st, []. cbn [flags_loop]. unfold ret.
    repeat split; auto using app_nil_r.
    intros j c' uj Hj. rewrite lookup_nil in Hj. discriminate.
  - cbn [List.length] in Hlen.
    destruct (lookup_lt_is_Some_2 (glyph_components glyph) i) as [uc Huc];
      [lia|].
    destruct (component_step_metrics glyph i uc umm c st)
      as (c1 & umm1 & st1 & lg1 & Hstep & Hf1 & Hl1 & Hprop).
    assert (Hnext : metrics_invariant glyph (S i) umm1).
    { unfold metrics_invariant in *. rewrite (retained_before_S _ _ _ Huc).
      unfold named_requester.
      destruct (requests_metrics glyph uc) eqn:Hr; cbn [andb].
      - destruct (str_opt_bool umm) eqn:Hu.
        + destruct Hprop as (_ & -> & _). rewrite Hu, Hinv.
          destruct umm; [reflexivity|discriminate].
        + destruct Hprop as (_ & -> & _). rewrite Hinv.
          destruct (str_opt_bool (identifier uc)); reflexivity.
      - destruct Hprop as (_ & -> & _).
        destruct (str_opt_bool umm) eqn:Hu; rewrite Hinv.
        + destruct umm; [reflexivity|discriminate].
        + reflexivity. }
    destruct (IH (S i) umm1 st1)
      as (cs' & st2 & lg2 & Hloop & Hf2 & Hl2 & Hlen' & Hrest); [lia|exact Hnext|].
    exists (c1 :: cs'), st2, (lg1 ++ lg2).
    cbn [flags_loop]. rewrite Huc. unfold bind at 1. rewrite Hstep.
    cbn [fst snd]. unfold bind at 1. rewrite Hloop. unfold ret.
    split; [reflexivity|]. split; [congruence|].
    split; [rewrite Hl2, Hl1, app_assoc; reflexivity|].
    split; [cbn [List.length]; congruence|].
    intros [|j] d' uj Hd' Huj Hrj; cbn in Hd'.
    + injection Hd' as <-. rewrite Nat.add_0_r in *.
      assert (uj = uc) as -> by congruence.
      rewrite Hrj in Hprop. unfold metrics_invariant in Hinv.
      destruct (str_opt_bool umm) eqn:Hu.
      * destruct Hprop as (Hbit & _ & ->). rewrite Hinv.
        destruct umm as [idk|]; [|discriminate]. cbn [default].
        split; [exact Hbit|]. apply elem_of_app. left.
        apply list_elem_of_singleton. reflexivity.
      * rewrite Hinv. tauto.
    + rewrite Nat.add_succ_r in *.
      specialize (Hrest j d' uj Hd' Huj Hrj).
      change (S i + j) with (S (i + j)) in Hrest.
      destruct (retained_before glyph (S (i + j))) as [idk|]; [|exact Hrest].
      destruct Hrest as (Hbit & Hin). split; [exact Hbit|].
      apply elem_of_app. right. exact Hin.
Qed.

(** X3. USE_MY_METRICS, for every composite with matching component
    counts: a component that asks for the flag ends with it set exactly
    when every earlier asking component has the empty string as its
    identifier ([retained_before] is [None]); otherwise its bit is
    cleared and a warning naming it and the first earlier asking
    component with a non-empty identifier is logged.  An asking component
    whose identifier is the empty string therefore gets the flag without
    keeping later ones from getting it too. *)
Theorem use_my_metrics_by_position
    (glyph : Glyph) (name : string) (st : State) (tg : TTGlyph)
    (cs : list TTComponent) :
  glyf (font st) !! name = Some tg →
  tt_components tg = Some cs →
  List.length cs = List.length (glyph_components glyph) →
  ∃ (st' : State) (tg' : TTGlyph) (cs' : list TTComponent),
    _set_composite_flags glyph name st = (Ok tt, st')
    ∧ glyf (font st') !! name = Some tg'
    ∧ tt_components tg' = Some cs'
    ∧ List.length cs' = List.length cs
    ∧ (∀ j uj c', glyph_components glyph !! j = Some uj →
         requests_metrics glyph uj = true →
         cs' !! j = Some c' →
         match retained_before glyph j with
         | Some idk =>
             idk ≠ EmptyString
             ∧ has_flag (flags c') USE_MY_METRICS = false
             ∧ (WARNING, msg_metrics_ignored (default EmptyString (identifier uj))
                           idk (glyph_name glyph)) ∈ log st'
         | None => has_flag (flags c') USE_MY_METRICS = true
         end)
    ∧ ∀ j, retained_before glyph j = None
           ↔ ∀ i ui, i < j → glyph_components glyph !! i = Some ui →
                     requests_metrics glyph ui = true →
                     identifier ui = Some EmptyString.
Proof.
  intros Htg Hcs Hlen.
  destruct (flags_loop_retained glyph cs 0 None (after_program_cleanup name st))
    as (cs' & st1 & lg & Hloop & Hfont & Hlog & Hlen' & Hbits);
    [lia|reflexivity|].
  destruct (set_composite_flags_matching _ _ _ _ _ _ _ Htg Hcs Hlen Hloop Hfont)
    as (st' & Hrun & Hlog' & Hname & _).
  exists st', (set_components cs' (without_empty_program tg)), cs'.
  split; [exact Hrun|]. split; [exact Hname|]. split; [reflexivity|].
  split; [exact Hlen'|]. split; [|apply retained_before_None].
  intros j uj c' Huj Hrj Hc'.
  specialize (Hbits j c' uj Hc' Huj Hrj). cbn [Nat.add] in Hbits.
  destruct (retained_before glyph j) as [idk|] eqn:Hret; [|exact Hbits].
  destruct Hbits as (Hbit & Hin).
  split; [eapply retained_before_nonempty; exact Hret|].
  split; [exact Hbit|].
  rewrite Hlog', Hlog. apply elem_of_app. right. exact Hin.
Qed.

End ComponentFlagFacts.

(** * Further properties of [compile_glyf] and [compile] *)

Section GlyphProgramFacts.
Context `{ext : Externals}.

(** ** One glyph *)

(** The step of a glyph with metadata whose program phase returned. *)
Lemma compile_tt_glyph_after_program (ufo : UFO) (name : string) (glyph : Glyph)
    (d : dict) (s s0 : State) (tg tg0 : TTGlyph) :
  ufo_glyphs ufo !! name = Some glyph →
  glyph_instructions (glyph_lib glyph) = Some d →
  glyf (font s) !! name = Some tg →
  _compile_tt_glyph_program ufo glyph name d s = (Ok tt, s0) →
  glyf (font s0) !! name = Some tg0 →
  tt_components tg0 = tt_components tg →
  ∃ s1 tg1,
    _compile_tt_glyph ufo name s = (Ok tt, s1)
    ∧ glyf (font s1) !! name = Some tg1
    ∧ program tg1
      = program (if isComposite tg then without_empty_program tg0 else tg0)
    ∧ glyph_step name s0 s1
    ∧ (isComposite tg = false → s1 = s0).
Proof.
  intros Hg Hd Hs Hprog Hs0 Hcomp. unfold _compile_tt_glyph. rewrite Hg, Hd.
  unfold bind at 1. unfold get_font at 1. rewrite Hs.
  unfold bind at 1. rewrite Hprog.
  unfold isComposite. destruct (tt_components tg) as [cs|] eqn:Hcs.
  - destruct (set_composite_flags_total glyph name s0 tg0 cs Hs0)
      as (s1 & tg1 & Hrun & Hst & Htg1 & Hp1); [congruence|].
    exists s1, tg1. split; [exact Hrun|]. split; [exact Htg1|].
    split; [exact Hp1|]. split; [exact Hst|discriminate].
  - exists s0, tg0. split; [reflexivity|]. split; [exact Hs0|].
    split; [reflexivity|]. split; [apply glyph_step_refl|reflexivity].
Qed.

(** The program phase of a glyph with a supported format and a matching
    hash. *)
Lemma compile_tt_glyph_program_matching (ufo : UFO) (glyph : Glyph)
    (name : string) (d : dict) (st : State) :
  py_int (d !! "formatVersion") = Ok 1%Z →
  hash_matches ufo glyph d = true →
  _compile_tt_glyph_program ufo glyph name d st
  = match d !! "assembly" with
    | Some asm =>
        match fromAssembly new_Program asm with
        | Ok p => (Ok tt, with_program name p st)
        | Raise e => (Raise e, with_program name new_Program st)
        end
    | None =>
        (Ok tt,
         mkState (font st)
           (log st ++ [(ERROR, msg_assembly_missing (glyph_name glyph))]))
    end.
Proof.
  intros Hfmt Hhash. rewrite compile_tt_glyph_program_run, Hfmt.
  cbn [Z.eqb Pos.eqb negb].
  destruct (hash_matches_computed _ _ _ Hhash) as [hash ->].
  rewrite Hhash. reflexivity.
Qed.

(** The step of a glyph of the [glyf] table whose program phase raises. *)
Lemma compile_tt_glyph_program_raises (ufo : UFO) (name : string)
    (glyph : Glyph) (d : dict) (s s' : State) (e : exn) :
  ufo_glyphs ufo !! name = Some glyph →
  glyph_instructions (glyph_lib glyph) = Some d →
  is_Some (glyf (font s) !! name) →
  _compile_tt_glyph_program ufo glyph name d s = (Raise e, s') →
  _compile_tt_glyph ufo name s = (Raise e, s').
Proof.
  intros Hg Hd [tg Htg] Hprog. unfold _compile_tt_glyph. rewrite Hg, Hd.
  unfold bind at 1. unfold get_font at 1. rewrite Htg.
  unfold bind at 1. rewrite Hprog. reflexivity.
Qed.

(** X4. A glyph of the [glyf] table whose metadata has format version
    1, a stored [id] equal to the hash of the current outline and an
    [assembly] that [fromAssembly] accepts: its step of [compile_glyf]
    returns normally and replaces whatever program the compiled glyph had
    by the program assembled from that entry; only for a composite an
    assembled program that is empty is removed again.  No other glyph
    changes, and for a simple glyph nothing is logged. *)
Theorem matching_hash_attaches_program
    (ufo : UFO) (name : string) (glyph : Glyph) (d : dict) (asm : value)
    (p : Program) (st : State) (tg : TTGlyph) :
  ufo_glyphs ufo !! name = Some glyph →
  glyph_instructions (glyph_lib glyph) = Some d →
  py_int (d !! "formatVersion") = Ok 1%Z →
  glyf (font st) !! name = Some tg →
  hash_matches ufo glyph d = true →
  d !! "assembly" = Some asm →
  fromAssembly new_Program asm = Ok p →
  ∃ (st1 : State) (tg1 : TTGlyph),
    _compile_tt_glyph ufo name st = (Ok tt, st1)
    ∧ glyf (font st1) !! name = Some tg1
    ∧ program tg1
      = (if isComposite tg && negb (Program_bool p) then None else Some p)
    ∧ (∀ n, n ≠ name → glyf (font st1) !! n = glyf (font st) !! n)
    ∧ (isComposite tg = false →
       tg1 = set_program (Some p) tg ∧ log st1 = log st).
Proof.
  intros Hg Hd Hfmt Htg Hhash Hasm Hp.
  set (s0 := with_program name p st).
  assert (Hprog : _compile_tt_glyph_program ufo glyph name d st = (Ok tt, s0)).
  { rewrite (compile_tt_glyph_program_matching _ _ _ _ _ Hfmt Hhash).
    rewrite Hasm, Hp. reflexivity. }
  assert (Hs0 : glyf (font s0) !! name = Some (set_program (Some p) tg)).
  { unfold s0, with_program. cbn [font glyf].
    rewrite lookup_alter_eq, Htg. reflexivity. }
  destruct (compile_tt_glyph_after_program ufo name glyph d st s0 tg
              (set_program (Some p) tg) Hg Hd Htg Hprog Hs0 eq_refl)
    as (s1 & tg1 & Hrun & Htg1 & Hp1 & Hstep & Hsimple).
  exists s1, tg1. split; [exact Hrun|]. split; [exact Htg1|]. split; [|split].
  - rewrite Hp1. unfold without_empty_program, set_program. cbn [program].
    destruct (isComposite tg); [|reflexivity].
    destruct (Program_bool p); reflexivity.
  - intros n Hn. rewrite (glyph_step_other _ _ _ _ Hstep Hn).
    unfold s0, with_program. cbn [font glyf]. apply lookup_alter_ne. congruence.
  - intros Hc. specialize (Hsimple Hc). subst s1.
    split; [congruence|reflexivity].
Qed.

(** X5. The same glyph without an [assembly] entry: its step returns
    normally, attaches no program (the program attribute is what it was,
    an empty one removed from a composite) and logs the missing-assembly
    error; no other glyph changes. *)
Theorem missing_assembly_no_program
    (ufo : UFO) (name : string) (glyph : Glyph) (d : dict)
    (st : State) (tg : TTGlyph) :
  ufo_glyphs ufo !! name = Some glyph →
  glyph_instructions (glyph_lib glyph) = Some d →
  py_int (d !! "formatVersion") = Ok 1%Z →
  glyf (font st) !! name = Some tg →
  hash_matches ufo glyph d = true →
  d !! "assembly" = None →
  ∃ (st1 : State) (tg1 : TTGlyph),
    _compile_tt_glyph ufo name st = (Ok tt, st1)
    ∧ glyf (font st1) !! name = Some tg1
    ∧ program tg1
      = program (if isComposite tg then without_empty_program tg else tg)
    ∧ (∀ n, n ≠ name → glyf (font st1) !! n = glyf (font st) !! n)
    ∧ (ERROR, msg_assembly_missing (glyph_name glyph)) ∈ log st1.
Proof.
  intros Hg Hd Hfmt Htg Hhash Hasm.
  set (r := (ERROR, msg_assembly_missing (glyph_name glyph))).
  set (s0 := mkState (font st) (log st ++ [r])).
  assert (Hprog : _compile_tt_glyph_program ufo glyph name d st = (Ok tt, s0)).
  { rewrite (compile_tt_glyph_program_matching _ _ _ _ _ Hfmt Hhash).
    rewrite Hasm. reflexivity. }
  destruct (compile_tt_glyph_after_program ufo name glyph d st s0 tg tg
              Hg Hd Htg Hprog Htg eq_refl)
    as (s1 & tg1 & Hrun & Htg1 & Hp1 & Hstep & _).
  exists s1, tg1. split; [exact Hrun|]. split; [exact Htg1|].
  split; [exact Hp1|]. split.
  - intros n Hn. exact (glyph_step_other _ _ _ _ Hstep Hn).
  - eapply glyph_step_mono_log; [exact Hstep|].
    apply elem_of_app. right. apply list_elem_of_singleton. reflexivity.
Qed.

(** X25. The same glyph with an [assembly] that [fromAssembly] refuses
    with the exception [e]: the fresh program of [Program()] has been
    attached before the assembly is read, so the glyph's step raises [e]
    and leaves that fresh program on the glyph, whatever program it had;
    nothing else changes, the composite flags are not set, and
    [compile_glyf] raises [e] in that state when its loop reaches the
    glyph. *)
Theorem refused_assembly_leaves_fresh_program
    (ufo : UFO) (name : string) (glyph : Glyph) (d : dict) (asm : value)
    (e : exn) (st : State) (tg : TTGlyph) :
  ufo_glyphs ufo !! name = Some glyph →
  glyph_instructions (glyph_lib glyph) = Some d →
  py_int (d !! "formatVersion") = Ok 1%Z →
  glyf (font st) !! name = Some tg →
  hash_matches ufo glyph d = true →
  d !! "assembly" = Some asm →
  fromAssembly new_Program asm = Raise e →
  _compile_tt_glyph ufo name st = (Raise e, with_program name new_Program st)
  ∧ glyf (font (with_program name new_Program st)) !! name
    = Some (mkTTGlyph (Some new_Program) (tt_components tg))
  ∧ (∀ n, n ≠ name →
       glyf (font (with_program name new_Program st)) !! n
       = glyf (font st) !! n)
  ∧ log (with_program name new_Program st) = log st
  ∧ ∀ (st0 : State) (before after : list string),
      sorted_keys (ufo_glyphs ufo) = before ++ name :: after →
      for_each (_compile_tt_glyph ufo) before st0 = (Ok tt, st) →
      compile_glyf ufo st0 = (Raise e, with_program name new_Program st).
Proof.
  intros Hg Hd Hfmt Htg Hhash Hasm He.
  assert (Hstep : _compile_tt_glyph ufo name st
                  = (Raise e, with_program name new_Program st)).
  { apply (compile_tt_glyph_program_raises ufo name glyph d); eauto.
    rewrite (compile_tt_glyph_program_matching _ _ _ _ _ Hfmt Hhash).
    rewrite Hasm, He. reflexivity. }
  split; [exact Hstep|]. unfold with_program at 1 2 3. cbn [font glyf log].
  split; [rewrite lookup_alter_eq, Htg; reflexivity|].
  split; [intros n Hn; apply lookup_alter_ne; congruence|].
  split; [reflexivity|].
  intros st0 before after Hsplit Hbefore. unfold compile_glyf.
  rewrite Hsplit, for_each_app. unfold bind at 1. rewrite Hbefore.
  cbn [for_each]. unfold bind at 1. rewrite Hstep. reflexivity.
Qed.

(** X26. A glyph of the [glyf] table whose metadata has format version 1
    and whose hash cannot be computed (drawing the glyph into the hash
    pen raises [e], as it does for a component whose base glyph is
    missing): the stored [id] is not looked at, the glyph's step raises
    [e] and changes nothing, and [compile_glyf] raises [e] when its loop
    reaches the glyph. *)
Theorem hash_pen_failure_is_fatal
    (ufo : UFO) (name : string) (glyph : Glyph) (d : dict) (e : exn)
    (st : State) :
  ufo_glyphs ufo !! name = Some glyph →
  glyph_instructions (glyph_lib glyph) = Some d →
  py_int (d !! "formatVersion") = Ok 1%Z →
  is_Some (glyf (font st) !! name) →
  HashPointPen_hash ufo glyph = Raise e →
  _compile_tt_glyph ufo name st = (Raise e, st)
  ∧ ∀ (st0 : State) (before after : list string),
      sorted_keys (ufo_glyphs ufo) = before ++ name :: after →
      for_each (_compile_tt_glyph ufo) before st0 = (Ok tt, st) →
      compile_glyf ufo st0 = (Raise e, st).
Proof.
  intros Hg Hd Hfmt Hsome Hpen.
  assert (Hstep : _compile_tt_glyph ufo name st = (Raise e, st)).
  { apply (compile_tt_glyph_program_raises ufo name glyph d); eauto.
    rewrite compile_tt_glyph_program_run, Hfmt, Hpen. reflexivity. }
  split; [exact Hstep|].
  intros st0 before after Hsplit Hbefore. unfold compile_glyf.
  rewrite Hsplit, for_each_app. unfold bind at 1. rewrite Hbefore.
  cbn [for_each]. unfold bind at 1. rewrite Hstep. reflexivity.
Qed.

(** X6. A glyph of the [glyf] table that carries no instruction
    metadata: its step returns normally; for a simple glyph the font and
    the log are left exactly as they were; a composite keeps a program
    that is not empty and loses one that is. *)
Theorem glyph_without_metadata
    (ufo : UFO) (name : string) (glyph : Glyph) (st : State) (tg : TTGlyph) :
  ufo_glyphs ufo !! name = Some glyph →
  glyph_instructions (glyph_lib glyph) = None →
  glyf (font st) !! name = Some tg →
  ∃ (st1 : State) (tg1 : TTGlyph),
    _compile_tt_glyph ufo name st = (Ok tt, st1)
    ∧ glyf (font st1) !! name = Some tg1
    ∧ program tg1
      = (if isComposite tg
         then match program tg with
              | Some p => if Program_bool p then Some p else None
              | None => None
              end
         else program tg)
    ∧ (isComposite tg = false → st1 = st).
Proof.
  intros Hg Hd Htg. unfold _compile_tt_glyph. rewrite Hg, Hd.
  unfold bind at 1. unfold get_font at 1. rewrite Htg.
  unfold bind at 1. unfold ret at 1.
  unfold isComposite. destruct (tt_components tg) as [cs|] eqn:Hcs.
  - destruct (set_composite_flags_total glyph name st tg cs Htg Hcs)
      as (s1 & tg1 & Hrun & _ & Htg1 & Hp1).
    exists s1, tg1. split; [exact Hrun|]. split; [exact Htg1|].
    split; [|discriminate]. rewrite Hp1. unfold without_empty_program.
    destruct (program tg) as [p|] eqn:Hp; [|exact Hp].
    destruct (Program_bool p); cbn [negb]; [exact Hp|reflexivity].
  - exists st, tg. repeat split; auto.
Qed.

(** ** How a step can fail *)

(** The step of a glyph of the UFO raises only in the program phase of a
    glyph of the [glyf] table, in one of the three ways of
    [glyph_raises]. *)
Lemma compile_tt_glyph_raise_inv (ufo : UFO) (name : string) (glyph : Glyph)
    (s s' : State) (e : exn) :
  ufo_glyphs ufo !! name = Some glyph →
  _compile_tt_glyph ufo name s = (Raise e, s') →
  is_Some (glyf (font s) !! name)
  ∧ ∃ d, glyph_instructions (glyph_lib glyph) = Some d
         ∧ glyph_raises ufo glyph name d e s s'.
Proof.
  intros Hg. unfold _compile_tt_glyph. rewrite Hg.
  unfold bind at 1. unfold get_font at 1.
  destruct (glyf (font s) !! name) as [tg|] eqn:Htg.
  2:{ destruct (glyph_instructions (glyph_lib glyph)); discriminate. }
  unfold bind at 1.
  destruct (glyph_instructions (glyph_lib glyph)) as [d|] eqn:Hd.
  - destruct (_compile_tt_glyph_program ufo glyph name d s) as [o1 s0] eqn:Hprog.
    pose proof (compile_tt_glyph_program_step _ _ _ _ _ _ _ Hprog) as Hstep.
    destruct o1 as [[]|e1].
    + destruct Hstep as (_ & _ & Hs & _).
      destruct (Hs tg Htg) as (tg0 & Htg0 & Hc0).
      unfold isComposite in *. destruct (tt_components tg) as [cs|].
      * destruct (tt_components tg0) as [cs0|] eqn:Hcs0; [|discriminate].
        destruct (set_composite_flags_total glyph name s0 tg0 cs0 Htg0 Hcs0)
          as (s1 & tg1 & Hrun & _).
        rewrite Hrun. discriminate.
      * discriminate.
    + intros [= <- <-]. split; [eauto|]. exists d. split; [reflexivity|].
      revert Hprog. rewrite compile_tt_glyph_program_run.
      destruct (py_int (d !! "formatVersion")) as [z|e0] eqn:Hz.
      * destruct (z =? 1)%Z eqn:Hz1; cbn [negb].
        -- apply Z.eqb_eq in Hz1. subst z.
           destruct (HashPointPen_hash ufo glyph) as [hash|e0] eqn:Hpen.
           ++ destruct (hash_matches ufo glyph d) eqn:Hhash; [|discriminate].
              destruct (d !! "assembly") as [asm|] eqn:Hasm; [|discriminate].
              destruct (fromAssembly new_Program asm) as [p|e0] eqn:Hp;
                [discriminate|].
              intros [= <- <-]. right. right. split; [exact Hz|].
              split; [exact Hhash|]. exists asm. auto.
           ++ intros [= <- <-]. right. left. auto.
        -- intros [= <- <-]. left. split; [|reflexivity].
           right. split; [reflexivity|].
           exists z. split; [exact Hz|]. apply Z.eqb_neq. exact Hz1.
      * intros [= <- <-]. left. split; [|reflexivity]. left. exact Hz.
  - unfold ret at 1. unfold isComposite.
    destruct (tt_components tg) as [cs|] eqn:Hcs.
    + destruct (set_composite_flags_total glyph name s tg cs Htg Hcs)
        as (s1 & tg1 & Hrun & _).
      rewrite Hrun. discriminate.
    + discriminate.
Qed.

(** ** The loop *)

Lemma for_each_raise_inv {A : Type} (body : A → M unit) (l : list A) :
  ∀ (st st' : State) (e : exn),
    for_each body l st = (Raise e, st') →
    ∃ l1 x l2 s1,
      l = l1 ++ x :: l2
      ∧ for_each body l1 st = (Ok tt, s1)
      ∧ body x s1 = (Raise e, st').
Proof.
  induction l as [|a l IH]; intros st st' e; cbn [for_each].
  - discriminate.
  - unfold bind. destruct (body a st) as [[[]|e1] s1] eqn:Ha.
    + intros Hrest. destruct (IH _ _ _ Hrest) as (l1 & x & l2 & s2 & -> & H1 & H2).
      exists (a :: l1), x, l2, s2. split; [reflexivity|]. split; [|exact H2].
      cbn [for_each]. unfold bind. rewrite Ha. exact H1.
    + intros [= <- <-]. exists [], a, l, st. repeat split; auto.
Qed.

Lemma for_each_ok_inv {A : Type} (body : A → M unit) (l1 l2 : list A) (x : A)
    (st st' : State) :
  for_each body (l1 ++ x :: l2) st = (Ok tt, st') →
  ∃ sa sb,
    for_each body l1 st = (Ok tt, sa)
    ∧ body x sa = (Ok tt, sb)
    ∧ for_each body l2 sb = (Ok tt, st').
Proof.
  rewrite for_each_app. unfold bind at 1.
  destruct (for_each body l1 st) as [[[]|e] sa] eqn:H1; [|discriminate].
  cbn [for_each]. unfold bind at 1.
  destruct (body x sa) as [[[]|e] sb] eqn:H2; [|discriminate].
  intros H. exists sa, sb. repeat split; [exact H2|exact H].
Qed.

(** Whatever its outcome, the loop is a sequence of [glyph_step]s. *)
Lemma compile_names_tables (ufo : UFO) (l : list string) :
  ∀ (st : State) (o : outcome unit) (st' : State),
    for_each (_compile_tt_glyph ufo) l st = (o, st') →
    fpgm (font st') = fpgm (font st)
    ∧ prep (font st') = prep (font st)
    ∧ maxp (font st') = maxp (font st)
    ∧ (∃ lg, log st' = log st ++ lg)
    ∧ (∀ n tg, glyf (font st) !! n = Some tg →
         ∃ tg', glyf (font st') !! n = Some tg'
                ∧ isComposite tg' = isComposite tg).
Proof.
  induction l as [|m l IH]; intros st o st'; cbn [for_each].
  - unfold ret. intros [= <- <-]. repeat split; eauto.
    exists []. symmetry. apply app_nil_r.
  - unfold bind.
    destruct (_compile_tt_glyph ufo m st) as [o1 st1] eqn:Hm.
    pose proof (compile_tt_glyph_step _ _ _ _ _ Hm)
      as (Ho & Hn & Hs & [lg1 Hl1] & Hf1 & Hp1 & Hm1).
    assert (Hone : ∀ n tg, glyf (font st) !! n = Some tg →
              ∃ tg', glyf (font st1) !! n = Some tg'
                     ∧ isComposite tg' = isComposite tg).
    { intros n tg Htg. destruct (decide (n = m)) as [->|Hne]; [auto|].
      exists tg. rewrite Ho by exact Hne. auto. }
    destruct o1 as [[]|e].
    + intros Hrest.
      destruct (IH _ _ _ Hrest) as (Hf2 & Hp2 & Hm2 & [lg2 Hl2] & Hs2).
      split; [congruence|]. split; [congruence|]. split; [congruence|].
      split; [exists (lg1 ++ lg2); rewrite Hl2, Hl1, app_assoc; reflexivity|].
      intros n tg Htg. destruct (Hone n tg Htg) as (tg1 & Htg1 & Hc1).
      destruct (Hs2 n tg1 Htg1) as (tg2 & Htg2 & Hc2).
      exists tg2. split; [exact Htg2|congruence].
    + intros [= <- <-]. repeat split; eauto.
Qed.

(** X7. Whatever its outcome, [compile_glyf] touches nothing but the
    compiled glyphs that are glyphs of the UFO: the [fpgm], [prep] and
    [maxp] tables are as before, the [glyf] table has the same glyph
    names, every glyph stays simple or composite as it was, a compiled
    glyph that is no glyph of the UFO is unchanged, and the records
    already in the log stay, in order, at its head. *)
Theorem compile_glyf_frame (ufo : UFO) (st : State) (o : outcome unit)
    (st' : State) :
  compile_glyf ufo st = (o, st') →
  fpgm (font st') = fpgm (font st)
  ∧ prep (font st') = prep (font st)
  ∧ maxp (font st') = maxp (font st)
  ∧ dom (glyf (font st')) = dom (glyf (font st))
  ∧ (∀ n tg, glyf (font st) !! n = Some tg →
       ∃ tg', glyf (font st') !! n = Some tg'
              ∧ isComposite tg' = isComposite tg)
  ∧ (∀ n, ufo_glyphs ufo !! n = None →
       glyf (font st') !! n = glyf (font st) !! n)
  ∧ ∃ lg, log st' = log st ++ lg.
Proof.
  unfold compile_glyf. intros Hrun.
  destruct (compile_names_tables _ _ _ _ _ Hrun) as (Hf & Hp & Hm & Hl & Hs).
  destruct (compile_names_frame _ _ _ _ _ Hrun) as (Ho & Hd & _).
  split; [exact Hf|]. split; [exact Hp|]. split; [exact Hm|].
  split; [|split; [exact Hs|split; [|exact Hl]]].
  - apply set_eq. intros n. rewrite !elem_of_dom. apply Hd.
  - intros n Hn. apply Ho. rewrite elem_of_sorted_keys, Hn.
    intros [x Hx]. discriminate.
Qed.

(** [compile_glyf] raises only at a glyph whose program phase raises. *)
Lemma compile_glyf_raise_inv (ufo : UFO) (st st' : State) (e : exn) :
  compile_glyf ufo st = (Raise e, st') →
  ∃ before name after glyph d s1,
    sorted_keys (ufo_glyphs ufo) = before ++ name :: after
    ∧ for_each (_compile_tt_glyph ufo) before st = (Ok tt, s1)
    ∧ _compile_tt_glyph ufo name s1 = (Raise e, st')
    ∧ ufo_glyphs ufo !! name = Some glyph
    ∧ glyph_instructions (glyph_lib glyph) = Some d
    ∧ is_Some (glyf (font st) !! name)
    ∧ glyph_raises ufo glyph name d e s1 st'.
Proof.
  unfold compile_glyf. intros Hrun.
  destruct (for_each_raise_inv _ _ _ _ _ Hrun)
    as (before & name & after & s1 & Hsplit & Hbefore & Hstep).
  assert (Hin : name ∈ sorted_keys (ufo_glyphs ufo)).
  { rewrite Hsplit. apply elem_of_app. right. left. }
  apply elem_of_sorted_keys in Hin as [glyph Hg].
  destruct (compile_tt_glyph_raise_inv _ _ _ _ _ _ Hg Hstep)
    as (Hsome & d & Hd & Hfail).
  exists before, name, after, glyph, d, s1.
  split; [exact Hsplit|]. split; [exact Hbefore|]. split; [exact Hstep|].
  split; [exact Hg|]. split; [exact Hd|]. split; [|exact Hfail].
  destruct (compile_names_frame _ _ _ _ _ Hbefore) as (_ & Hdom & _).
  apply Hdom. exact Hsome.
Qed.

(** X8. [compile_glyf] stops at the first glyph, in sorted order, whose
    step raises: when it raises [e], the names split into those before a
    glyph [name] and those after it, the glyphs before were processed
    normally, [name] is a glyph of the [glyf] table with metadata, and
    its step raised [e] in one of three ways: the format check failed, or
    the hash could not be computed, and then the final state is the one
    the glyphs before have left and [name] has not been touched; or the
    hash matched and the assembly was refused, and then the final state
    has in addition the fresh program of [Program()] on [name].  No glyph
    after [name] has been touched. *)
Theorem compile_glyf_stops_at_first_failure
    (ufo : UFO) (st st' : State) (e : exn) :
  compile_glyf ufo st = (Raise e, st') →
  ∃ (before : list string) (name : string) (after : list string)
    (glyph : Glyph) (d : dict) (s1 : State),
    sorted_keys (ufo_glyphs ufo) = before ++ name :: after
    ∧ for_each (_compile_tt_glyph ufo) before st = (Ok tt, s1)
    ∧ ufo_glyphs ufo !! name = Some glyph
    ∧ glyph_instructions (glyph_lib glyph) = Some d
    ∧ is_Some (glyf (font st) !! name)
    ∧ ((format_fails d e
        ∧ st' = s1
        ∧ glyf (font st') !! name = glyf (font st) !! name)
       ∨ (py_int (d !! "formatVersion") = Ok 1%Z
          ∧ HashPointPen_hash ufo glyph = Raise e
          ∧ st' = s1
          ∧ glyf (font st') !! name = glyf (font st) !! name)
       ∨ (py_int (d !! "formatVersion") = Ok 1%Z
          ∧ hash_matches ufo glyph d = true
          ∧ ∃ asm, d !! "assembly" = Some asm
                   ∧ fromAssembly new_Program asm = Raise e
                   ∧ st' = with_program name new_Program s1))
    ∧ ∀ n, n ∈ after → glyf (font st') !! n = glyf (font st) !! n.
Proof.
  intros Hrun.
  destruct (compile_glyf_raise_inv _ _ _ _ Hrun)
    as (before & name & after & glyph & d & s1 & Hsplit & Hbefore & Hstep
        & Hg & Hd & Hsome & Hfail).
  pose proof (NoDup_sorted_keys (ufo_glyphs ufo)) as Hnd.
  rewrite Hsplit in Hnd. apply NoDup_app in Hnd as (_ & Hnot & Hnd2).
  apply NoDup_cons in Hnd2 as (Hnot2 & _).
  destruct (compile_names_frame _ _ _ _ _ Hbefore) as (Ho & _).
  assert (Hname : glyf (font s1) !! name = glyf (font st) !! name).
  { apply Ho. intros Hin. exact (Hnot name Hin (list_elem_of_here _ _)). }
  exists before, name, after, glyph, d, s1.
  split; [exact Hsplit|]. split; [exact Hbefore|]. split; [exact Hg|].
  split; [exact Hd|]. split; [exact Hsome|]. split.
  - destruct Hfail as [[Hf ->]|[(Hfmt & Hpen & ->)|(Hfmt & Hhash & Hasm)]].
    + left. auto.
    + right. left. auto.
    + right. right. auto.
  - intros n Hn.
    rewrite (glyph_step_other name n s1 st'
               (compile_tt_glyph_step _ _ _ _ _ Hstep)).
    + apply Ho. intros Hin. apply (Hnot n Hin). right. exact Hn.
    + intros ->. contradiction.
Qed.

(** X9. When no glyph of the UFO is in the [glyf] table, [compile_glyf]
    returns normally whatever the glyphs' metadata is (no format check is
    made), leaves the font as it was, and logs one debug record for each
    glyph that carries metadata, in sorted order of the names. *)
Theorem compile_glyf_no_compiled_glyph (ufo : UFO) (st : State) :
  (∀ n, is_Some (ufo_glyphs ufo !! n) → glyf (font st) !! n = None) →
  ∃ st' : State,
    compile_glyf ufo st = (Ok tt, st')
    ∧ font st' = font st
    ∧ log st' = log st ++ map not_in_font_record
                            (List.filter (has_instructions ufo)
                               (sorted_keys (ufo_glyphs ufo))).
Proof.
  intros Hnone. unfold compile_glyf.
  assert (Hall : ∀ n, n ∈ sorted_keys (ufo_glyphs ufo) →
            is_Some (ufo_glyphs ufo !! n) ∧ glyf (font st) !! n = None).
  { intros n Hn%elem_of_sorted_keys. auto. }
  clear Hnone. revert st Hall.
  induction (sorted_keys (ufo_glyphs ufo)) as [|m l IH]; intros s Hall;
    cbn [for_each List.filter map].
  - exists s. unfold ret. rewrite app_nil_r. auto.
  - destruct (Hall m) as [[glyph Hg] Hm]; [left|].
    assert (Hstep : _compile_tt_glyph ufo m s
                    = (Ok tt, if has_instructions ufo m
                              then mkState (font s)
                                     (log s ++ [not_in_font_record m])
                              else s)).
    { unfold _compile_tt_glyph, has_instructions. rewrite Hg.
      unfold bind, get_font. rewrite Hm.
      destruct (glyph_instructions (glyph_lib glyph)); reflexivity. }
    unfold bind. rewrite Hstep.
    destruct (has_instructions ufo m).
    + destruct (IH (mkState (font s) (log s ++ [not_in_font_record m])))
        as (st' & Hrun & Hf & Hl).
      { intros n Hn. apply Hall. right. exact Hn. }
      exists st'. split; [exact Hrun|]. split; [exact Hf|].
      rewrite Hl. cbn [log map]. rewrite <- app_assoc. reflexivity.
    + apply IH. intros n Hn. apply Hall. right. exact Hn.
Qed.

(** ** Each glyph on its own *)







(** ** When [compile_glyf] returns *)

Lemma compile_tt_glyph_program_ok_inv (ufo : UFO) (glyph : Glyph)
    (name : string) (d : dict) (s s' : State) :
  _compile_tt_glyph_program ufo glyph name d s = (Ok tt, s') →
  glyph_compiles ufo glyph d.
Proof.
  rewrite compile_tt_glyph_program_run. unfold glyph_compiles.
  destruct (py_int (d !! "formatVersion")) as [z|e]; [|discriminate].
  destruct (z =? 1)%Z eqn:Hz; cbn [negb]; [|discriminate].
  apply Z.eqb_eq in Hz. subst z.
  destruct (HashPointPen_hash ufo glyph) as [hash|e]; [|discriminate].
  intros Hrun. split; [reflexivity|]. split; [eauto|].
  intros Hhash asm Hasm. rewrite Hhash, Hasm in Hrun.
  destruct (fromAssembly new_Program asm) as [p|e]; [eauto|discriminate].
Qed.

Lemma compile_tt_glyph_ok_inv (ufo : UFO) (name : string) (glyph : Glyph)
    (d : dict) (s s' : State) :
  ufo_glyphs ufo !! name = Some glyph →
  glyph_instructions (glyph_lib glyph) = Some d →
  is_Some (glyf (font s) !! name) →
  _compile_tt_glyph ufo name s = (Ok tt, s') →
  glyph_compiles ufo glyph d.
Proof.
  intros Hg Hd [tg Htg]. unfold _compile_tt_glyph. rewrite Hg, Hd.
  unfold bind at 1. unfold get_font at 1. rewrite Htg. unfold bind at 1.
  destruct (_compile_tt_glyph_program ufo glyph name d s) as [[[]|e] s0] eqn:Hprog;
    [|discriminate].
  intros _. eapply compile_tt_glyph_program_ok_inv. exact Hprog.
Qed.

(** X16. [compile_glyf] returns normally exactly when the program phase
    of no glyph raises: every glyph that carries metadata and is in the
    [glyf] table has format version 1, its hash can be computed and, if
    the stored [id] equals it, its [assembly] entry, if any, is accepted
    by [fromAssembly].  Nothing else makes [compile_glyf] raise. *)
Theorem compile_glyf_returns_iff_glyphs_compile (ufo : UFO) (st : State) :
  (∃ st', compile_glyf ufo st = (Ok tt, st'))
  ↔ (∀ name glyph d,
       ufo_glyphs ufo !! name = Some glyph →
       glyph_instructions (glyph_lib glyph) = Some d →
       is_Some (glyf (font st) !! name) →
       py_int (d !! "formatVersion") = Ok 1%Z
       ∧ (∃ hash, HashPointPen_hash ufo glyph = Ok hash)
       ∧ (hash_matches ufo glyph d = true →
          ∀ asm, d !! "assembly" = Some asm →
                 ∃ p, fromAssembly new_Program asm = Ok p)).
Proof.
  change (∀ name glyph d,
            ufo_glyphs ufo !! name = Some glyph →
            glyph_instructions (glyph_lib glyph) = Some d →
            is_Some (glyf (font st) !! name) →
            py_int (d !! "formatVersion") = Ok 1%Z
            ∧ (∃ hash, HashPointPen_hash ufo glyph = Ok hash)
            ∧ (hash_matches ufo glyph d = true →
               ∀ asm, d !! "assembly" = Some asm →
                      ∃ p, fromAssembly new_Program asm = Ok p))
    with (glyphs_compile ufo st).
  unfold compile_glyf. split.
  - intros [st' Hrun] m g dm Hm Hdm Hsome.
    assert (Hin : m ∈ sorted_keys (ufo_glyphs ufo)).
    { apply elem_of_sorted_keys. eauto. }
    apply list_elem_of_split in Hin as (l1 & l2 & Hsplit).
    rewrite Hsplit in Hrun.
    destruct (for_each_ok_inv _ _ _ _ _ _ Hrun) as (sa & sb & Ha & Hb & _).
    destruct (compile_names_frame _ _ _ _ _ Ha) as (_ & Hdom & _).
    eapply compile_tt_glyph_ok_inv; [exact Hm|exact Hdm| |exact Hb].
    apply Hdom. exact Hsome.
  - intros Hglyphs. apply compile_names_ok.
    intros m [g Hm]%elem_of_sorted_keys. exists g. split; [exact Hm|].
    intros d Hd Hsome. exact (Hglyphs m g d Hm Hd Hsome).
Qed.

End GlyphProgramFacts.

(** * Further properties of the font-level programs and of [compile] *)

Section CompileFacts.
Context `{ext : Externals}.

Lemma compile_program_unfold (ufo : UFO) (key : string) (tag : table_tag) :
  _compile_program ufo key tag
  = match font_ttdata ufo with
    | Some ttdata =>
        formatVersion <~ lift (py_int (ttdata !! "formatVersion")) ;;
        if negb (formatVersion =? 1)%Z then raise NotImplementedError
        else
          match ttdata !! key with
          | Some asm =>
              set_table tag new_Program ;;;
              p <~ lift (fromAssembly new_Program asm) ;;
              set_table tag p
          | None => ret tt
          end
    | None => ret tt
    end.
Proof.
  unfold _compile_program, font_ttdata.
  destruct (ufo_instructions ufo) as [d|]; [|reflexivity].
  destruct (dict_bool d); reflexivity.
Qed.

(** The last three statements of [_compile_program]: the table is put in
    the font with a fresh program, which is then assembled; an exception
    of the assembly leaves that table in the font. *)
Lemma new_table_run (tag : table_tag) (asm : value) (st : State) :
  (set_table tag new_Program ;;;
   p <~ lift (fromAssembly new_Program asm) ;;
   set_table tag p) st
  = match fromAssembly new_Program asm with
    | Ok p => (Ok tt, with_table tag p st)
    | Raise e => (Raise e, with_table tag new_Program st)
    end.
Proof.
  unfold set_table, bind, lift, get_font, put_font, with_table.
  destruct (fromAssembly new_Program asm) as [p|e];
    destruct tag; reflexivity.
Qed.

(** [_compile_program] when the format check passes, or is not made. *)
Lemma compile_program_run (ufo : UFO) (key : string) (tag : table_tag)
    (st : State) :
  (∀ d, font_ttdata ufo = Some d → py_int (d !! "formatVersion") = Ok 1%Z) →
  _compile_program ufo key tag st
  = match font_entry ufo key with
    | Some asm =>
        match fromAssembly new_Program asm with
        | Ok p => (Ok tt, with_table tag p st)
        | Raise e => (Raise e, with_table tag new_Program st)
        end
    | None => (Ok tt, st)
    end.
Proof.
  intros Hfmt. rewrite compile_program_unfold. unfold font_entry.
  destruct (font_ttdata ufo) as [d|]; [|reflexivity].
  unfold bind at 1. unfold lift at 1.
  rewrite (Hfmt d eq_refl). cbn [Z.eqb Pos.eqb negb].
  destruct (d !! key); [apply new_table_run|reflexivity].
Qed.

(** Whatever its outcome, [_compile_program] touches one table only. *)
Lemma compile_program_frame (ufo : UFO) (key : string) (tag : table_tag)
    (st : State) (o : outcome unit) (st' : State) :
  _compile_program ufo key tag st = (o, st') →
  glyf (font st') = glyf (font st)
  ∧ maxp (font st') = maxp (font st)
  ∧ log st' = log st
  ∧ match tag with
    | tag_fpgm => prep (font st') = prep (font st)
    | tag_prep => fpgm (font st') = fpgm (font st)
    end.
Proof.
  rewrite compile_program_unfold.
  destruct (font_ttdata ufo) as [d|];
    [|unfold ret; intros [= <- <-]; destruct tag; auto].
  unfold bind at 1. unfold lift at 1.
  destruct (py_int (d !! "formatVersion")) as [z|e0];
    [|intros [= <- <-]; destruct tag; auto].
  destruct (negb (z =? 1)%Z);
    [unfold raise; intros [= <- <-]; destruct tag; auto|].
  destruct (d !! key) as [asm|];
    [|unfold ret; intros [= <- <-]; destruct tag; auto].
  rewrite new_table_run.
  destruct (fromAssembly new_Program asm) as [p|e];
    destruct tag; intros [= <- <-]; cbn [with_table font log glyf maxp fpgm prep];
    auto.
Qed.

(** X11. The two font-level programs, when the font-level metadata is
    absent, empty, or has format version 1.  If [fromAssembly] accepts the
    [fontProgram] and the [controlValueProgram] entries that are there,
    [compile_fpgm] followed by [compile_prep] returns normally; [fpgm]
    holds the program assembled from [fontProgram] when the metadata has
    that key and is otherwise left as it was (a table already in the font
    is not removed), and likewise [prep] for [controlValueProgram]; the
    [glyf] and [maxp] tables and the log are unchanged.  If [fromAssembly]
    refuses the [fontProgram] entry with [e], [compile_fpgm] raises [e]
    after the new [fpgm] table has been put in the font: it is left there
    with the fresh program of [Program()], and nothing else has changed. *)
Theorem compile_fpgm_then_prep (ufo : UFO) (st : State) :
  (∀ d, font_ttdata ufo = Some d → py_int (d !! "formatVersion") = Ok 1%Z) →
  (assembles (font_entry ufo "fontProgram") →
   assembles (font_entry ufo "controlValueProgram") →
   ∃ st' : State,
     (compile_fpgm ufo ;;; compile_prep ufo) st = (Ok tt, st')
     ∧ (∀ asm, font_entry ufo "fontProgram" = Some asm →
          ∃ p, fromAssembly new_Program asm = Ok p
               ∧ fpgm (font st') = Some p)
     ∧ (font_entry ufo "fontProgram" = None →
          fpgm (font st') = fpgm (font st))
     ∧ (∀ asm, font_entry ufo "controlValueProgram" = Some asm →
          ∃ p, fromAssembly new_Program asm = Ok p
               ∧ prep (font st') = Some p)
     ∧ (font_entry ufo "controlValueProgram" = None →
          prep (font st') = prep (font st))
     ∧ glyf (font st') = glyf (font st)
     ∧ maxp (font st') = maxp (font st)
     ∧ log st' = log st)
  ∧ (∀ asm e,
       font_entry ufo "fontProgram" = Some asm →
       fromAssembly new_Program asm = Raise e →
       compile_fpgm ufo st
       = (Raise e,
          mkState (mkTTFont (Some new_Program) (prep (font st))
                     (glyf (font st)) (maxp (font st)))
                  (log st))).
Proof.
  intros Hfmt. split.
  - intros Hasm1 Hasm2. unfold compile_fpgm, compile_prep. unfold bind at 1.
    rewrite (compile_program_run _ _ _ _ Hfmt).
    destruct (font_entry ufo "fontProgram") as [asm1|] eqn:H1.
    + destruct (Hasm1 asm1 eq_refl) as [p1 Hp1]. rewrite Hp1.
      rewrite (compile_program_run _ _ _ _ Hfmt).
      destruct (font_entry ufo "controlValueProgram") as [asm2|] eqn:H2.
      * destruct (Hasm2 asm2 eq_refl) as [p2 Hp2]. rewrite Hp2.
        eexists. split; [reflexivity|].
        cbn [with_table font log fpgm prep glyf maxp].
        split; [intros asm [= <-]; eauto|]. split; [discriminate|].
        split; [intros asm [= <-]; eauto|]. split; [discriminate|].
        auto.
      * eexists. split; [reflexivity|].
        cbn [with_table font log fpgm prep glyf maxp].
        split; [intros asm [= <-]; eauto|]. split; [discriminate|].
        split; [discriminate|]. auto.
    + rewrite (compile_program_run _ _ _ _ Hfmt).
      destruct (font_entry ufo "controlValueProgram") as [asm2|] eqn:H2.
      * destruct (Hasm2 asm2 eq_refl) as [p2 Hp2]. rewrite Hp2.
        eexists. split; [reflexivity|].
        cbn [with_table font log fpgm prep glyf maxp].
        split; [discriminate|]. split; [reflexivity|].
        split; [intros asm [= <-]; eauto|]. split; [discriminate|].
        auto.
      * eexists. split; [reflexivity|].
        split; [discriminate|]. split; [reflexivity|].
        split; [discriminate|]. auto.
  - intros asm e Hentry He. unfold compile_fpgm.
    rewrite (compile_program_run _ _ _ _ Hfmt), Hentry, He. reflexivity.
Qed.

(** X12. With font-level metadata that is not empty and fails the
    format check, [compile] raises the error of that check at its first
    step and the font and the log are as before: no table is created, no
    glyph is compiled (whatever the glyphs' own metadata is) and [maxp]
    is not updated. *)
Theorem compile_font_format_failure
    (ufo : UFO) (d : dict) (e : exn) (st : State) :
  font_ttdata ufo = Some d →
  format_fails d e →
  compile ufo st = (Raise e, st)
  ∧ compile_fpgm ufo st = (Raise e, st)
  ∧ compile_prep ufo st = (Raise e, st).
Proof.
  intros Hd Hfail.
  assert (Hprog : ∀ key tag, _compile_program ufo key tag st = (Raise e, st)).
  { intros key tag. rewrite compile_program_unfold, Hd. unfold bind, lift.
    destruct Hfail as [Hz|(-> & z & Hz & Hne)]; rewrite Hz; [reflexivity|].
    apply Z.eqb_neq in Hne. rewrite Hne. reflexivity. }
  unfold compile, compile_fpgm, compile_prep.
  split; [|split; apply Hprog].
  unfold bind at 1. rewrite Hprog. reflexivity.
Qed.

(** [compile_maxp], run. *)
Lemma compile_maxp_run (ufo : UFO) (st : State) :
  compile_maxp ufo st
  = (Ok tt,
     mkState
       (mkTTFont (fpgm (font st)) (prep (font st)) (glyf (font st))
          (<["maxSizeOfInstructions" :=
               VInt (Z.of_nat (max_list (program_sizes (glyf (font st)))))]>
             match font_ttdata ufo with
             | Some ttdata => foldl (copy_limit ttdata) (maxp (font st)) maxp_names
             | None => maxp (font st)
             end))
       (log st)).
Proof.
  cbv [compile_maxp bind get_font put_font font_ttdata].
  destruct (ufo_instructions ufo) as [d|]; [|reflexivity].
  destruct (dict_bool d); reflexivity.
Qed.

(** X14. After a [compile] that returns normally,
    [maxp.maxSizeOfInstructions] bounds the byte length of the program of
    every glyph of the final [glyf] table, the programs attached by
    [compile_glyf] in the same run included. *)
Theorem compile_bounds_glyph_programs (ufo : UFO) (st st' : State) :
  compile ufo st = (Ok tt, st') →
  ∃ m : nat,
    maxp (font st') !! "maxSizeOfInstructions" = Some (VInt (Z.of_nat m))
    ∧ programs_within (glyf (font st')) m.
Proof.
  unfold compile. unfold bind at 1.
  destruct (compile_fpgm ufo st) as [[[]|e1] s1]; [|discriminate].
  unfold bind at 1.
  destruct (compile_prep ufo s1) as [[[]|e2] s2]; [|discriminate].
  unfold bind at 1.
  destruct (compile_glyf ufo s2) as [[[]|e3] s3]; [|discriminate].
  rewrite compile_maxp_run. intros [= <-]. cbn [font maxp glyf].
  exists (max_list (program_sizes (glyf (font s3)))).
  split; [apply lookup_insert_eq|].
  intros name g p Hg Hp. apply max_list_elem_of_le.
  apply elem_of_program_sizes. eauto 6.
Qed.

(** X15. [compile_maxp] is idempotent: running it a second time changes
    nothing. *)
Theorem compile_maxp_idempotent (ufo : UFO) (st : State) :
  (compile_maxp ufo ;;; compile_maxp ufo) st = compile_maxp ufo st.
Proof.
  unfold bind. rewrite (compile_maxp_run ufo st), compile_maxp_run.
  cbn [font log fpgm prep glyf maxp]. do 3 f_equal.
  set (v := VInt (Z.of_nat (max_list (program_sizes (glyf (font st)))))).
  destruct (font_ttdata ufo) as [d|]; [|apply insert_insert_eq].
  apply map_eq. intros k.
  destruct (decide (k = "maxSizeOfInstructions")) as [->|Hne].
  - rewrite !lookup_insert_eq. reflexivity.
  - rewrite !lookup_insert_ne by congruence.
    rewrite !lookup_copy_limits.
    rewrite lookup_insert_ne by congruence.
    rewrite lookup_copy_limits.
    destruct (decide (k ∈ maxp_names)); [|reflexivity].
    destruct (d !! k); reflexivity.
Qed.

End CompileFacts.

(** * Further properties on concrete fonts *)

Section ExtraConcreteFacts.
#[local] Existing Instance demo_ext.

Lemma round_xy_to_grid_default_on_witness :
  glyf (font metrics_state) !! "g" = Some (composite_glyph [0x0200; 0; 0]%Z)
  ∧ List.length (map (mkTTComponent "base") [0x0200; 0; 0]%Z)
    = List.length (glyph_components metrics_glyph)
  ∧ ∃ (st' : State) (tg' : TTGlyph) (cs' : list TTComponent),
      _set_composite_flags metrics_glyph "g" metrics_state = (Ok tt, st')
      ∧ glyf (font st') !! "g" = Some tg'
      ∧ tt_components tg' = Some cs'
      ∧ (∀ c', cs' !! 0 = Some c' → has_flag (flags c') ROUND_XY_TO_GRID = false)
      ∧ (∀ c', cs' !! 1 = Some c' → has_flag (flags c') ROUND_XY_TO_GRID = true).
Proof.
  assert (H1 : glyf (font metrics_state) !! "g"
               = Some (composite_glyph [0x0200; 0; 0]%Z)) by reflexivity.
  assert (H2 : tt_components (composite_glyph [0x0200; 0; 0]%Z)
               = Some (map (mkTTComponent "base") [0x0200; 0; 0]%Z))
    by reflexivity.
  assert (H3 : List.length (map (mkTTComponent "base") [0x0200; 0; 0]%Z)
               = List.length (glyph_components metrics_glyph)) by reflexivity.
  destruct (round_xy_to_grid_default_on metrics_glyph "g" metrics_state
              (composite_glyph [0x0200; 0; 0]%Z)
              (map (mkTTComponent "base") [0x0200; 0; 0]%Z) H1 H2 H3)
    as (st' & tg' & cs' & Hrun & Htg & Hcs & _ & Hbits).
  split; [exact H1|]. split; [exact H3|].
  exists st', tg', cs'. split; [exact Hrun|]. split; [exact Htg|].
  split; [exact Hcs|]. split.
  - intros c' Hc'.
    rewrite (Hbits 0 (mkComponent "x" identity None)
               (mkTTComponent "base" 0x0200%Z) c');
      [reflexivity|reflexivity|reflexivity|exact Hc'].
  - intros c' Hc'.
    rewrite (Hbits 1 (mkComponent "y" identity (Some "b"))
               (mkTTComponent "base" 0%Z) c');
      [reflexivity|reflexivity|reflexivity|exact Hc'].
Defined.

Lemma set_composite_flags_other_bits_witness :
  glyf (font metrics_state) !! "g" = Some (composite_glyph [0x0200; 0; 0]%Z)
  ∧ List.length (map (mkTTComponent "base") [0x0200; 0; 0]%Z)
    = List.length (glyph_components metrics_glyph)
  ∧ ∃ (st' : State) (tg' : TTGlyph) (cs' : list TTComponent),
      _set_composite_flags metrics_glyph "g" metrics_state = (Ok tt, st')
      ∧ glyf (font st') !! "g" = Some tg'
      ∧ tt_components tg' = Some cs'
      ∧ List.length cs' = 3
      ∧ ∀ i c c',
          map (mkTTComponent "base") [0x0200; 0; 0]%Z !! i = Some c →
          cs' !! i = Some c' →
          tt_glyphName c' = tt_glyphName c
          ∧ ∀ b : Z, b ≠ 2%Z → b ≠ 9%Z → b ≠ 10%Z →
              Z.testbit (flags c') b = Z.testbit (flags c) b.
Proof.
  assert (H1 : glyf (font metrics_state) !! "g"
               = Some (composite_glyph [0x0200; 0; 0]%Z)) by reflexivity.
  assert (H2 : tt_components (composite_glyph [0x0200; 0; 0]%Z)
               = Some (map (mkTTComponent "base") [0x0200; 0; 0]%Z))
    by reflexivity.
  assert (H3 : List.length (map (mkTTComponent "base") [0x0200; 0; 0]%Z)
               = List.length (glyph_components metrics_glyph)) by reflexivity.
  split; [exact H1|]. split; [exact H3|].
  exact (set_composite_flags_other_bits metrics_glyph "g" metrics_state
           (composite_glyph [0x0200; 0; 0]%Z)
           (map (mkTTComponent "base") [0x0200; 0; 0]%Z) H1 H2 H3).
Defined.

Lemma use_my_metrics_by_position_witness :
  glyf (font unnamed_state) !! "g" = Some (composite_glyph [0; 0]%Z)
  ∧ List.length (map (mkTTComponent "base") [0; 0]%Z)
    = List.length (glyph_components unnamed_glyph)
  ∧ retained_before unnamed_glyph 0 = None
  ∧ retained_before unnamed_glyph 1 = None
  ∧ retained_before unnamed_glyph 2 = Some "c"
  ∧ ∃ (st' : State) (tg' : TTGlyph) (cs' : list TTComponent),
      _set_composite_flags unnamed_glyph "g" unnamed_state = (Ok tt, st')
      ∧ glyf (font st') !! "g" = Some tg'
      ∧ tt_components tg' = Some cs'
      ∧ (∀ c', cs' !! 0 = Some c' → has_flag (flags c') USE_MY_METRICS = true)
      ∧ (∀ c', cs' !! 1 = Some c' → has_flag (flags c') USE_MY_METRICS = true).
Proof.
  assert (H1 : glyf (font unnamed_state) !! "g"
               = Some (composite_glyph [0; 0]%Z)) by reflexivity.
  assert (H2 : tt_components (composite_glyph [0; 0]%Z)
               = Some (map (mkTTComponent "base") [0; 0]%Z)) by reflexivity.
  assert (H3 : List.length (map (mkTTComponent "base") [0; 0]%Z)
               = List.length (glyph_components unnamed_glyph)) by reflexivity.
  destruct (use_my_metrics_by_position unnamed_glyph "g" unnamed_state
              (composite_glyph [0; 0]%Z)
              (map (mkTTComponent "base") [0; 0]%Z) H1 H2 H3)
    as (st' & tg' & cs' & Hrun & Htg & Hcs & _ & Hbits & _).
  split; [exact H1|]. split; [exact H3|].
  split; [reflexivity|]. split; [reflexivity|]. split; [reflexivity|].
  exists st', tg', cs'. split; [exact Hrun|]. split; [exact Htg|].
  split; [exact Hcs|]. split.
  - intros c' Hc'.
    exact (Hbits 0 (mkComponent "y" identity (Some EmptyString)) c'
             eq_refl eq_refl Hc').
  - intros c' Hc'.
    exact (Hbits 1 (mkComponent "z" identity (Some "c")) c'
             eq_refl eq_refl Hc').
Defined.

Lemma matching_hash_attaches_program_witness :
  ufo_glyphs good_ufo !! "a" = Some good_glyph
  ∧ py_int (good_ttdata !! "formatVersion") = Ok 1%Z
  ∧ glyf (font stale_state) !! "a" = Some (simple_glyph (Some EmptyString))
  ∧ hash_matches good_ufo good_glyph good_ttdata = true
  ∧ good_ttdata !! "assembly" = Some (VStr "SVTCA[0]")
  ∧ fromAssembly new_Program (VStr "SVTCA[0]") = Ok "SVTCA[0]"
  ∧ ∃ (st1 : State) (tg1 : TTGlyph),
      _compile_tt_glyph good_ufo "a" stale_state = (Ok tt, st1)
      ∧ glyf (font st1) !! "a" = Some tg1
      ∧ program tg1 = Some "SVTCA[0]"
      ∧ log st1 = [].
Proof.
  assert (H1 : ufo_glyphs good_ufo !! "a" = Some good_glyph) by reflexivity.
  assert (H2 : glyph_instructions (glyph_lib good_glyph) = Some good_ttdata)
    by reflexivity.
  assert (H3 : py_int (good_ttdata !! "formatVersion") = Ok 1%Z) by reflexivity.
  assert (H4 : glyf (font stale_state) !! "a"
               = Some (simple_glyph (Some EmptyString))) by reflexivity.
  assert (H5 : hash_matches good_ufo good_glyph good_ttdata = true)
    by reflexivity.
  assert (H6 : good_ttdata !! "assembly" = Some (VStr "SVTCA[0]"))
    by reflexivity.
  assert (H7 : fromAssembly new_Program (VStr "SVTCA[0]") = Ok "SVTCA[0]")
    by reflexivity.
  destruct (matching_hash_attaches_program (ext := demo_ext)
              good_ufo "a" good_glyph good_ttdata
              (VStr "SVTCA[0]") "SVTCA[0]" stale_state
              (simple_glyph (Some EmptyString)) H1 H2 H3 H4 H5 H6 H7)
    as (st1 & tg1 & Hrun & Htg & Hp & _ & Hsimple).
  split; [exact H1|]. split; [exact H3|]. split; [exact H4|].
  split; [exact H5|]. split; [exact H6|]. split; [exact H7|].
  exists st1, tg1. split; [exact Hrun|]. split; [exact Htg|].
  split; [exact Hp|]. destruct (Hsimple eq_refl) as [_ Hlog]. exact Hlog.
Defined.

Lemma refused_assembly_leaves_fresh_program_witness :
  ufo_glyphs number_ufo !! "a" = Some number_glyph
  ∧ py_int (number_ttdata !! "formatVersion") = Ok 1%Z
  ∧ glyf (font bare_state) !! "a" = Some (simple_glyph None)
  ∧ hash_matches number_ufo number_glyph number_ttdata = true
  ∧ number_ttdata !! "assembly" = Some (VInt 7)
  ∧ fromAssembly new_Program (VInt 7) = Raise TypeError
  ∧ _compile_tt_glyph number_ufo "a" bare_state = (Raise TypeError, stale_state)
  ∧ compile_glyf number_ufo bare_state = (Raise TypeError, stale_state).
Proof.
  assert (H1 : ufo_glyphs number_ufo !! "a" = Some number_glyph) by reflexivity.
  assert (H2 : glyph_instructions (glyph_lib number_glyph) = Some number_ttdata)
    by reflexivity.
  assert (H3 : py_int (number_ttdata !! "formatVersion") = Ok 1%Z)
    by reflexivity.
  assert (H4 : glyf (font bare_state) !! "a" = Some (simple_glyph None))
    by reflexivity.
  assert (H5 : hash_matches number_ufo number_glyph number_ttdata = true)
    by reflexivity.
  assert (H6 : number_ttdata !! "assembly" = Some (VInt 7)) by reflexivity.
  assert (H7 : fromAssembly new_Program (VInt 7) = Raise TypeError)
    by reflexivity.
  destruct (refused_assembly_leaves_fresh_program number_ufo "a" number_glyph
              number_ttdata (VInt 7) TypeError bare_state (simple_glyph None)
              H1 H2 H3 H4 H5 H6 H7) as (Hstep & _ & _ & _ & Hloop).
  assert (H8 : with_program "a" new_Program bare_state = stale_state)
    by (vm_compute; reflexivity).
  split; [exact H1|]. split; [exact H3|]. split; [exact H4|].
  split; [exact H5|]. split; [exact H6|]. split; [exact H7|].
  rewrite <- H8. split; [exact Hstep|].
  apply (Hloop bare_state [] []); reflexivity.
Defined.

Lemma hash_pen_failure_is_fatal_witness :
  ufo_glyphs dangling_ufo !! "a" = Some dangling_glyph
  ∧ py_int (dangling_ttdata !! "formatVersion") = Ok 1%Z
  ∧ is_Some (glyf (font bare_state) !! "a")
  ∧ HashPointPen_hash dangling_ufo dangling_glyph = Raise KeyError
  ∧ _compile_tt_glyph dangling_ufo "a" bare_state = (Raise KeyError, bare_state)
  ∧ compile_glyf dangling_ufo bare_state = (Raise KeyError, bare_state).
Proof.
  assert (H1 : ufo_glyphs dangling_ufo !! "a" = Some dangling_glyph)
    by reflexivity.
  assert (H2 : glyph_instructions (glyph_lib dangling_glyph)
               = Some dangling_ttdata) by reflexivity.
  assert (H3 : py_int (dangling_ttdata !! "formatVersion") = Ok 1%Z)
    by reflexivity.
  assert (H4 : is_Some (glyf (font bare_state) !! "a"))
    by (exists (simple_glyph None); reflexivity).
  assert (H5 : HashPointPen_hash dangling_ufo dangling_glyph = Raise KeyError)
    by reflexivity.
  destruct (hash_pen_failure_is_fatal dangling_ufo "a" dangling_glyph
              dangling_ttdata KeyError bare_state H1 H2 H3 H4 H5)
    as (Hstep & Hloop).
  split; [exact H1|]. split; [exact H3|]. split; [exact H4|].
  split; [exact H5|]. split; [exact Hstep|].
  apply (Hloop bare_state [] []); reflexivity.
Defined.

Lemma missing_assembly_no_program_witness :
  ufo_glyphs noasm_ufo !! "a" = Some noasm_glyph
  ∧ py_int (noasm_ttdata !! "formatVersion") = Ok 1%Z
  ∧ glyf (font bare_state) !! "a" = Some (simple_glyph None)
  ∧ hash_matches noasm_ufo noasm_glyph noasm_ttdata = true
  ∧ noasm_ttdata !! "assembly" = None
  ∧ ∃ (st1 : State) (tg1 : TTGlyph),
      _compile_tt_glyph noasm_ufo "a" bare_state = (Ok tt, st1)
      ∧ glyf (font st1) !! "a" = Some tg1
      ∧ program tg1 = None
      ∧ (ERROR, msg_assembly_missing "a") ∈ log st1.
Proof.
  assert (H1 : ufo_glyphs noasm_ufo !! "a" = Some noasm_glyph) by reflexivity.
  assert (H2 : glyph_instructions (glyph_lib noasm_glyph) = Some noasm_ttdata)
    by reflexivity.
  assert (H3 : py_int (noasm_ttdata !! "formatVersion") = Ok 1%Z)
    by reflexivity.
  assert (H4 : glyf (font bare_state) !! "a" = Some (simple_glyph None))
    by reflexivity.
  assert (H5 : hash_matches noasm_ufo noasm_glyph noasm_ttdata = true)
    by reflexivity.
  assert (H6 : noasm_ttdata !! "assembly" = None) by reflexivity.
  destruct (missing_assembly_no_program noasm_ufo "a" noasm_glyph noasm_ttdata
              bare_state (simple_glyph None) H1 H2 H3 H4 H5 H6)
    as (st1 & tg1 & Hrun & Htg & Hp & _ & Hlog).
  split; [exact H1|]. split; [exact H3|]. split; [exact H4|].
  split; [exact H5|]. split; [exact H6|].
  exists st1, tg1. split; [exact Hrun|]. split; [exact Htg|].
  split; [exact Hp|exact Hlog].
Defined.

Lemma glyph_without_metadata_witness :
  ufo_glyphs plain_ufo !! "a" = Some (plain_glyph "a" no_lib)
  ∧ glyph_instructions (glyph_lib (plain_glyph "a" no_lib)) = None
  ∧ glyf (font stale_state) !! "a" = Some (simple_glyph (Some EmptyString))
  ∧ _compile_tt_glyph plain_ufo "a" stale_state = (Ok tt, stale_state).
Proof.
  assert (H1 : ufo_glyphs plain_ufo !! "a" = Some (plain_glyph "a" no_lib))
    by reflexivity.
  assert (H2 : glyph_instructions (glyph_lib (plain_glyph "a" no_lib)) = None)
    by reflexivity.
  assert (H3 : glyf (font stale_state) !! "a"
               = Some (simple_glyph (Some EmptyString))) by reflexivity.
  destruct (glyph_without_metadata plain_ufo "a" (plain_glyph "a" no_lib)
              stale_state (simple_glyph (Some EmptyString)) H1 H2 H3)
    as (st1 & tg1 & Hrun & _ & _ & Hsimple).
  split; [exact H1|]. split; [exact H2|]. split; [exact H3|].
  rewrite Hrun. rewrite (Hsimple eq_refl). reflexivity.
Defined.

Lemma compile_glyf_frame_witness :
  compile_glyf mixed_ufo mixed_state
  = (Raise NotImplementedError, snd (compile_glyf mixed_ufo mixed_state))
  ∧ maxp (font (snd (compile_glyf mixed_ufo mixed_state)))
    = maxp (font mixed_state)
  ∧ dom (glyf (font (snd (compile_glyf mixed_ufo mixed_state))))
    = dom (glyf (font mixed_state)).
Proof.
  assert (H1 : compile_glyf mixed_ufo mixed_state
               = (Raise NotImplementedError,
                  snd (compile_glyf mixed_ufo mixed_state)))
    by (vm_compute; reflexivity).
  destruct (compile_glyf_frame mixed_ufo mixed_state _ _ H1)
    as (_ & _ & Hm & Hd & _).
  split; [exact H1|]. split; [exact Hm|exact Hd].
Defined.

Lemma compile_glyf_stops_at_first_failure_witness :
  compile_glyf mixed_ufo mixed_state
  = (Raise NotImplementedError, snd (compile_glyf mixed_ufo mixed_state))
  ∧ program_of (snd (compile_glyf mixed_ufo mixed_state)) "a" = Some "SVTCA[0]"
  ∧ ∃ before name after glyph d s1,
      sorted_keys (ufo_glyphs mixed_ufo) = before ++ name :: after
      ∧ for_each (_compile_tt_glyph mixed_ufo) before mixed_state = (Ok tt, s1)
      ∧ ufo_glyphs mixed_ufo !! name = Some glyph
      ∧ glyph_instructions (glyph_lib glyph) = Some d
      ∧ ∀ n, n ∈ after →
          glyf (font (snd (compile_glyf mixed_ufo mixed_state))) !! n
          = glyf (font mixed_state) !! n.
Proof.
  assert (H1 : compile_glyf mixed_ufo mixed_state
               = (Raise NotImplementedError,
                  snd (compile_glyf mixed_ufo mixed_state)))
    by (vm_compute; reflexivity).
  destruct (compile_glyf_stops_at_first_failure mixed_ufo mixed_state _ _ H1)
    as (before & name & after & glyph & d & s1 & Hs & Hb & Hg & Hd & _ & _ & Hn).
  split; [exact H1|]. split; [vm_compute; reflexivity|].
  exists before, name, after, glyph, d, s1.
  split; [exact Hs|]. split; [exact Hb|]. split; [exact Hg|].
  split; [exact Hd|exact Hn].
Defined.

Lemma compile_glyf_no_compiled_glyph_witness :
  (∀ n, is_Some (ufo_glyphs empty_ufo !! n) →
        glyf (font no_glyf_state) !! n = None)
  ∧ ∃ st' : State,
      compile_glyf empty_ufo no_glyf_state = (Ok tt, st')
      ∧ font st' = font no_glyf_state
      ∧ log st' = [not_in_font_record "a"].
Proof.
  assert (H1 : ∀ n, is_Some (ufo_glyphs empty_ufo !! n) →
                    glyf (font no_glyf_state) !! n = None).
  { intros n _. apply lookup_empty. }
  destruct (compile_glyf_no_compiled_glyph empty_ufo no_glyf_state H1)
    as (st' & Hrun & Hfont & Hlog).
  split; [exact H1|]. exists st'. split; [exact Hrun|]. split; [exact Hfont|].
  rewrite Hlog. vm_compute. reflexivity.
Defined.


Lemma compile_fpgm_then_prep_witness :
  (∀ d, font_ttdata good_ufo = Some d →
        py_int (d !! "formatVersion") = Ok 1%Z)
  ∧ font_entry good_ufo "fontProgram" = Some (VStr "FDEF[ ]")
  ∧ font_entry good_ufo "controlValueProgram" = Some (VStr "PUSHB[ ] 0")
  ∧ ∃ st' : State,
      (compile_fpgm good_ufo ;;; compile_prep good_ufo) bare_state = (Ok tt, st')
      ∧ fpgm (font st') = Some "FDEF[ ]"
      ∧ prep (font st') = Some "PUSHB[ ] 0"
      ∧ log st' = [].
Proof.
  assert (H0 : font_ttdata good_ufo = Some good_font_ttdata) by reflexivity.
  assert (H1 : ∀ d, font_ttdata good_ufo = Some d →
                    py_int (d !! "formatVersion") = Ok 1%Z).
  { intros d Hd. rewrite H0 in Hd. injection Hd as <-. reflexivity. }
  assert (H2 : font_entry good_ufo "fontProgram" = Some (VStr "FDEF[ ]"))
    by reflexivity.
  assert (H3 : font_entry good_ufo "controlValueProgram"
               = Some (VStr "PUSHB[ ] 0")) by reflexivity.
  assert (H4 : assembles (font_entry good_ufo "fontProgram")).
  { intros asm Hasm. rewrite H2 in Hasm. injection Hasm as <-.
    exists "FDEF[ ]". reflexivity. }
  assert (H5 : assembles (font_entry good_ufo "controlValueProgram")).
  { intros asm Hasm. rewrite H3 in Hasm. injection Hasm as <-.
    exists "PUSHB[ ] 0". reflexivity. }
  destruct (compile_fpgm_then_prep good_ufo bare_state H1) as [Hok _].
  destruct (Hok H4 H5) as (st' & Hrun & Hf & _ & Hp & _ & _ & _ & Hl).
  destruct (Hf _ H2) as (p1 & Hp1 & Hf1).
  destruct (Hp _ H3) as (p2 & Hp2 & Hf2).
  injection Hp1 as <-. injection Hp2 as <-.
  split; [exact H1|]. split; [exact H2|]. split; [exact H3|].
  exists st'. split; [exact Hrun|].
  split; [exact Hf1|]. split; [exact Hf2|exact Hl].
Defined.

Lemma compile_font_format_failure_witness :
  font_ttdata v2_ufo = Some v2_ttdata
  ∧ format_fails v2_ttdata NotImplementedError
  ∧ compile v2_ufo v2_state = (Raise NotImplementedError, v2_state).
Proof.
  assert (H1 : font_ttdata v2_ufo = Some v2_ttdata) by reflexivity.
  assert (H2 : format_fails v2_ttdata NotImplementedError).
  { right. split; [reflexivity|]. exists 2%Z. split; [reflexivity|lia]. }
  destruct (compile_font_format_failure v2_ufo v2_ttdata NotImplementedError
              v2_state H1 H2) as (Hrun & _).
  split; [exact H1|]. split; [exact H2|exact Hrun].
Defined.

Lemma compile_bounds_glyph_programs_witness :
  compile good_ufo bare_state = (Ok tt, snd (compile good_ufo bare_state))
  ∧ ∃ m : nat,
      maxp (font (snd (compile good_ufo bare_state))) !! "maxSizeOfInstructions"
      = Some (VInt (Z.of_nat m))
      ∧ programs_within (glyf (font (snd (compile good_ufo bare_state)))) m.
Proof.
  assert (H1 : compile good_ufo bare_state
               = (Ok tt, snd (compile good_ufo bare_state)))
    by (vm_compute; reflexivity).
  split; [exact H1|].
  exact (compile_bounds_glyph_programs good_ufo bare_state _ H1).
Defined.

Lemma compile_glyf_returns_iff_glyphs_compile_witness :
  (∃ st', compile_glyf good_ufo bare_state = (Ok tt, st'))
  ∧ ¬ (∃ st', compile_glyf number_ufo bare_state = (Ok tt, st'))
  ∧ ¬ (∃ st', compile_glyf dangling_ufo bare_state = (Ok tt, st')).
Proof.
  split; [|split].
  - apply (compile_glyf_returns_iff_glyphs_compile good_ufo bare_state).
    intros m g dm Hm Hdm _. unfold good_ufo in Hm. cbn [ufo_glyphs] in Hm.
    apply lookup_singleton_Some in Hm as [_ <-].
    injection Hdm as <-.
    split; [reflexivity|]. split; [exists "w350"; reflexivity|].
    intros _ asm Hasm.
    assert (H0 : good_ttdata !! "assembly" = Some (VStr "SVTCA[0]"))
      by reflexivity.
    rewrite H0 in Hasm. injection Hasm as <-.
    exists "SVTCA[0]". reflexivity.
  - intros Hrun.
    destruct (compile_glyf_returns_iff_glyphs_compile number_ufo bare_state)
      as [Hall _].
    destruct (Hall Hrun "a" number_glyph number_ttdata) as (_ & _ & Hasm);
      [reflexivity|reflexivity|exists (simple_glyph None); reflexivity|].
    destruct (Hasm eq_refl (VInt 7) eq_refl) as [p Hp]. discriminate Hp.
  - intros Hrun.
    destruct (compile_glyf_returns_iff_glyphs_compile dangling_ufo bare_state)
      as [Hall _].
    destruct (Hall Hrun "a" dangling_glyph dangling_ttdata) as (_ & [h Hh] & _);
      [reflexivity|reflexivity|exists (simple_glyph None); reflexivity|].
    discriminate Hh.
Defined.

End ExtraConcreteFacts.

(** * Properties of the filter loader *)

Module FiltersFacts.
Import Filters.

Section Facts.
Context `{imp : Importer}.

Lemma remove_spaces_app (a b : string) :
  remove_spaces (a ++ b) = (remove_spaces a ++ remove_spaces b)%string.
Proof.
  induction a as [|c a IH]; [reflexivity|].
  change (String c a ++ b)%string with (String c (a ++ b)%string).
  cbn [remove_spaces]. destruct (Ascii.eqb c " "); [exact IH|].
  rewrite IH. reflexivity.
Qed.

Lemma remove_spaces_blank (s : string) :
  Forall (λ a, a = " "%char) (chars s) → remove_spaces s = EmptyString.
Proof.
  unfold chars. induction s as [|c s IH]; cbn [list_ascii_of_string remove_spaces];
    [reflexivity|].
  intros H. apply Forall_cons in H as [-> H].
  rewrite Ascii.eqb_refl. auto.
Qed.

(** X17. Spaces in a filter name are ignored: a name with a space
    inserted anywhere names the same module and class, and
    [getFilterClass] gives the same result, an error included. *)
Theorem getFilterClass_ignores_spaces (a b : string) (pkg : value) :
  getFilterClass (VStr (a ++ " " ++ b)) pkg = getFilterClass (VStr (a ++ b)) pkg.
Proof.
  unfold getFilterClass. rewrite !remove_spaces_app.
  change (remove_spaces " ") with EmptyString. reflexivity.
Qed.

(** X18. An entry whose name is empty or made of spaces only is not
    skipped like an unknown filter: [filterName[0]] raises an
    [IndexError], which [loadFilters] does not catch; the loop stops
    there, before any import, with nothing logged and the entries after
    it not loaded. *)
Theorem blank_filter_name_aborts_loading
    (filterDict : dict) (s : string) (entries : list value)
    (preFilters postFilters : list Filter) (log : list (Level * string)) :
  filterDict !! "name" = Some (VStr s) →
  Forall (λ a, a = " "%char) (chars s) →
  getFilterClass (VStr s)
    (default (VStr "ufo2ft.filters") (filterDict !! "namespace"))
  = Throw IndexError
  ∧ load_loop (VDict filterDict :: entries) preFilters postFilters log
    = (Throw IndexError, log).
Proof.
  intros Hname Hblank.
  assert (Hget : ∀ pkg, getFilterClass (VStr s) pkg = Throw IndexError).
  { intros pkg. unfold getFilterClass.
    rewrite (remove_spaces_blank _ Hblank). reflexivity. }
  split; [apply Hget|].
  cbn [load_loop]. rewrite Hname, Hget. reflexivity.
Qed.

(** The filters returned do not depend on what has been logged. *)
Lemma load_loop_log_irrelevant (entries : list value) :
  ∀ (pre post : list Filter) (lg lg' : list (Level * string)),
    fst (load_loop entries pre post lg) = fst (load_loop entries pre post lg').
Proof.
  induction entries as [|entry entries IH]; intros pre post lg lg';
    cbn [load_loop]; [reflexivity|].
  destruct entry as [b|z|s|l|d]; try reflexivity.
  destruct (d !! "name") as [name|]; [|reflexivity].
  destruct (getFilterClass name _) as [k|e].
  - destruct (instantiate k _ _ _ _) as [f|e]; [|reflexivity].
    destruct (is_pre d); apply IH.
  - destruct (caught e); [apply IH|reflexivity].
Qed.

(** The loop over a concatenation. *)
Lemma load_loop_app (l1 l2 : list value) :
  ∀ (pre post : list Filter) (lg : list (Level * string)),
    load_loop (l1 ++ l2) pre post lg
    = match load_loop l1 pre post lg with
      | (Return (pre', post'), lg') => load_loop l2 pre' post' lg'
      | (Throw e, lg') => (Throw e, lg')
      end.
Proof.
  induction l1 as [|entry l1 IH]; intros pre post lg; cbn [load_loop app];
    [reflexivity|].
  destruct entry as [b|z|s|l|d]; try reflexivity.
  destruct (d !! "name") as [name|]; [|reflexivity].
  destruct (getFilterClass name _) as [k|e].
  - destruct (instantiate k _ _ _ _) as [f|e]; [|reflexivity].
    destruct (is_pre d); apply IH.
  - destruct (caught e); [apply IH|reflexivity].
Qed.

(** X19. An entry whose filter class cannot be loaded, by an
    [ImportError] or an [AttributeError] of [getFilterClass] (an unknown
    module, a module without the class, a name that is no string), has no
    effect on the filters returned: the result is that of the list
    without the entry, the same two lists or the same exception. *)
Theorem unloadable_filter_is_skipped
    (entries1 entries2 : list value) (filterDict : dict) (name : value)
    (e : error) (preFilters postFilters : list Filter)
    (log : list (Level * string)) :
  filterDict !! "name" = Some name →
  getFilterClass name
    (default (VStr "ufo2ft.filters") (filterDict !! "namespace")) = Throw e →
  e = ImportError ∨ e = AttributeError →
  fst (load_loop (entries1 ++ VDict filterDict :: entries2)
         preFilters postFilters log)
  = fst (load_loop (entries1 ++ entries2) preFilters postFilters log)
  ∧ load_loop (VDict filterDict :: entries2) preFilters postFilters log
    = load_loop entries2 preFilters postFilters
        (log ++ [(ERROR, msg_failed filterDict)]).
Proof.
  intros Hname Hget He.
  assert (Hcaught : caught e = true) by (destruct He as [-> | ->]; reflexivity).
  assert (Hhead : ∀ pre post lg,
            load_loop (VDict filterDict :: entries2) pre post lg
            = load_loop entries2 pre post (lg ++ [(ERROR, msg_failed filterDict)])).
  { intros pre post lg. cbn [load_loop]. rewrite Hname, Hget, Hcaught.
    reflexivity. }
  split; [|apply Hhead].
  rewrite !load_loop_app.
  destruct (load_loop entries1 preFilters postFilters log) as [[[pre post]|e1] lg1];
    [|reflexivity].
  rewrite Hhead. apply load_loop_log_irrelevant.
Qed.

(** What the loop adds to the two lists and the log. *)
Lemma load_loop_grows (entries : list value) :
  ∀ (pre0 post0 : list Filter) (lg0 : list (Level * string))
    (pre post : list Filter) (lg : list (Level * string)),
    load_loop entries pre0 post0 lg0 = (Return (pre, post), lg) →
    ∃ pre1 post1 lg1,
      pre = pre0 ++ pre1 ∧ post = post0 ++ post1 ∧ lg = lg0 ++ lg1
      ∧ List.length pre1 + List.length post1 + List.length lg1
        = List.length entries
      ∧ Forall (λ r, fst r = ERROR) lg1.
Proof.
  induction entries as [|entry entries IH]; intros pre0 post0 lg0 pre post lg;
    cbn [load_loop].
  - intros [= <- <- <-]. exists [], [], []. rewrite !app_nil_r. auto.
  - destruct entry as [b|z|s|l|d]; try discriminate.
    destruct (d !! "name") as [name|]; [|discriminate].
    destruct (getFilterClass name _) as [k|e].
    + destruct (instantiate k _ _ _ _) as [f|e]; [|discriminate].
      destruct (is_pre d); intros Hrun;
        destruct (IH _ _ _ _ _ _ Hrun)
          as (pre1 & post1 & lg1 & -> & -> & -> & Hlen & Hall).
      * exists (f :: pre1), post1, lg1. rewrite <- app_assoc.
        cbn [List.length] in *. repeat split; auto. lia.
      * exists pre1, (f :: post1), lg1. rewrite <- app_assoc.
        cbn [List.length] in *. repeat split; auto. lia.
    + destruct (caught e); [|discriminate]. intros Hrun.
      destruct (IH _ _ _ _ _ _ Hrun)
        as (pre1 & post1 & lg1 & -> & -> & -> & Hlen & Hall).
      exists pre1, post1, ((ERROR, msg_failed d) :: lg1). rewrite <- app_assoc.
      cbn [List.length] in *. repeat split; auto. lia.
Qed.

(** X20. When [loadFilters] returns, every entry of the list has given
    exactly one filter object, in one of the two lists, or one error
    record in the log: the lengths of the two lists and of the log add up
    to the number of entries, and the log holds error records only. *)
Theorem loadFilters_accounts_for_every_entry
    (filters : option (list value)) (preFilters postFilters : list Filter)
    (log : list (Level * string)) :
  loadFilters filters = (Return (preFilters, postFilters), log) →
  List.length preFilters + List.length postFilters + List.length log
  = List.length (default [] filters)
  ∧ Forall (λ r, fst r = ERROR) log.
Proof.
  unfold loadFilters. intros Hrun.
  destruct (load_loop_grows _ _ _ _ _ _ _ Hrun)
    as (pre1 & post1 & lg1 & -> & -> & -> & Hlen & Hall).
  cbn [app]. auto.
Qed.

(** X21. The filters are returned in the order of their entries, each in
    the list its [pre] value chooses: when the entries but the last give
    the lists [preFilters] and [postFilters], and the class of the last
    entry loads and its call returns [filterObj], then the whole list
    gives the same two lists with [filterObj] appended to [preFilters]
    when the entry's [pre] value is truthy, to [postFilters] when it is
    falsy or absent; the log is the same. *)
Theorem loadFilters_appends_in_order
    (entries : list value) (filterDict : dict) (name : value)
    (filterClass : FilterClass) (filterObj : Filter)
    (preFilters postFilters : list Filter) (log : list (Level * string)) :
  loadFilters (Some entries) = (Return (preFilters, postFilters), log) →
  filterDict !! "name" = Some name →
  getFilterClass name
    (default (VStr "ufo2ft.filters") (filterDict !! "namespace"))
  = Return filterClass →
  instantiate filterClass (filterDict !! "include") (filterDict !! "exclude")
    (filterDict !! "args") (filterDict !! "kwargs") = Return filterObj →
  loadFilters (Some (entries ++ [VDict filterDict]))
  = (Return (if is_pre filterDict
             then (preFilters ++ [filterObj], postFilters)
             else (preFilters, postFilters ++ [filterObj])), log).
Proof.
  unfold loadFilters. cbn [from_option id]. intros Hrun Hname Hget Hnew.
  rewrite load_loop_app, Hrun. cbn [load_loop].
  rewrite Hname, Hget, Hnew. destruct (is_pre filterDict); reflexivity.
Qed.

End Facts.

End FiltersFacts.

(** * Properties of the feature compilation helpers *)

Module FeaturesFacts.
Import Features.

Section Facts.
Context `{env : Environment}.

(** ** Strings *)

Lemma chars_app (a b : string) : chars (a ++ b) = chars a ++ chars b.
Proof.
  unfold chars. induction a as [|c a IH]; [reflexivity|].
  change (String c a ++ b)%string with (String c (a ++ b)%string).
  cbn [list_ascii_of_string]. rewrite IH. reflexivity.
Qed.

Lemma str_chars (s : string) : str (chars s) = s.
Proof. apply string_of_list_ascii_of_string. Qed.

Lemma chars_mti_file (n : string) :
  chars (mti_file n) = chars prefix ++ chars n ++ chars ".mti".
Proof. unfold mti_file. rewrite !chars_app. reflexivity. Qed.

Lemma is_mti_file (n : string) : is_mti (mti_file n) = true.
Proof.
  unfold is_mti, startswith, endswith. rewrite chars_mti_file.
  apply andb_true_iff. split; apply bool_decide_eq_true.
  - apply prefix_app_r. reflexivity.
  - exists (chars prefix ++ chars n). rewrite <- app_assoc. reflexivity.
Qed.

Lemma slice_mti_file (n : string) :
  slice (mti_file n) (String.length prefix) 4 = n.
Proof.
  unfold slice. rewrite chars_mti_file.
  rewrite !length_app.
  change (String.length prefix) with (List.length (chars prefix)).
  change (List.length (chars ".mti")) with 4.
  rewrite drop_app_length.
  replace (List.length (chars prefix) + (List.length (chars n) + 4) - 4
           - List.length (chars prefix)) with (List.length (chars n)) by lia.
  rewrite take_app_length. apply str_chars.
Qed.

Lemma mti_file_inj (n n' : string) : mti_file n = mti_file n' → n = n'.
Proof.
  intros H. rewrite <- (slice_mti_file n), <- (slice_mti_file n'), H.
  reflexivity.
Qed.

(** A file name passes the test of the loop exactly when it is the data
    file of some name: the prefix and the suffix cannot overlap. *)
Lemma is_mti_inv (f : string) : is_mti f = true → ∃ n, f = mti_file n.
Proof.
  unfold is_mti, startswith, endswith.
  intros [[k Hp]%bool_decide_eq_true [k' Hs]%bool_decide_eq_true]%andb_true_iff.
  assert (Hk : ∃ m, k = m ++ chars ".mti").
  { rewrite Hp in Hs.
    assert (Hrev : rev k ++ rev (chars prefix) = rev (chars ".mti") ++ rev k').
    { rewrite <- !rev_app_distr. f_equal. exact Hs. }
    destruct (rev k) as [|a [|b [|c [|d r]]]] eqn:Hk;
      try (vm_compute in Hrev; discriminate Hrev).
    apply (f_equal (@rev ascii)) in Hk. rewrite rev_involutive in Hk.
    cbn [rev app] in Hrev. injection Hrev as -> -> -> -> _.
    exists (rev r). rewrite Hk. cbn [rev]. rewrite <- !app_assoc. reflexivity. }
  destruct Hk as [m ->]. exists (str m).
  rewrite <- (str_chars f), Hp. unfold mti_file.
  rewrite <- (str_chars (prefix ++ str m ++ ".mti")), !chars_app.
  unfold str at 2, chars at 4. rewrite list_ascii_of_string_of_list_ascii.
  reflexivity.
Qed.

(** ** [_getMtiFeatures] *)

Lemma mti_loop_spec (entries : list (string * Data)) :
  ∀ features0 : gmap string string,
    NoDup (entries.*1) →
    (∀ f content, (f, content) ∈ entries → is_mti f = true →
                  is_Some (tounicode content)) →
    ∃ features',
      mti_loop features0 entries = Return features'
      ∧ ∀ n, features' !! n
             = match (list_to_map entries : gmap string Data) !! mti_file n with
               | Some content => tounicode content
               | None => features0 !! n
               end.
Proof.
  induction entries as [|[f content] entries IH]; intros features0 Hnd Hdec.
  - exists features0. split; [reflexivity|]. intros n.
    cbn [list_to_map foldr]. rewrite lookup_empty. reflexivity.
  - cbn [fmap list_fmap fst] in Hnd. apply NoDup_cons in Hnd as [Hnot Hnd].
    assert (Hrest : ∀ f' c', (f', c') ∈ entries → is_mti f' = true →
              is_Some (tounicode c')).
    { intros f' c' Hin. apply Hdec. right. exact Hin. }
    assert (Hnone : (list_to_map entries : gmap string Data) !! f = None).
    { apply not_elem_of_list_to_map_1. exact Hnot. }
    cbn [mti_loop]. unfold mti_step. cbn [fst snd].
    destruct (is_mti f) eqn:Hf.
    + destruct (Hdec f content) as [c Hc]; [left|exact Hf|]. rewrite Hc.
      destruct (is_mti_inv f Hf) as [n0 ->]. rewrite slice_mti_file.
      destruct (IH (<[n0 := c]> features0) Hnd Hrest) as (features' & Hrun & Hlook).
      exists features'. split; [exact Hrun|]. intros n. rewrite Hlook.
      cbn [list_to_map foldr fst snd].
      destruct (decide (n = n0)) as [->|Hne].
      * rewrite Hnone, !lookup_insert_eq. symmetry. exact Hc.
      * assert (Hfile : mti_file n0 ≠ mti_file n).
        { intros Heq. apply mti_file_inj in Heq. congruence. }
        rewrite (lookup_insert_ne _ _ _ _ Hfile).
        rewrite lookup_insert_ne by congruence. reflexivity.
    + destruct (IH features0 Hnd Hrest) as (features' & Hrun & Hlook).
      exists features'. split; [exact Hrun|]. intros n. rewrite Hlook.
      cbn [list_to_map foldr fst snd].
      rewrite lookup_insert_ne; [reflexivity|].
      intros ->. rewrite is_mti_file in Hf. discriminate.
Qed.

(** X22. [_getMtiFeatures], when every data file it reads decodes: it
    returns; the dictionary it builds maps a name [n] to the decoded
    contents of the data file [prefix + n + ".mti"], for every such file
    and for nothing else (the key is the file name without the prefix and
    the extension, and two files never share a key); and it returns
    [None] in place of the dictionary exactly when the data store has no
    file with that prefix and extension. *)
Theorem getMtiFeatures_by_name (data : gmap string Data) :
  (∀ f content, data !! f = Some content → is_mti f = true →
                is_Some (tounicode content)) →
  ∃ r : option (gmap string string),
    _getMtiFeatures data = Return r
    ∧ (∀ n, match r with Some features => features !! n | None => None end
            = match data !! mti_file n with
              | Some content => tounicode content
              | None => None
              end)
    ∧ (r = None ↔ ∀ f, is_Some (data !! f) → is_mti f = false).
Proof.
  intros Hdec. unfold _getMtiFeatures.
  destruct (mti_loop_spec (map_to_list data) ∅) as (features & Hrun & Hlook).
  { apply NoDup_fst_map_to_list. }
  { intros f content Hin. apply Hdec. apply elem_of_map_to_list. exact Hin. }
  rewrite list_to_map_to_list in Hlook. rewrite Hrun.
  assert (Hlook' : ∀ n, features !! n
                        = match data !! mti_file n with
                          | Some content => tounicode content
                          | None => None
                          end).
  { intros n. rewrite Hlook, lookup_empty. reflexivity. }
  assert (Hempty : features = ∅ ↔ ∀ f, is_Some (data !! f) → is_mti f = false).
  { split.
    - intros -> f [content Hf]. destruct (is_mti f) eqn:Hm; [|reflexivity].
      destruct (is_mti_inv f Hm) as [n ->].
      specialize (Hlook' n). rewrite lookup_empty, Hf in Hlook'.
      destruct (Hdec _ _ Hf Hm) as [c Hc]. congruence.
    - intros Hno. apply map_eq. intros n. rewrite Hlook', lookup_empty.
      destruct (data !! mti_file n) as [content|] eqn:Hf; [|reflexivity].
      assert (Hm : is_mti (mti_file n) = false) by (apply Hno; eauto).
      rewrite is_mti_file in Hm. discriminate Hm. }
  eexists. split; [reflexivity|].
  destruct (0 <? size features) eqn:Hsize.
  - split; [exact Hlook'|]. split; [discriminate|].
    intros Hno. apply Hempty in Hno. subst features.
    rewrite map_size_empty in Hsize. discriminate.
  - apply Nat.ltb_ge in Hsize.
    assert (features = ∅) as Hnil.
    { apply map_size_empty_inv. lia. }
    split.
    + intros n. rewrite <- Hlook', Hnil, lookup_empty. reflexivity.
    + split; [intros _; apply Hempty; exact Hnil|reflexivity].
Qed.

(** X23. [_getMtiFeatures] raises when one of the data files it reads
    does not decode, whatever the other files are. *)
Theorem getMtiFeatures_decode_error
    (data : gmap string Data) (f : string) (content : Data) :
  data !! f = Some content →
  is_mti f = true →
  tounicode content = None →
  _getMtiFeatures data = Throw UnicodeDecodeError.
Proof.
  intros Hf Hm Hdec. unfold _getMtiFeatures.
  assert (Hin : (f, content) ∈ map_to_list data)
    by (apply elem_of_map_to_list; exact Hf).
  assert (Hloop : ∀ entries features0, (f, content) ∈ entries →
            mti_loop features0 entries = Throw UnicodeDecodeError).
  { induction entries as [|entry entries IH]; intros features0 Hi.
    - apply elem_of_nil in Hi. contradiction.
    - cbn [mti_loop]. destruct (mti_step features0 entry) as [features1|[]] eqn:Hs;
        [|reflexivity].
      apply elem_of_cons in Hi as [<-|Hi]; [|apply IH; exact Hi].
      unfold mti_step in Hs. cbn [fst snd] in Hs. rewrite Hm, Hdec in Hs.
      discriminate. }
  rewrite (Hloop _ _ Hin). reflexivity.
Qed.

(** ** [_replaceDeprecatedFeatureWriters] *)

(** The loop assigns in place while it iterates; it still is a map over
    the list as it was. *)
Lemma replace_loop_spec (tag : string) (cls : Writer) (n : nat) :
  ∀ (i : nat) (ws : list Writer),
    i + n = List.length ws →
    replace_loop tag cls n i ws
    = take i ws ++ map (replaced tag (Some cls)) (drop i ws).
Proof.
  induction n as [|n IH]; intros i ws Hlen; cbn [replace_loop].
  - rewrite take_ge, drop_ge by lia. rewrite app_nil_r. reflexivity.
  - destruct (lookup_lt_is_Some_2 ws i) as [w Hw]; [lia|]. rewrite Hw.
    set (ws' := if bool_decide (tag ∈ features w) then <[i := cls]> ws else ws).
    assert (Hws' : ws' = <[i := replaced tag (Some cls) w]> ws).
    { unfold ws', replaced. destruct (bool_decide (tag ∈ features w));
        [reflexivity|]. symmetry. apply list_insert_id. exact Hw. }
    rewrite IH by (rewrite Hws', length_insert; lia).
    rewrite Hws'. rewrite (take_S_r _ _ (replaced tag (Some cls) w)).
    2:{ apply list_lookup_insert_eq. eapply lookup_lt_Some. exact Hw. }
    rewrite take_insert_ge by lia. rewrite drop_insert_lt by lia.
    rewrite (drop_S ws w i Hw). cbn [map]. rewrite <- app_assoc. reflexivity.
Qed.

Lemma replace_block_spec (arg tag : string) (cls : option Writer)
    (ws : list Writer) :
  fst (replace_block arg tag cls ws) = map (replaced tag cls) ws.
Proof.
  unfold replace_block. destruct cls as [cls|]; cbn [fst].
  - rewrite replace_loop_spec by reflexivity. reflexivity.
  - unfold replaced. symmetry. apply map_id.
Qed.

(** X24. [_replaceDeprecatedFeatureWriters] leaves the list with the
    same length and, at each position, with what the two replacements
    make of the writer that was there: the kern class when one is given
    and the writer's features have ["kern"], then the mark class when one
    is given and the features of what is there by then have ["mark"].  A
    writer with neither feature stays, and with no class given the list
    is unchanged and nothing is deprecated. *)
Theorem replaceDeprecatedFeatureWriters_pointwise
    (featureWriters : list Writer) (kernWriterClass markWriterClass : option Writer) :
  fst (_replaceDeprecatedFeatureWriters featureWriters
         kernWriterClass markWriterClass)
  = map (λ writer, replaced "mark" markWriterClass
                     (replaced "kern" kernWriterClass writer))
        featureWriters
  ∧ List.length (fst (_replaceDeprecatedFeatureWriters featureWriters
                        kernWriterClass markWriterClass))
    = List.length featureWriters
  ∧ snd (_replaceDeprecatedFeatureWriters featureWriters
           kernWriterClass markWriterClass)
    = match kernWriterClass with
      | Some _ => [("kernWriterClass", "featureWriters")]
      | None => []
      end
      ++ match markWriterClass with
         | Some _ => [("markWriterClass", "featureWriters")]
         | None => []
         end
  ∧ _replaceDeprecatedFeatureWriters featureWriters None None
    = (featureWriters, []).
Proof.
  assert (Hmap : fst (_replaceDeprecatedFeatureWriters featureWriters
                        kernWriterClass markWriterClass)
                 = map (λ writer, replaced "mark" markWriterClass
                                    (replaced "kern" kernWriterClass writer))
                       featureWriters).
  { unfold _replaceDeprecatedFeatureWriters. cbn [fst snd].
    rewrite !replace_block_spec, map_map. reflexivity. }
  split; [exact Hmap|]. split; [rewrite Hmap; apply length_map|].
  split; [|reflexivity].
  unfold _replaceDeprecatedFeatureWriters, replace_block. cbn [fst snd].
  destruct kernWriterClass, markWriterClass; reflexivity.
Qed.

End Facts.

End FeaturesFacts.

(** * The filter loader and the helpers on concrete data *)

Section OtherConcreteFacts.
#[local] Existing Instance demo_importer.
#[local] Existing Instance demo_env.

Lemma blank_filter_name_aborts_loading_witness :
  blank_entry !! "name" = Some (VStr "  ")
  ∧ Forall (λ a, a = " "%char) (chars "  ")
  ∧ Filters.load_loop [VDict blank_entry; VDict overlaps_entry] [] [] []
    = (Filters.Throw Filters.IndexError, []).
Proof.
  assert (H1 : blank_entry !! "name" = Some (VStr "  ")) by reflexivity.
  assert (H2 : Forall (λ a, a = " "%char) (chars "  ")).
  { repeat constructor. }
  destruct (FiltersFacts.blank_filter_name_aborts_loading blank_entry "  "
              [VDict overlaps_entry] [] [] [] H1 H2) as [_ Hrun].
  split; [exact H1|]. split; [exact H2|exact Hrun].
Defined.

Lemma unloadable_filter_is_skipped_witness :
  unknown_entry !! "name" = Some (VStr "noSuchFilter")
  ∧ Filters.getFilterClass (VStr "noSuchFilter") (VStr "ufo2ft.filters")
    = Filters.Throw Filters.ImportError
  ∧ fst (Filters.load_loop
           ([VDict overlaps_entry] ++ VDict unknown_entry :: [VDict anchors_entry])
           [] [] [])
    = fst (Filters.load_loop ([VDict overlaps_entry] ++ [VDict anchors_entry])
             [] [] []).
Proof.
  assert (H1 : unknown_entry !! "name" = Some (VStr "noSuchFilter"))
    by reflexivity.
  assert (H2 : Filters.getFilterClass (VStr "noSuchFilter")
                 (default (VStr "ufo2ft.filters") (unknown_entry !! "namespace"))
               = Filters.Throw Filters.ImportError) by reflexivity.
  assert (H3 : Filters.ImportError = Filters.ImportError
               ∨ Filters.ImportError = Filters.AttributeError)
    by (left; reflexivity).
  destruct (FiltersFacts.unloadable_filter_is_skipped [VDict overlaps_entry]
              [VDict anchors_entry] unknown_entry (VStr "noSuchFilter")
              Filters.ImportError [] [] [] H1 H2 H3) as [Hfst _].
  split; [exact H1|]. split; [exact H2|exact Hfst].
Defined.

Lemma loadFilters_accounts_for_every_entry_witness :
  Filters.loadFilters
    (Some [VDict overlaps_entry; VDict unknown_entry; VDict anchors_entry])
  = (Filters.Return ([("RemoveOverlapsFilter", None)],
                     [("PropagateAnchorsFilter", None)]),
     [(ERROR, "Failed to load filter: {...}")])
  ∧ 1 + 1 + 1 = 3.
Proof.
  assert (H1 : Filters.loadFilters
                 (Some [VDict overlaps_entry; VDict unknown_entry;
                        VDict anchors_entry])
               = (Filters.Return ([("RemoveOverlapsFilter", None)],
                                  [("PropagateAnchorsFilter", None)]),
                  [(ERROR, "Failed to load filter: {...}")]))
    by (vm_compute; reflexivity).
  destruct (FiltersFacts.loadFilters_accounts_for_every_entry _ _ _ _ H1)
    as [Hlen _].
  split; [exact H1|exact Hlen].
Defined.

Lemma loadFilters_appends_in_order_witness :
  Filters.loadFilters (Some [VDict anchors_entry])
  = (Filters.Return ([], [("PropagateAnchorsFilter", None)]), [])
  ∧ overlaps_entry !! "name" = Some (VStr "Remove Overlaps")
  ∧ Filters.getFilterClass (VStr "Remove Overlaps") (VStr "ufo2ft.filters")
    = Filters.Return "RemoveOverlapsFilter"
  ∧ Filters.is_pre overlaps_entry = true
  ∧ Filters.loadFilters (Some ([VDict anchors_entry] ++ [VDict overlaps_entry]))
    = (Filters.Return ([("RemoveOverlapsFilter", None)],
                       [("PropagateAnchorsFilter", None)]), []).
Proof.
  assert (H1 : Filters.loadFilters (Some [VDict anchors_entry])
               = (Filters.Return ([], [("PropagateAnchorsFilter", None)]), []))
    by (vm_compute; reflexivity).
  assert (H2 : overlaps_entry !! "name" = Some (VStr "Remove Overlaps"))
    by reflexivity.
  assert (H3 : Filters.getFilterClass (VStr "Remove Overlaps")
                 (default (VStr "ufo2ft.filters") (overlaps_entry !! "namespace"))
               = Filters.Return "RemoveOverlapsFilter")
    by (vm_compute; reflexivity).
  assert (H4 : Filters.instantiate "RemoveOverlapsFilter"
                 (overlaps_entry !! "include") (overlaps_entry !! "exclude")
                 (overlaps_entry !! "args") (overlaps_entry !! "kwargs")
               = Filters.Return ("RemoveOverlapsFilter", None))
    by reflexivity.
  split; [exact H1|]. split; [exact H2|]. split; [exact H3|].
  split; [reflexivity|].
  exact (FiltersFacts.loadFilters_appends_in_order [VDict anchors_entry]
           overlaps_entry (VStr "Remove Overlaps") "RemoveOverlapsFilter"
           ("RemoveOverlapsFilter", None) [] [("PropagateAnchorsFilter", None)] []
           H1 H2 H3 H4).
Defined.

Lemma getMtiFeatures_by_name_witness :
  (∀ f content, mti_data !! f = Some content → Features.is_mti f = true →
                is_Some (Features.tounicode content))
  ∧ ∃ r : option (gmap string string),
      Features._getMtiFeatures mti_data = Features.Return r
      ∧ match r with Some features => features !! "GSUB" | None => None end
        = Some "lookup".
Proof.
  assert (H1 : ∀ f content, mti_data !! f = Some content →
                 Features.is_mti f = true →
                 is_Some (Features.tounicode content)).
  { intros f content Hf Hm. unfold mti_data in Hf.
    apply lookup_insert_Some in Hf as [[<- <-]|[_ Hf]].
    - eexists. reflexivity.
    - apply lookup_singleton_Some in Hf as [<- _].
      vm_compute in Hm. discriminate Hm. }
  destruct (FeaturesFacts.getMtiFeatures_by_name mti_data H1)
    as (r & Hrun & Hlook & _).
  split; [exact H1|]. exists r. split; [exact Hrun|].
  rewrite (Hlook "GSUB"). reflexivity.
Defined.

Lemma getMtiFeatures_decode_error_witness :
  bad_mti_data !! "com.github.googlei18n.ufo2ft.mtiFeatures/GPOS.mti"
  = Some "invalid"
  ∧ Features.is_mti "com.github.googlei18n.ufo2ft.mtiFeatures/GPOS.mti" = true
  ∧ Features.tounicode "invalid" = None
  ∧ Features._getMtiFeatures bad_mti_data
    = Features.Throw Features.UnicodeDecodeError.
Proof.
  assert (H1 : bad_mti_data
                 !! "com.github.googlei18n.ufo2ft.mtiFeatures/GPOS.mti"
               = Some "invalid") by reflexivity.
  assert (H2 : Features.is_mti
                 "com.github.googlei18n.ufo2ft.mtiFeatures/GPOS.mti" = true)
    by (vm_compute; reflexivity).
  assert (H3 : Features.tounicode "invalid" = None) by reflexivity.
  split; [exact H1|]. split; [exact H2|]. split; [exact H3|].
  exact (FeaturesFacts.getMtiFeatures_decode_error bad_mti_data _ _ H1 H2 H3).
Defined.

(** The two replacements on a list of three writers. *)
Example replace_deprecated_writers :
  fst (Features._replaceDeprecatedFeatureWriters
         [("Kern", ["kern"]); ("Mark", ["mark"; "mkmk"]); ("Liga", ["liga"])]
         (Some ("MyKern", ["kern"])) None)
  = [("MyKern", ["kern"]); ("Mark", ["mark"; "mkmk"]); ("Liga", ["liga"])].
Proof. vm_compute. reflexivity. Qed.

(** The names of the filter module and class for the name
    ["Remove Overlaps"], and a blank name. *)
Example getFilterClass_names :
  Filters.getFilterClass (VStr "Remove Overlaps") (VStr "ufo2ft.filters")
  = Filters.Return "RemoveOverlapsFilter"
  ∧ Filters.getFilterClass (VStr "removeOverlaps") (VStr "ufo2ft.filters")
    = Filters.Return "RemoveOverlapsFilter"
  ∧ Filters.getFilterClass (VStr "Remove Overlaps") (VStr "my.filters")
    = Filters.Throw Filters.ImportError
  ∧ Filters.getFilterClass (VInt 3) (VStr "ufo2ft.filters")
    = Filters.Throw Filters.AttributeError
  ∧ Filters.getFilterClass (VStr "Remove Overlaps") (VInt 3)
    = Filters.Throw Filters.TypeError.
Proof. repeat split; vm_compute; reflexivity. Qed.

End OtherConcreteFacts.
